(** * Don't Blink: the leaderboard and the round machine

    A shallow embedding of [leaderboard.js] (the rank engine over the
    Firestore collection [scores]) and of the [DontBlink] class of
    [game.js] (the round state machine, the score recorder and the
    leaderboard submission action), followed by the properties the
    design document states about them.

    Conventions.
    - A score is an integer number of milliseconds ([Z]); ranks, indices
      and lengths are [nat]. Clock readings, random draws and delays are
      binary64 numbers, held as the rationals ([Q]) they denote; what
      the program adds, subtracts or multiplies of them is rounded to
      binary64 ([fl64]).
    - Strings hold text in UTF-8, one [ascii] per byte.
    - The Firestore backend, the browser timer table, the clock and the
      random source are outside the program: the backend is a parameter
      ([backend]), the timer table is part of the modelled world, clock
      readings and random draws come with each event ([Oracle]).
    - Of the page, only what the modelled methods read back or what the
      properties mention is kept: background colour, active screen, the
      name field and the save button. Message texts, score dots, the rank
      display and the rendered leaderboard rows are presentation only. *)

From stdpp Require Import gmap strings list pretty.
From Stdlib Require Import ZArith QArith Qround Qabs Qpower Lia Bool.
From Stdlib Require Import Lqa DecimalString DecimalPos.

Open Scope Z_scope.

(** ** JavaScript numbers used by the program *)
Module JS.

(** *** binary64

    A finite number is held as the rational it denotes. [fl64 x] is the
    binary64 number nearest to [x], a tie going to the even
    significand: [x] is cut to 53 significant bits, or to a multiple
    of [2^-1074] where it is smaller than [2^-1022]. Magnitudes from
    [2^1024] on, where JavaScript has [Infinity], are not modelled. *)

Definition pow2 (e : Z) : Q := ((2 # 1) ^ e)%Q.

(** The integer part of the binary logarithm of [|x|], for [x] other
    than 0. *)
Definition ilog2 (x : Q) : Z :=
  let k := Z.log2 (Z.abs (Qnum x)) - Z.log2 (Z.pos (Qden x)) in
  if Qle_bool (pow2 k) (Qabs x) then k else k - 1.

(** The integer nearest to [y], a tie going to the even one. *)
Definition rne (y : Q) : Z :=
  let f := Qfloor y in
  match (y - inject_Z f ?= 1 # 2)%Q with
  | Lt => f
  | Gt => f + 1
  | Eq => if Z.even f then f else f + 1
  end.

Definition fl64 (x : Q) : Q :=
  if Qeq_bool x 0 then 0%Q
  else
    let e := Z.max (-1074) (ilog2 x - 52) in
    Qred (inject_Z (rne (x / pow2 e)) * pow2 e)%Q.

(** [a + b], [a - b] and [a * b] on numbers. *)
Definition num_add (a b : Q) : Q := fl64 (a + b)%Q.
Definition num_sub (a b : Q) : Q := fl64 (a - b)%Q.
Definition num_mul (a b : Q) : Q := fl64 (a * b)%Q.

(** [Math.round(x)]: the nearest integer, halves rounded up. *)
Definition Math_round (x : Q) : Z := Qfloor (x + (1 # 2))%Q.

(** [a.reduce((a, b) => a + b, 0)] *)
Definition sum (a : list Z) : Z := fold_left Z.add a 0.

End JS.

(** ** leaderboard.js *)
Module Leaderboard.

Definition SIZE : nat := 100.

(** *** What Firestore hands back *)

Definition DocId := string.
Definition CollectionRef := string.

(** The object passed to [add]: [createdAt] is the server-timestamp
    sentinel, filled in by the backend. *)
Record NewDoc := { new_name : string; new_score : Z }.

(** [d.data()] of a stored document. *)
Record DocData := { name : string; score : Z; createdAt : Z }.

(** One element of [snap.docs]. *)
Record QueryDocumentSnapshot := { id : DocId; data : DocData }.

Record DocumentReference := { ref_id : DocId }.

(** [{ ...d.data(), ts: d.id }] *)
Record Entry := { e_name : string; e_score : Z; e_createdAt : Z; ts : DocId }.

Definition with_ts (d : QueryDocumentSnapshot) : Entry :=
  {| e_name := name (data d); e_score := score (data d);
     e_createdAt := createdAt (data d); ts := id d |}.

(** [{ ...e, rank }] *)
Record Ranked (A : Type) := { entry : A; rank : nat }.
Arguments entry {A} _.
Arguments rank {A} _.

(** [{ rank, isTied }] from [peek], [{ rank, isTied, ts }] from [submit];
    JavaScript's [null] result is [None] at type [option RankResult]. *)
Record RankResult := { r_rank : nat; isTied : bool; r_ts : option DocId }.

(** *** Requests to the backend, and a small monad for the [async]
    functions: module state ([_col]), exceptions with [try]/[catch],
    and calls whose outcome the backend decides. *)

Inductive exn := Error (msg : string).

Inductive req : Type :=
| ReqCollection (path : string)
    (* firebase.firestore().collection(path) *)
| ReqAdd (c : CollectionRef) (d : NewDoc)
    (* c.add({name, score, createdAt: serverTimestamp()}) *)
| ReqGet (c : CollectionRef) (orderBy : string) (limit : nat).
    (* c.orderBy(field).limit(n).get() *)

Definition resp (r : req) : Type :=
  match r with
  | ReqCollection _ => CollectionRef
  | ReqAdd _ _ => DocumentReference
  | ReqGet _ _ _ => list QueryDocumentSnapshot
  end.

Inductive outcome (X : Type) : Type :=
| Resolved (x : X)
| Rejected (e : exn).
Arguments Resolved {X} _.
Arguments Rejected {X} _.

Definition is_resolved {X} (o : outcome X) : bool :=
  match o with Resolved _ => true | Rejected _ => false end.

(** The module-level variable [_col]. *)
Definition ModState := option CollectionRef.

Inductive comp (A : Type) : Type :=
| Ret (a : A) (s : ModState)
| Throw (e : exn) (s : ModState)
| Call (r : req) (k : outcome (resp r) -> comp A).
Arguments Ret {A} _ _.
Arguments Throw {A} _ _.
Arguments Call {A} _ _.

Definition M (A : Type) : Type := ModState -> comp A.

Definition ret {A} (a : A) : M A := fun s => Ret a s.

Fixpoint bindc {A B} (c : comp A) (f : A -> M B) : comp B :=
  match c with
  | Ret a s => f a s
  | Throw e s => Throw e s
  | Call r k => Call r (fun o => bindc (k o) f)
  end.

Definition bind {A B} (m : M A) (f : A -> M B) : M B :=
  fun s => bindc (m s) f.

Fixpoint catchc {A} (c : comp A) (h : exn -> M A) : comp A :=
  match c with
  | Ret a s => Ret a s
  | Throw e s => h e s
  | Call r k => Call r (fun o => catchc (k o) h)
  end.

(** [try { m } catch { h }] *)
Definition try_catch {A} (m : M A) (h : exn -> M A) : M A :=
  fun s => catchc (m s) h.

(** A call into the SDK: its value when it resolves (or returns),
    a thrown exception when it rejects (or throws). *)
Definition await (r : req) : M (resp r) :=
  fun s => Call r (fun o =>
    match o with
    | Resolved x => Ret x s
    | Rejected e => Throw e s
    end).

Definition throw {A} (e : exn) : M A := fun s => Throw e s.

Definition get_col : M ModState := fun s => Ret s s.
Definition set_col (c : CollectionRef) : M unit := fun _ => Ret tt (Some c).

Notation "x <- m ;; k" := (bind m (fun x => k))
  (at level 100, m at next level, right associativity).
Notation "m ;;; k" := (bind m (fun _ => k))
  (at level 100, right associativity).

(** *** The module's functions *)

(** Lazy-init the collection reference. *)
Definition col : M CollectionRef :=
  c0 <- get_col ;;
  match c0 with
  | Some c => ret c
  | None =>
      c <- await (ReqCollection "scores") ;;
      set_col c ;;;
      ret c
  end.

(** [docs.map((e, i, a) => ...)] with the closure variable [rank]
    threaded through the calls of the callback: [go] visits [rest],
    whose first element has index [i] in the whole array [a]. *)
Section WithRanks.
Context {A : Type} (score_of : A -> Z).

Definition differs_from_previous (a : list A) (e : A) (i : nat) : bool :=
  match a !! (i - 1)%nat with
  | Some p => negb (score_of e =? score_of p)
  | None => false (* not reached: the callback asks only for 0 < i < a.length *)
  end.

Fixpoint withRanks_go (a : list A) (rank0 : nat) (i : nat) (rest : list A)
  : list (Ranked A) :=
  match rest with
  | [] => []
  | e :: rest' =>
      let rank1 :=
        if (0 <? i)%nat && differs_from_previous a e i then (i + 1)%nat else rank0 in
      {| entry := e; rank := rank1 |} :: withRanks_go a rank1 (S i) rest'
  end.

(** Standard (1-2-2-4) ranking *)
Definition withRanks (docs : list A) : list (Ranked A) :=
  withRanks_go docs 1%nat 0%nat docs.
End WithRanks.

(** [docs[docs.length - 1].score]; reading [.score] of [undefined]
    throws. *)
Definition last_score (docs : list DocData) : M Z :=
  match docs !! (length docs - 1)%nat with
  | Some w => ret (score w)
  | None => throw (Error "TypeError")
  end.

(** Preview rank without submitting. *)
Definition peek (sc : Z) : M (option RankResult) :=
  try_catch
    (c <- col ;;
     snap <- await (ReqGet c "score" SIZE) ;;
     let docs := map data snap in
     outside <-
       (if (SIZE <=? length docs)%nat
        then worst <- last_score docs ;; ret (sc >? worst)
        else ret false) ;;
     if (outside : bool) then ret None
     else
       let better := length (List.filter (fun d => score d <? sc) docs) in
       let tied := existsb (fun d => score d =? sc) docs in
       ret (Some {| r_rank := (better + 1)%nat; isTied := tied; r_ts := None |}))
    (fun _ => ret None).

(** Submit a score. *)
Definition submit (nm : string) (sc : Z) : M (option RankResult) :=
  try_catch
    (c <- col ;;
     ref <- await (ReqAdd c {| new_name := nm; new_score := sc |}) ;;
     (* Re-fetch top 100 to confirm entry made the cut and calculate rank *)
     c' <- col ;;
     snap <- await (ReqGet c' "score" SIZE) ;;
     let docs := map with_ts snap in
     if negb (existsb (fun d => String.eqb (ts d) (ref_id ref)) docs)
     then ret None
     else
       let better := length (List.filter (fun d => e_score d <? sc) docs) in
       let tied :=
         Nat.ltb 1 (length (List.filter (fun d => e_score d =? sc) docs)) in
       ret (Some {| r_rank := (better + 1)%nat; isTied := tied;
                    r_ts := Some (ref_id ref) |}))
    (fun _ => ret None).

(** Top N entries with standard ranks applied. *)
Definition getTop (n : nat) : M (list (Ranked Entry)) :=
  try_catch
    (c <- col ;;
     snap <- await (ReqGet c "score" SIZE) ;;
     let docs := map with_ts snap in
     ret (take n (withRanks e_score docs)))
    (fun _ => ret []).

(** *** Running a computation against a backend *)

(** A backend answers every request and moves to a new state of its own;
    anything other clients do between two requests is part of that move. *)
Record backend := {
  World : Type;
  respond : forall r : req, World -> outcome (resp r) * World
}.

Inductive result (A : Type) : Type :=
| Returned (a : A)
| Thrown (e : exn).
Arguments Returned {A} _.
Arguments Thrown {A} _.

(** What the caller observes, the module and backend states left behind,
    and the requests issued, in order, each with whether it succeeded. *)
Record final (B : backend) (A : Type) := {
  res : result A;
  col_after : ModState;
  world_after : World B;
  trace : list (req * bool)
}.
Arguments res {B A} _.
Arguments col_after {B A} _.
Arguments world_after {B A} _.
Arguments trace {B A} _.

Fixpoint run {A} (B : backend) (c : comp A) (w : World B) : final B A :=
  match c with
  | Ret a s => {| res := Returned a; col_after := s; world_after := w; trace := [] |}
  | Throw e s => {| res := Thrown e; col_after := s; world_after := w; trace := [] |}
  | Call r k =>
      let '(o, w') := respond B r w in
      let f := run B (k o) w' in
      {| res := res f; col_after := col_after f; world_after := world_after f;
         trace := (r, is_resolved o) :: trace f |}
  end.

End Leaderboard.

(** ** Test doubles for the backend *)
Module Backends.
Import Leaderboard.

(** An in-memory store that keeps its documents in ascending score
    order (equal scores in arrival order) and never fails. *)
Record Mem := { stored : list QueryDocumentSnapshot; clock : nat }.

Fixpoint insert_by_score (d : QueryDocumentSnapshot)
    (l : list QueryDocumentSnapshot) : list QueryDocumentSnapshot :=
  match l with
  | [] => [d]
  | x :: l' =>
      if score (data d) <? score (data x) then d :: l
      else x :: insert_by_score d l'
  end.

Definition mem_respond (r : req) : Mem -> outcome (resp r) * Mem :=
  match r with
  | ReqCollection path => fun m => (Resolved path, m)
  | ReqAdd _ d => fun m =>
      let i := "doc" +:+ pretty (clock m) in
      let doc :=
        {| id := i;
           data := {| name := new_name d; score := new_score d;
                      createdAt := Z.of_nat (clock m) |} |} in
      (Resolved {| ref_id := i |},
       {| stored := insert_by_score doc (stored m); clock := S (clock m) |})
  | ReqGet _ _ n => fun m => (Resolved (take n (stored m)), m)
  end.

Definition MemStore : backend := {| World := Mem; respond := mem_respond |}.

Definition mem_empty : Mem := {| stored := []; clock := 0 |}.

(** The store after the given scores were added, one after the other. *)
Definition mem_of_scores (l : list Z) : Mem :=
  fold_left
    (fun m s => snd (mem_respond (ReqAdd "scores" {| new_name := "p"; new_score := s |}) m))
    l mem_empty.

(** A backend that is out of reach: every request fails. *)
Definition Offline : backend :=
  {| World := unit;
     respond := fun r w => (Rejected (Error "unavailable"), w) |}.

(** [MemStore] behind a connection that is lost after [n] requests. *)
Definition drop_respond (r : req) (w : nat * Mem) : outcome (resp r) * (nat * Mem) :=
  match fst w with
  | O => (Rejected (Error "unavailable"), w)
  | S n => let '(o, m) := mem_respond r (snd w) in (o, (n, m))
  end.

Definition DropsAfter : backend :=
  {| World := nat * Mem; respond := drop_respond |}.

End Backends.

(** ** game.js *)
Module Game.
Import JS.

(** *** Config *)
Module CFG.
Definition ROUNDS : nat := 5.
Definition MIN_DELAY : Q := 2000 # 1.        (* ms before real color change *)
Definition MAX_DELAY : Q := 6000 # 1.
Definition FAKE_CHANCE : Q :=                (* 0.38: probability of a trick round *)
  Eval vm_compute in fl64 (38 # 100).
Definition FAKE_MIN_DELAY : Q := 1200 # 1.   (* earliest a fake can happen *)
Definition FAKE_MAX_DELAY : Q := 3500 # 1.   (* latest a fake can start *)
Definition FAKE_DURATION : Q := 130 # 1.     (* how long the fake flash lasts (ms) *)
Definition REAL_AFTER_FAKE : Q := 900 # 1.   (* min gap between fake-end and real change *)
Definition RESULT_PAUSE : Q := 1100 # 1.     (* ms to show score before next round *)
Definition TOO_EARLY_PAUSE : Q := 1400 # 1.  (* ms to show the rejection before retry *)
End CFG.

(** A colour [#rrggbb] is held as the number its six hex digits spell,
    which is what [parseInt(hex.replace('#', ''), 16)] reads. *)
Definition Color := Z.

Definition COLORS : list Color :=
  [ 0x1a1a2e;  (* midnight navy *)
    0xc1121f;  (* deep red *)
    0x1b4332;  (* forest *)
    0x5a189a;  (* violet *)
    0x006466;  (* dark teal *)
    0x9b2226;  (* crimson *)
    0x023e8a;  (* royal blue *)
    0x74290f;  (* burnt umber *)
    0x3d405b;  (* slate *)
    0x184e77   (* ocean *) ].

(** *** Utility *)

(** [rand(min, max)], given what [Math.random()] returned:
    [Math.random() * (max - min) + min]. *)
Definition rand (u min max : Q) : Q :=
  num_add (num_mul u (num_sub max min)) min.

Definition lightenHex (hex : Color) (amt : Z) : Color :=
  let n := hex in
  let r := Z.min 255 (Z.shiftr n 16 + amt) in
  let g := Z.min 255 (Z.land (Z.shiftr n 8) 0xff + amt) in
  let b := Z.min 255 (Z.land n 0xff + amt) in
  Z.lor (Z.lor (Z.shiftl r 16) (Z.shiftl g 8)) b.

(** [pickColorPair()], given the array the randomly compared [sort]
    left: its first two elements ([undefined] is [None]). *)
Definition pickColorPair (shuffled : list Color) : option Color * option Color :=
  (shuffled !! 0%nat, shuffled !! 1%nat).

(** *** White space

    The code points [String.prototype.trim] and [parseInt] skip (the
    WhiteSpace and LineTerminator of ECMAScript), each as the bytes
    that spell it in UTF-8. *)
Definition utf8 (bytes : list nat) : list Ascii.ascii :=
  map Ascii.ascii_of_nat bytes.

Definition WHITE_SPACE : list (list Ascii.ascii) :=
  [ utf8 [9%nat];                           (* U+0009 tab *)
    utf8 [10%nat];                          (* U+000A line feed *)
    utf8 [11%nat];                          (* U+000B vertical tab *)
    utf8 [12%nat];                          (* U+000C form feed *)
    utf8 [13%nat];                          (* U+000D carriage return *)
    utf8 [32%nat];                          (* U+0020 space *)
    utf8 [194%nat; 160%nat];                (* U+00A0 no-break space *)
    utf8 [225%nat; 154%nat; 128%nat];       (* U+1680 *)
    utf8 [226%nat; 128%nat; 128%nat];       (* U+2000 *)
    utf8 [226%nat; 128%nat; 129%nat];       (* U+2001 *)
    utf8 [226%nat; 128%nat; 130%nat];       (* U+2002 *)
    utf8 [226%nat; 128%nat; 131%nat];       (* U+2003 *)
    utf8 [226%nat; 128%nat; 132%nat];       (* U+2004 *)
    utf8 [226%nat; 128%nat; 133%nat];       (* U+2005 *)
    utf8 [226%nat; 128%nat; 134%nat];       (* U+2006 *)
    utf8 [226%nat; 128%nat; 135%nat];       (* U+2007 *)
    utf8 [226%nat; 128%nat; 136%nat];       (* U+2008 *)
    utf8 [226%nat; 128%nat; 137%nat];       (* U+2009 *)
    utf8 [226%nat; 128%nat; 138%nat];       (* U+200A *)
    utf8 [226%nat; 128%nat; 168%nat];       (* U+2028 line separator *)
    utf8 [226%nat; 128%nat; 169%nat];       (* U+2029 paragraph separator *)
    utf8 [226%nat; 128%nat; 175%nat];       (* U+202F *)
    utf8 [226%nat; 129%nat; 159%nat];       (* U+205F *)
    utf8 [227%nat; 128%nat; 128%nat];       (* U+3000 *)
    utf8 [239%nat; 187%nat; 191%nat] ].     (* U+FEFF *)

(** What follows [p] in [l], when [l] begins with [p]. *)
Fixpoint strip_prefix (p l : list Ascii.ascii) : option (list Ascii.ascii) :=
  match p, l with
  | [], _ => Some l
  | a :: p', b :: l' => if Ascii.eqb a b then strip_prefix p' l' else None
  | _ :: _, [] => None
  end.

(** What follows the first of [pats] that [l] begins with. *)
Fixpoint strip_one (pats : list (list Ascii.ascii)) (l : list Ascii.ascii)
  : option (list Ascii.ascii) :=
  match pats with
  | [] => None
  | p :: ps =>
      match strip_prefix p l with
      | Some r => Some r
      | None => strip_one ps l
      end
  end.

(** [l] without the run of [pats] it begins with; [fuel] bounds the
    number of them, and the length of [l] is enough. *)
Fixpoint strip_all (fuel : nat) (pats : list (list Ascii.ascii))
    (l : list Ascii.ascii) : list Ascii.ascii :=
  match fuel with
  | O => l
  | S fuel' =>
      match strip_one pats l with
      | Some r => strip_all fuel' pats r
      | None => l
      end
  end.

Definition strip_leading (pats : list (list Ascii.ascii)) (l : list Ascii.ascii)
  : list Ascii.ascii :=
  strip_all (length l) pats l.

(** [s.trimStart()], [s.trimEnd()] and [s.trim()]. *)
Definition trim_start (s : string) : string :=
  String.string_of_list_ascii
    (strip_leading WHITE_SPACE (String.list_ascii_of_string s)).

Definition trim_end (s : string) : string :=
  String.string_of_list_ascii
    (rev (strip_leading (map (@rev Ascii.ascii) WHITE_SPACE)
            (rev (String.list_ascii_of_string s)))).

Definition trim (s : string) : string := trim_end (trim_start s).

(** [Math.random() < p] *)
Definition Qltb (x y : Q) : bool := negb (Qle_bool y x).

(** *** The world of one page: the [DontBlink] object, the browser's
    timer table, and the few page elements kept. *)

Inductive State := idle | waiting | ready | paused.

Inductive Screen := intro | game | results.

(** The closures handed to [setTimeout]. *)
Inductive Callback :=
| FakeTimerCb     (* _beginRound, trick round: the flash *)
| WaitAfterFakeCb (* _beginRound, trick round: the real change after the flash *)
| WaitTimerCb     (* _beginRound, plain round: the real change *)
| FakeRevertCb    (* _triggerFake: end of the flash *)
| RetryCb         (* _tooEarly: replay the round *)
| NextCb.         (* _recordScore: next round or results *)

(** What the environment supplies while one event is handled. *)
Record Oracle := {
  now : Q;            (* performance.now() *)
  random : nat -> Q;  (* the successive Math.random() values *)
  shuffled : list Color  (* [...COLORS].sort(() => Math.random() - 0.5) *)
}.

Record World := {
  state : State;  (* this.state *)
  roundNum : Z;  (* this.roundNum *)
  scores : list Z;  (* this.scores *)
  fromColor : option Color;  (* this.fromColor *)
  toColor : option Color;  (* this.toColor *)
  changeAt : option Q;  (* this.changeAt *)
  _avg : option Z;  (* this._avg; None is NaN *)
  _submitted : bool;  (* this._submitted *)
  _myTs : option Leaderboard.DocId;  (* this._myTs *)
  _myRankResult : option Leaderboard.RankResult;  (* this._myRankResult *)
  _waitTimer : option nat;  (* this._waitTimer *)
  _fakeTimer : option nat;  (* this._fakeTimer *)
  _fakeRevert : option nat;  (* this._fakeRevert *)
  _pauseTimer : option nat;  (* this._pauseTimer *)
  timers : gmap nat (Callback * Q);  (* pending setTimeout entries: handle, callback, delay *)
  nextTimer : nat;  (* the handle the next setTimeout returns *)
  bg : option Color;  (* $game.style.backgroundColor *)
  screen : Screen;  (* the overlay _showScreen left active *)
  playerName : string;  (* $playerName.value *)
  saveBtnDisabled : bool;  (* $saveNameBtn.disabled *)
  db_name : option string;  (* localStorage item db_name *)
  inflight : list (string * option Z)  (* Leaderboard.submit calls not yet settled *)
}.

(** Field updates ([this.f = v]). *)
Definition set_state (v : State) (w : World) : World :=
  {| state := v; roundNum := roundNum w; scores := scores w;
     fromColor := fromColor w; toColor := toColor w;
     changeAt := changeAt w; _avg := _avg w; _submitted := _submitted w;
     _myTs := _myTs w; _myRankResult := _myRankResult w;
     _waitTimer := _waitTimer w; _fakeTimer := _fakeTimer w;
     _fakeRevert := _fakeRevert w; _pauseTimer := _pauseTimer w;
     timers := timers w; nextTimer := nextTimer w; bg := bg w;
     screen := screen w; playerName := playerName w;
     saveBtnDisabled := saveBtnDisabled w; db_name := db_name w;
     inflight := inflight w |}.
Definition set_roundNum (v : Z) (w : World) : World :=
  {| state := state w; roundNum := v; scores := scores w;
     fromColor := fromColor w; toColor := toColor w;
     changeAt := changeAt w; _avg := _avg w; _submitted := _submitted w;
     _myTs := _myTs w; _myRankResult := _myRankResult w;
     _waitTimer := _waitTimer w; _fakeTimer := _fakeTimer w;
     _fakeRevert := _fakeRevert w; _pauseTimer := _pauseTimer w;
     timers := timers w; nextTimer := nextTimer w; bg := bg w;
     screen := screen w; playerName := playerName w;
     saveBtnDisabled := saveBtnDisabled w; db_name := db_name w;
     inflight := inflight w |}.
Definition set_scores (v : list Z) (w : World) : World :=
  {| state := state w; roundNum := roundNum w; scores := v;
     fromColor := fromColor w; toColor := toColor w;
     changeAt := changeAt w; _avg := _avg w; _submitted := _submitted w;
     _myTs := _myTs w; _myRankResult := _myRankResult w;
     _waitTimer := _waitTimer w; _fakeTimer := _fakeTimer w;
     _fakeRevert := _fakeRevert w; _pauseTimer := _pauseTimer w;
     timers := timers w; nextTimer := nextTimer w; bg := bg w;
     screen := screen w; playerName := playerName w;
     saveBtnDisabled := saveBtnDisabled w; db_name := db_name w;
     inflight := inflight w |}.
Definition set_fromColor (v : option Color) (w : World) : World :=
  {| state := state w; roundNum := roundNum w; scores := scores w;
     fromColor := v; toColor := toColor w; changeAt := changeAt w;
     _avg := _avg w; _submitted := _submitted w; _myTs := _myTs w;
     _myRankResult := _myRankResult w; _waitTimer := _waitTimer w;
     _fakeTimer := _fakeTimer w; _fakeRevert := _fakeRevert w;
     _pauseTimer := _pauseTimer w; timers := timers w;
     nextTimer := nextTimer w; bg := bg w; screen := screen w;
     playerName := playerName w; saveBtnDisabled := saveBtnDisabled w;
     db_name := db_name w; inflight := inflight w |}.
Definition set_toColor (v : option Color) (w : World) : World :=
  {| state := state w; roundNum := roundNum w; scores := scores w;
     fromColor := fromColor w; toColor := v; changeAt := changeAt w;
     _avg := _avg w; _submitted := _submitted w; _myTs := _myTs w;
     _myRankResult := _myRankResult w; _waitTimer := _waitTimer w;
     _fakeTimer := _fakeTimer w; _fakeRevert := _fakeRevert w;
     _pauseTimer := _pauseTimer w; timers := timers w;
     nextTimer := nextTimer w; bg := bg w; screen := screen w;
     playerName := playerName w; saveBtnDisabled := saveBtnDisabled w;
     db_name := db_name w; inflight := inflight w |}.
Definition set_changeAt (v : option Q) (w : World) : World :=
  {| state := state w; roundNum := roundNum w; scores := scores w;
     fromColor := fromColor w; toColor := toColor w; changeAt := v;
     _avg := _avg w; _submitted := _submitted w; _myTs := _myTs w;
     _myRankResult := _myRankResult w; _waitTimer := _waitTimer w;
     _fakeTimer := _fakeTimer w; _fakeRevert := _fakeRevert w;
     _pauseTimer := _pauseTimer w; timers := timers w;
     nextTimer := nextTimer w; bg := bg w; screen := screen w;
     playerName := playerName w; saveBtnDisabled := saveBtnDisabled w;
     db_name := db_name w; inflight := inflight w |}.
Definition set_avg (v : option Z) (w : World) : World :=
  {| state := state w; roundNum := roundNum w; scores := scores w;
     fromColor := fromColor w; toColor := toColor w;
     changeAt := changeAt w; _avg := v; _submitted := _submitted w;
     _myTs := _myTs w; _myRankResult := _myRankResult w;
     _waitTimer := _waitTimer w; _fakeTimer := _fakeTimer w;
     _fakeRevert := _fakeRevert w; _pauseTimer := _pauseTimer w;
     timers := timers w; nextTimer := nextTimer w; bg := bg w;
     screen := screen w; playerName := playerName w;
     saveBtnDisabled := saveBtnDisabled w; db_name := db_name w;
     inflight := inflight w |}.
Definition set_submitted (v : bool) (w : World) : World :=
  {| state := state w; roundNum := roundNum w; scores := scores w;
     fromColor := fromColor w; toColor := toColor w;
     changeAt := changeAt w; _avg := _avg w; _submitted := v;
     _myTs := _myTs w; _myRankResult := _myRankResult w;
     _waitTimer := _waitTimer w; _fakeTimer := _fakeTimer w;
     _fakeRevert := _fakeRevert w; _pauseTimer := _pauseTimer w;
     timers := timers w; nextTimer := nextTimer w; bg := bg w;
     screen := screen w; playerName := playerName w;
     saveBtnDisabled := saveBtnDisabled w; db_name := db_name w;
     inflight := inflight w |}.
Definition set_myTs (v : option Leaderboard.DocId) (w : World) : World :=
  {| state := state w; roundNum := roundNum w; scores := scores w;
     fromColor := fromColor w; toColor := toColor w;
     changeAt := changeAt w; _avg := _avg w; _submitted := _submitted w;
     _myTs := v; _myRankResult := _myRankResult w;
     _waitTimer := _waitTimer w; _fakeTimer := _fakeTimer w;
     _fakeRevert := _fakeRevert w; _pauseTimer := _pauseTimer w;
     timers := timers w; nextTimer := nextTimer w; bg := bg w;
     screen := screen w; playerName := playerName w;
     saveBtnDisabled := saveBtnDisabled w; db_name := db_name w;
     inflight := inflight w |}.
Definition set_myRankResult (v : option Leaderboard.RankResult) (w : World) : World :=
  {| state := state w; roundNum := roundNum w; scores := scores w;
     fromColor := fromColor w; toColor := toColor w;
     changeAt := changeAt w; _avg := _avg w; _submitted := _submitted w;
     _myTs := _myTs w; _myRankResult := v; _waitTimer := _waitTimer w;
     _fakeTimer := _fakeTimer w; _fakeRevert := _fakeRevert w;
     _pauseTimer := _pauseTimer w; timers := timers w;
     nextTimer := nextTimer w; bg := bg w; screen := screen w;
     playerName := playerName w; saveBtnDisabled := saveBtnDisabled w;
     db_name := db_name w; inflight := inflight w |}.
Definition set_waitTimer (v : option nat) (w : World) : World :=
  {| state := state w; roundNum := roundNum w; scores := scores w;
     fromColor := fromColor w; toColor := toColor w;
     changeAt := changeAt w; _avg := _avg w; _submitted := _submitted w;
     _myTs := _myTs w; _myRankResult := _myRankResult w; _waitTimer := v;
     _fakeTimer := _fakeTimer w; _fakeRevert := _fakeRevert w;
     _pauseTimer := _pauseTimer w; timers := timers w;
     nextTimer := nextTimer w; bg := bg w; screen := screen w;
     playerName := playerName w; saveBtnDisabled := saveBtnDisabled w;
     db_name := db_name w; inflight := inflight w |}.
Definition set_fakeTimer (v : option nat) (w : World) : World :=
  {| state := state w; roundNum := roundNum w; scores := scores w;
     fromColor := fromColor w; toColor := toColor w;
     changeAt := changeAt w; _avg := _avg w; _submitted := _submitted w;
     _myTs := _myTs w; _myRankResult := _myRankResult w;
     _waitTimer := _waitTimer w; _fakeTimer := v;
     _fakeRevert := _fakeRevert w; _pauseTimer := _pauseTimer w;
     timers := timers w; nextTimer := nextTimer w; bg := bg w;
     screen := screen w; playerName := playerName w;
     saveBtnDisabled := saveBtnDisabled w; db_name := db_name w;
     inflight := inflight w |}.
Definition set_fakeRevert (v : option nat) (w : World) : World :=
  {| state := state w; roundNum := roundNum w; scores := scores w;
     fromColor := fromColor w; toColor := toColor w;
     changeAt := changeAt w; _avg := _avg w; _submitted := _submitted w;
     _myTs := _myTs w; _myRankResult := _myRankResult w;
     _waitTimer := _waitTimer w; _fakeTimer := _fakeTimer w;
     _fakeRevert := v; _pauseTimer := _pauseTimer w; timers := timers w;
     nextTimer := nextTimer w; bg := bg w; screen := screen w;
     playerName := playerName w; saveBtnDisabled := saveBtnDisabled w;
     db_name := db_name w; inflight := inflight w |}.
Definition set_pauseTimer (v : option nat) (w : World) : World :=
  {| state := state w; roundNum := roundNum w; scores := scores w;
     fromColor := fromColor w; toColor := toColor w;
     changeAt := changeAt w; _avg := _avg w; _submitted := _submitted w;
     _myTs := _myTs w; _myRankResult := _myRankResult w;
     _waitTimer := _waitTimer w; _fakeTimer := _fakeTimer w;
     _fakeRevert := _fakeRevert w; _pauseTimer := v; timers := timers w;
     nextTimer := nextTimer w; bg := bg w; screen := screen w;
     playerName := playerName w; saveBtnDisabled := saveBtnDisabled w;
     db_name := db_name w; inflight := inflight w |}.
Definition set_timers (v : gmap nat (Callback * Q)) (w : World) : World :=
  {| state := state w; roundNum := roundNum w; scores := scores w;
     fromColor := fromColor w; toColor := toColor w;
     changeAt := changeAt w; _avg := _avg w; _submitted := _submitted w;
     _myTs := _myTs w; _myRankResult := _myRankResult w;
     _waitTimer := _waitTimer w; _fakeTimer := _fakeTimer w;
     _fakeRevert := _fakeRevert w; _pauseTimer := _pauseTimer w;
     timers := v; nextTimer := nextTimer w; bg := bg w; screen := screen w;
     playerName := playerName w; saveBtnDisabled := saveBtnDisabled w;
     db_name := db_name w; inflight := inflight w |}.
Definition set_nextTimer (v : nat) (w : World) : World :=
  {| state := state w; roundNum := roundNum w; scores := scores w;
     fromColor := fromColor w; toColor := toColor w;
     changeAt := changeAt w; _avg := _avg w; _submitted := _submitted w;
     _myTs := _myTs w; _myRankResult := _myRankResult w;
     _waitTimer := _waitTimer w; _fakeTimer := _fakeTimer w;
     _fakeRevert := _fakeRevert w; _pauseTimer := _pauseTimer w;
     timers := timers w; nextTimer := v; bg := bg w; screen := screen w;
     playerName := playerName w; saveBtnDisabled := saveBtnDisabled w;
     db_name := db_name w; inflight := inflight w |}.
Definition set_bg (v : option Color) (w : World) : World :=
  {| state := state w; roundNum := roundNum w; scores := scores w;
     fromColor := fromColor w; toColor := toColor w;
     changeAt := changeAt w; _avg := _avg w; _submitted := _submitted w;
     _myTs := _myTs w; _myRankResult := _myRankResult w;
     _waitTimer := _waitTimer w; _fakeTimer := _fakeTimer w;
     _fakeRevert := _fakeRevert w; _pauseTimer := _pauseTimer w;
     timers := timers w; nextTimer := nextTimer w; bg := v;
     screen := screen w; playerName := playerName w;
     saveBtnDisabled := saveBtnDisabled w; db_name := db_name w;
     inflight := inflight w |}.
Definition set_screen (v : Screen) (w : World) : World :=
  {| state := state w; roundNum := roundNum w; scores := scores w;
     fromColor := fromColor w; toColor := toColor w;
     changeAt := changeAt w; _avg := _avg w; _submitted := _submitted w;
     _myTs := _myTs w; _myRankResult := _myRankResult w;
     _waitTimer := _waitTimer w; _fakeTimer := _fakeTimer w;
     _fakeRevert := _fakeRevert w; _pauseTimer := _pauseTimer w;
     timers := timers w; nextTimer := nextTimer w; bg := bg w; screen := v;
     playerName := playerName w; saveBtnDisabled := saveBtnDisabled w;
     db_name := db_name w; inflight := inflight w |}.
Definition set_playerName (v : string) (w : World) : World :=
  {| state := state w; roundNum := roundNum w; scores := scores w;
     fromColor := fromColor w; toColor := toColor w;
     changeAt := changeAt w; _avg := _avg w; _submitted := _submitted w;
     _myTs := _myTs w; _myRankResult := _myRankResult w;
     _waitTimer := _waitTimer w; _fakeTimer := _fakeTimer w;
     _fakeRevert := _fakeRevert w; _pauseTimer := _pauseTimer w;
     timers := timers w; nextTimer := nextTimer w; bg := bg w;
     screen := screen w; playerName := v;
     saveBtnDisabled := saveBtnDisabled w; db_name := db_name w;
     inflight := inflight w |}.
Definition set_saveBtnDisabled (v : bool) (w : World) : World :=
  {| state := state w; roundNum := roundNum w; scores := scores w;
     fromColor := fromColor w; toColor := toColor w;
     changeAt := changeAt w; _avg := _avg w; _submitted := _submitted w;
     _myTs := _myTs w; _myRankResult := _myRankResult w;
     _waitTimer := _waitTimer w; _fakeTimer := _fakeTimer w;
     _fakeRevert := _fakeRevert w; _pauseTimer := _pauseTimer w;
     timers := timers w; nextTimer := nextTimer w; bg := bg w;
     screen := screen w; playerName := playerName w; saveBtnDisabled := v;
     db_name := db_name w; inflight := inflight w |}.
Definition set_db_name (v : option string) (w : World) : World :=
  {| state := state w; roundNum := roundNum w; scores := scores w;
     fromColor := fromColor w; toColor := toColor w;
     changeAt := changeAt w; _avg := _avg w; _submitted := _submitted w;
     _myTs := _myTs w; _myRankResult := _myRankResult w;
     _waitTimer := _waitTimer w; _fakeTimer := _fakeTimer w;
     _fakeRevert := _fakeRevert w; _pauseTimer := _pauseTimer w;
     timers := timers w; nextTimer := nextTimer w; bg := bg w;
     screen := screen w; playerName := playerName w;
     saveBtnDisabled := saveBtnDisabled w; db_name := v;
     inflight := inflight w |}.
Definition set_inflight (v : list (string * option Z)) (w : World) : World :=
  {| state := state w; roundNum := roundNum w; scores := scores w;
     fromColor := fromColor w; toColor := toColor w;
     changeAt := changeAt w; _avg := _avg w; _submitted := _submitted w;
     _myTs := _myTs w; _myRankResult := _myRankResult w;
     _waitTimer := _waitTimer w; _fakeTimer := _fakeTimer w;
     _fakeRevert := _fakeRevert w; _pauseTimer := _pauseTimer w;
     timers := timers w; nextTimer := nextTimer w; bg := bg w;
     screen := screen w; playerName := playerName w;
     saveBtnDisabled := saveBtnDisabled w; db_name := db_name w;
     inflight := v |}.

(** *** Browser primitives *)

Definition setTimeout (cb : Callback) (delay : Q) (w : World) : nat * World :=
  let h := nextTimer w in
  (h, set_nextTimer (S h) (set_timers (<[h := (cb, delay)]> (timers w)) w)).

(** [clearTimeout(h)] on the timer table; [null] cancels nothing. *)
Definition cancel (h : option nat) (tm : gmap nat (Callback * Q))
  : gmap nat (Callback * Q) :=
  match h with
  | Some i => delete i tm
  | None => tm
  end.

Definition clearTimeout (h : option nat) (w : World) : World :=
  set_timers (cancel h (timers w)) w.

(** *** UI helpers *)

Definition _setState (s : State) (w : World) : World := set_state s w.

Definition _setBg (c : option Color) (w : World) : World := set_bg c w.

Definition _showScreen (s : Screen) (w : World) : World := set_screen s w.

(** *** Timers *)

Definition _clearAllTimers (w : World) : World :=
  let w := clearTimeout (_waitTimer w) w in
  let w := clearTimeout (_fakeTimer w) w in
  let w := clearTimeout (_fakeRevert w) w in
  let w := clearTimeout (_pauseTimer w) w in
  let w := set_waitTimer None w in
  let w := set_fakeTimer None w in
  let w := set_fakeRevert None w in
  set_pauseTimer None w.

(** *** Game flow *)

Definition _beginRound (o : Oracle) (w : World) : World :=
  let w := _clearAllTimers w in
  let w := set_roundNum (roundNum w + 1) w in
  let w := _setState waiting w in
  let '(c1, c2) := pickColorPair (shuffled o) in
  let w := set_toColor c2 (set_fromColor c1 w) in
  let w := _setBg (fromColor w) w in
  let hasFake := Qltb (random o 0%nat) CFG.FAKE_CHANCE in
  if hasFake then
    let fakeDelay := rand (random o 1%nat) CFG.FAKE_MIN_DELAY CFG.FAKE_MAX_DELAY in
    let '(h, w) := setTimeout FakeTimerCb fakeDelay w in
    set_fakeTimer (Some h) w
  else
    let delay := rand (random o 1%nat) CFG.MIN_DELAY CFG.MAX_DELAY in
    let '(h, w) := setTimeout WaitTimerCb delay w in
    set_waitTimer (Some h) w.

Definition _startGame (o : Oracle) (w : World) : World :=
  let w := set_roundNum 0 w in
  let w := set_scores [] w in
  let w := _showScreen game w in
  _beginRound o w.

(** [lightenHex(this.fromColor, 65)] throws on [null]: nothing of
    [_triggerFake] has happened by then, and [None] is returned. *)
Definition _triggerFake (w : World) : option World :=
  match fromColor w with
  | None => None
  | Some c =>
      let fakeColor := lightenHex c 65 in
      let w := _setBg (Some fakeColor) w in
      let '(h, w) := setTimeout FakeRevertCb CFG.FAKE_DURATION w in
      Some (set_fakeRevert (Some h) w)
  end.

Definition _triggerChange (o : Oracle) (w : World) : World :=
  let w := _setState ready w in
  let w := set_changeAt (Some (now o)) w in
  _setBg (toColor w) w.

Definition _tooEarly (w : World) : World :=
  let w := _clearAllTimers w in
  let w := _setState paused w in
  let w := _setBg (Some 0x3d0000) w in
  let '(h, w) := setTimeout RetryCb CFG.TOO_EARLY_PAUSE w in
  set_pauseTimer (Some h) w.

Definition _recordScore (ms : Z) (w : World) : World :=
  let w := _clearAllTimers w in
  let w := _setState paused w in
  let w := set_scores (scores w ++ [ms]) w in
  let '(h, w) := setTimeout NextCb CFG.RESULT_PAUSE w in
  set_pauseTimer (Some h) w.

(** [performance.now() - this.changeAt]: [null] counts as 0. *)
Definition elapsed (o : Oracle) (w : World) : Q :=
  num_sub (now o) (match changeAt w with Some t => t | None => 0%Q end).

(** Click handler *)
Definition _onGameClick (o : Oracle) (w : World) : World :=
  match state w with
  | waiting => _tooEarly w
  | ready =>
      let ms := Math_round (elapsed o w) in
      _recordScore ms w
  | _ => w
  end.

(** *** Results *)

(** [Math.round(scores.reduce((a, b) => a + b, 0) / scores.length)];
    for no scores the quotient 0/0 is NaN. The quotient is taken exactly:
    between integers of this size the double nearest to it lies on the
    same side of every half-integer. *)
Definition average (scores : list Z) : option Z :=
  match scores with
  | [] => None
  | _ => Some (Math_round (inject_Z (sum scores) / inject_Z (Z.of_nat (length scores))))
  end.

(** The synchronous part of [_showResults]; the awaited preview rank
    and leaderboard rows only reach the page. *)
Definition _showResults (w : World) : World :=
  let w := set_avg (average (scores w)) w in
  let w := set_submitted false w in
  let w := set_myTs None w in
  let w := set_myRankResult None w in
  let w := set_saveBtnDisabled false w in
  let w :=
    match db_name w with
    | Some savedName =>
        if String.eqb savedName "" then w else set_playerName savedName w
    | None => w
    end in
  _showScreen results w.

(** *** Leaderboard *)

(** [_submitToLeaderboard] up to its first [await]: the call
    [Leaderboard.submit(name, this._avg)] is left in flight. *)
Definition _submitToLeaderboard (w : World) : World :=
  if _submitted w then w
  else
    let name := trim (playerName w) in
    if String.eqb name "" then w
    else
      let w := set_submitted true w in
      let w := set_db_name (Some name) w in
      let w := set_saveBtnDisabled true w in
      set_inflight (inflight w ++ [(name, _avg w)]) w.

(** The rest of [_submitToLeaderboard], once the call has settled with
    [result] ([null] is [None]). *)
Definition _submitToLeaderboard_resume
    (result : option Leaderboard.RankResult) (w : World) : World :=
  let w := set_myRankResult result w in
  match result with
  | Some r => set_myTs (Leaderboard.r_ts r) w
  | None => w
  end.

(** *** Navigation *)

Definition _goToIntro (w : World) : World :=
  let w := _clearAllTimers w in
  let w := _setState idle w in
  _showScreen intro w.

(** *** The bodies of the timer callbacks *)

Definition run_callback (cb : Callback) (o : Oracle) (w : World) : World :=
  match cb with
  | FakeTimerCb =>
      match state w with
      | waiting =>
          match _triggerFake w with
          | None => w
          | Some w =>
              let realDelay :=
                num_add CFG.FAKE_DURATION
                  (rand (random o 0%nat) CFG.REAL_AFTER_FAKE
                     (num_add CFG.REAL_AFTER_FAKE (1500 # 1))) in
              let '(h, w) := setTimeout WaitAfterFakeCb realDelay w in
              set_waitTimer (Some h) w
          end
      | _ => w
      end
  | WaitAfterFakeCb | WaitTimerCb =>
      match state w with
      | waiting => _triggerChange o w
      | _ => w
      end
  | FakeRevertCb =>
      match state w with
      | waiting => _setBg (fromColor w) w
      | _ => w
      end
  | RetryCb =>
      let w := set_roundNum (roundNum w - 1) w in
      _beginRound o w
  | NextCb =>
      if (CFG.ROUNDS <=? length (scores w))%nat
      then _showResults w
      else _beginRound o w
  end.

(** *** Events and the step function *)

Inductive Event :=
| StartClick (o : Oracle)          (* click on $startBtn *)
| GameClick (o : Oracle)           (* click or touchstart on $game *)
| TimerFires (h : nat) (o : Oracle) (* the browser runs a pending timeout *)
| PlayAgainClick                   (* click on $playAgainBtn *)
| SaveName                         (* click on $saveNameBtn, or Enter in $playerName *)
| TypeName (s : string)            (* the player edits $playerName *)
| SubmitSettles (k : nat) (r : option Leaderboard.RankResult).
                                   (* the k-th call in flight settles *)

Definition step (w : World) (e : Event) : World :=
  match e with
  | StartClick o => _startGame o w
  | GameClick o => _onGameClick o w
  | TimerFires h o =>
      match timers w !! h with
      | Some (cb, _) => run_callback cb o (set_timers (delete h (timers w)) w)
      | None => w
      end
  | PlayAgainClick => _goToIntro w
  | SaveName => _submitToLeaderboard w
  | TypeName s => set_playerName s w
  | SubmitSettles k r =>
      match inflight w !! k with
      | Some _ => _submitToLeaderboard_resume r (set_inflight (delete k (inflight w)) w)
      | None => w
      end
  end.

Definition steps (w : World) (es : list Event) : World := fold_left step es w.

(** The constructor, given what [localStorage] holds under [db_name];
    the page is taken to load with the intro overlay showing, an empty
    name field and the save button enabled. *)
Definition init (saved : option string) : World :=
  {| state := idle; roundNum := 0; scores := [];
     fromColor := None; toColor := None; changeAt := None;
     _avg := Some 0; _submitted := false; _myTs := None; _myRankResult := None;
     _waitTimer := None; _fakeTimer := None; _fakeRevert := None; _pauseTimer := None;
     timers := ∅; nextTimer := 1; bg := None; screen := intro;
     playerName := ""; saveBtnDisabled := false; db_name := saved;
     inflight := [] |}.

Inductive reachable : World -> Prop :=
| reach_init saved : reachable (init saved)
| reach_step w e : reachable w -> reachable (step w e).

End Game.

(** ** game.js: text and the stored best *)
Module GameText.
Import JS Game.
Import Stdlib.Strings.Ascii.

(** [s.replace(/c/g, by)] for a one-character pattern. *)
Fixpoint replace_all (c : ascii) (by_ : string) (s : string) : string :=
  match s with
  | EmptyString => EmptyString
  | String a s' =>
      if Ascii.eqb a c then by_ +:+ replace_all c by_ s'
      else String a (replace_all c by_ s')
  end.

(** [_esc(str)] for a string argument. *)
Definition _esc (str : string) : string :=
  replace_all ">" "&gt;" (replace_all "<" "&lt;" (replace_all "&" "&amp;" str)).

(** The value of a decimal digit. *)
Definition digit_of (a : ascii) : option Z :=
  let n := nat_of_ascii a in
  if ((48 <=? n) && (n <=? 57))%nat then Some (Z.of_nat n - 48) else None.

(** The longest run of digits at the front of [s], read in base ten on
    top of [acc]; [seen] tells whether a digit was read already. No
    digit at all is NaN ([None]). *)
Fixpoint digits_value (s : string) (acc : Z) (seen : bool) : option Z :=
  match s with
  | EmptyString => if seen then Some acc else None
  | String a r =>
      match digit_of a with
      | Some d => digits_value r (10 * acc + d) true
      | None => if seen then Some acc else None
      end
  end.

(** [parseInt(s, 10)]: leading white space is skipped, one sign is
    read, then the digits up to the first character that is none. The
    value is kept exact. *)
Definition parseInt10 (s : string) : option Z :=
  match trim_start s with
  | String "-" r => Z.opp <$> digits_value r 0 false
  | String "+" r => digits_value r 0 false
  | t => digits_value t 0 false
  end.

(** [String(n)] for an integer below 10^21 in size: its decimal digits,
    after a minus sign when negative. *)
Definition Number_toString (n : Z) : string :=
  NilZero.string_of_int (Z.to_int n).

(** [a < b] on numbers, NaN ([None]) comparing false. *)
Definition js_lt (a b : option Z) : bool :=
  match a, b with
  | Some x, Some y => x <? y
  | _, _ => false
  end.

(** What [_showResults] leaves in [localStorage] under [db_best], given
    what it found there and the average it computed:
    [const best = parseInt(getItem('db_best') || '999999', 10);
     if (this._avg < best) setItem('db_best', this._avg)]. *)
Definition persist_best (stored : option string) (avg : option Z) : option string :=
  let text :=
    match stored with
    | Some t => if String.eqb t "" then "999999" else t
    | None => "999999"
    end in
  let best := parseInt10 text in
  if js_lt avg best
  then match avg with
       | Some a => Some (Number_toString a)
       | None => stored
       end
  else stored.

(** One [<span>] of the score row: a recorded time, marked [new] or
    not, or an empty dot. *)
Inductive Dot :=
| dot_filled (ms : Z) (isNew : bool)
| dot_empty.

(** [_updateDots]: the row written to [$scoreDots], before it is joined
    into one string. [Array(n)] throws a RangeError for a negative [n]
    ([None]). *)
Definition _updateDots (scores : list Z) : option (list Dot) :=
  let filled :=
    imap (fun i s =>
            dot_filled s (Z.of_nat i =? Z.of_nat (length scores) - 1)) scores in
  let n := Z.of_nat CFG.ROUNDS - Z.of_nat (length scores) in
  if n <? 0 then None
  else Some (filled ++ replicate (Z.to_nat n) dot_empty).

End GameText.

(** * The terms the properties are stated in *)

(** ** For the leaderboard *)
Module LeaderboardTerms.
Import Leaderboard Backends.

(** Entries in ascending order of score (ties permitted). *)
Definition ascending {A} (score_of : A -> Z) (l : list A) : Prop :=
  forall (i j : nat) (x y : A),
    (i <= j)%nat -> l !! i = Some x -> l !! j = Some y -> score_of x <= score_of y.

Definition entry_of_score (s : Z) : Entry :=
  {| e_name := "player"; e_score := s; e_createdAt := 0; ts := "" |}.

Definition ranks_of (scores : list Z) : list nat :=
  map rank (withRanks e_score (map entry_of_score scores)).

(** The rank the [i]-th call of the callback leaves behind. *)
Definition rank_at {A} (l : list (Ranked A)) (i : nat) : option nat :=
  rank <$> l !! i.

(** A run absorbs backend failures: it returns (it does not throw),
    a failed request is the last request it issued, and what it returns
    after one is the given no-data value. *)
Definition absorbed {B : backend} {A} (nodata : A) (out : final B A) : Prop :=
  (exists v, res out = Returned v) /\
  (forall pre r post,
      trace out = pre ++ (r, false) :: post ->
      post = [] /\ res out = Returned nodata).

End LeaderboardTerms.

(** ** For the round machine *)
Module GameTerms.
Import JS Game.

(** An oracle for a plain round (no flash) read at clock time [t]. *)
Definition plain_at (t : Q) : Oracle :=
  {| now := t; random := fun _ => 1 # 2; shuffled := COLORS |}.

(** One scored round: the real change fires at [t0] on handle [h], the
    player clicks [ms] milliseconds later, and the pause timer (handle
    [S h]) fires two seconds after the change. *)
Definition scored_round (h : nat) (t0 : Q) (ms : Z) : list Event :=
  [ TimerFires h (plain_at t0);
    GameClick (plain_at (t0 + inject_Z ms));
    TimerFires (S h) (plain_at (t0 + (2000 # 1))) ].

(** Scenario A up to the end of the fourth round, and its fifth round. *)
Definition scenarioA_four_rounds : list Event :=
  StartClick (plain_at 0)
    :: scored_round 1 (1000 # 1) 180 ++ scored_round 3 (5000 # 1) 150
    ++ scored_round 5 (9000 # 1) 220 ++ scored_round 7 (13000 # 1) 190.

Definition scenarioA_fifth_round : list Event :=
  scored_round 9 (17000 # 1) 160.

(** The event runs [_showResults]: a pending [NextCb] fires with the
    round count reached. *)
Definition finalizes (w : World) (e : Event) : bool :=
  match e with
  | TimerFires h _ =>
      match timers w !! h with
      | Some (NextCb, _) => (CFG.ROUNDS <=? length (scores w))%nat
      | _ => false
      end
  | _ => false
  end.

(** No event of the list finalizes a session. *)
Fixpoint within_session (w : World) (es : list Event) : Prop :=
  match es with
  | [] => True
  | e :: es' => finalizes w e = false /\ within_session (step w e) es'
  end.

(** The clock reading an event stamps as the time of the change: the
    event is the timer of a real change firing while the state is
    [waiting]. *)
Definition real_change (w : World) (e : Event) : option Q :=
  match e with
  | TimerFires h o =>
      match timers w !! h with
      | Some (WaitTimerCb, _) | Some (WaitAfterFakeCb, _) =>
          match state w with
          | waiting => Some (now o)
          | _ => None
          end
      | _ => None
      end
  | _ => None
  end.

(** The stamp of the latest real change in a run of events from [w],
    [acc] when there is none. *)
Fixpoint last_change (w : World) (es : list Event) (acc : option Q) : option Q :=
  match es with
  | [] => acc
  | e :: es' =>
      last_change (step w e) es'
        (match real_change w e with Some t => Some t | None => acc end)
  end.

(** A plain round played up to the score: start, the real change at
    1000 ms, a click 180 ms later. *)
Definition one_scored_click : list Event :=
  [ StartClick (plain_at 0);
    TimerFires 1 (plain_at (1000 # 1));
    GameClick (plain_at (1180 # 1)) ].

(** Scenario A played to its results, then the player types a name. *)
Definition results_with_name : World :=
  steps (init None)
    (scenarioA_four_rounds ++ scenarioA_fifth_round ++ [TypeName " ann "]).

(** What holds of round number and recorded times in every reachable
    world. While a round is on, it is the round after the ones scored
    and there are rounds left to score. *)
Definition round_ok (w : World) : Prop :=
  state w = waiting \/ state w = ready ->
  roundNum w = Z.of_nat (length (scores w)) + 1 /\
  (length (scores w) < CFG.ROUNDS)%nat.

(** A pending pause callback is the one [_pauseTimer] names, the machine
    is [paused], and the round number is as the method that scheduled it
    left it. *)
Definition pause_ok (w : World) : Prop :=
  forall h cb d, timers w !! h = Some (cb, d) ->
    match cb with
    | RetryCb =>
        _pauseTimer w = Some h /\ state w = paused /\
        roundNum w = Z.of_nat (length (scores w)) + 1 /\
        (length (scores w) < CFG.ROUNDS)%nat
    | NextCb =>
        _pauseTimer w = Some h /\ state w = paused /\
        roundNum w = Z.of_nat (length (scores w))
    | _ => True
    end.

(** A pending pause callback is the one [_pauseTimer] names. *)
Definition pause_tracked (w : World) : Prop :=
  forall h cb d, timers w !! h = Some (cb, d) ->
    match cb with
    | RetryCb | NextCb => _pauseTimer w = Some h
    | _ => True
    end.

Definition session_ok (w : World) : Prop :=
  (length (scores w) <= CFG.ROUNDS)%nat /\ round_ok w /\ pause_ok w.

(** What [Leaderboard.submit(name, score)] hands to the code waiting
    for it, on a given backend. *)
Definition store_answer (B : Leaderboard.backend) (bw : Leaderboard.World B)
    (name : string) (score : Z) : option Leaderboard.RankResult :=
  match Leaderboard.res (Leaderboard.run B (Leaderboard.submit name score None) bw) with
  | Leaderboard.Returned v => v
  | Leaderboard.Thrown _ => None
  end.

(** The callbacks [_beginRound] and [_triggerFake] schedule. *)
Definition round_callback (cb : Callback) : bool :=
  match cb with
  | FakeTimerCb | WaitAfterFakeCb | WaitTimerCb | FakeRevertCb => true
  | RetryCb | NextCb => false
  end.

End GameTerms.

(** ** For the further properties of the leaderboard *)
Module LeaderboardMoreTerms.
Import Leaderboard Backends.

Definition is_collection (r : req) : bool :=
  match r with ReqCollection _ => true | _ => false end.

Definition is_add (r : req) : bool :=
  match r with ReqAdd _ _ => true | _ => false end.

(** How many requests of a kind a run issued. *)
Definition issued (kind : req -> bool) (tr : list (req * bool)) : nat :=
  length (List.filter (fun x => kind (fst x)) tr).

(** The ranks along a ranked list never go down. *)
Definition ranks_ascend {A} (l : list (Ranked A)) : Prop :=
  forall (i : nat) (r r' : Ranked A),
    l !! i = Some r -> l !! S i = Some r' -> (rank r <= rank r')%nat.

(** Every rank is at least 1 and at most the 1-based position. *)
Definition ranks_in_place {A} (l : list (Ranked A)) : Prop :=
  forall (i : nat) (r : Ranked A),
    l !! i = Some r -> (1 <= rank r <= i + 1)%nat.

(** The call of [col()] asks the SDK for the handle only when none is
    cached. *)
Definition plan_collection (s : ModState) : list req :=
  match s with
  | Some _ => []
  | None => [ReqCollection "scores"]
  end.

(** The handle [col()] leaves cached: the one it found, or the one the
    SDK handed out. *)
Definition handle_after (B : backend) (s : ModState) (w : World B) : ModState :=
  match s with
  | Some c => Some c
  | None =>
      match fst (respond B (ReqCollection "scores") w) with
      | Resolved c => Some c
      | Rejected _ => None
      end
  end.

(** The backend honours [limit(n)]. *)
Definition keeps_limit (B : backend) : Prop :=
  forall c f n (w : World B),
    match fst (respond B (ReqGet c f n) w) with
    | Resolved snap => (length snap <= n)%nat
    | Rejected _ => True
    end.

End LeaderboardMoreTerms.

(** ** For the further properties of the round machine *)
Module GameMoreTerms.
Import JS Game GameText.
Import Stdlib.Strings.Ascii.

(** [Math.random()] returns a number in [0, 1). *)
Definition unit_oracle (o : Oracle) : Prop :=
  forall k, (0 <= random o k)%Q /\ (random o k < 1)%Q.

(** The sorted copy of [COLORS] holds the same colours. *)
Definition shuffles_palette (o : Oracle) : Prop := shuffled o ≡ₚ COLORS.

(** The three channels of a colour. *)
Definition red (c : Color) : Z := Z.shiftr c 16.
Definition green (c : Color) : Z := Z.land (Z.shiftr c 8) 0xff.
Definition blue (c : Color) : Z := Z.land c 0xff.

(** The field of [this] that holds the handle of a callback's timer. *)
Definition field_of (cb : Callback) (w : World) : option nat :=
  match cb with
  | FakeTimerCb => _fakeTimer w
  | WaitAfterFakeCb | WaitTimerCb => _waitTimer w
  | FakeRevertCb => _fakeRevert w
  | RetryCb | NextCb => _pauseTimer w
  end.

(** Every pending timer is the one its field names. *)
Definition all_tracked (w : World) : Prop :=
  forall h cb d, timers w !! h = Some (cb, d) -> field_of cb w = Some h.

(** The callbacks that are scheduled right after [_clearAllTimers], with
    nothing else. *)
Definition scheduled_alone (cb : Callback) : bool :=
  match cb with
  | FakeTimerCb | WaitTimerCb | RetryCb | NextCb => true
  | WaitAfterFakeCb | FakeRevertCb => false
  end.

(** Such a callback, while pending, is the only pending timer. *)
Definition solo (w : World) : Prop :=
  forall h cb d, timers w !! h = Some (cb, d) -> scheduled_alone cb = true ->
    timers w = {[ h := (cb, d) ]}.

(** While the results are up, the machine rests on a finished session. *)
Definition results_ok (w : World) : Prop :=
  screen w = results ->
  state w = paused /\ length (scores w) = CFG.ROUNDS /\
  _avg w = average (scores w) /\ timers w = ∅.

Definition table_ok (w : World) : Prop := all_tracked w /\ solo w.

Definition timers_ok (w : World) : Prop := table_ok w /\ results_ok w.

(** Events the player or the browser can raise on the game surface
    alone: clicks on it and timers. *)
Definition on_surface (e : Event) : bool :=
  match e with
  | GameClick _ | TimerFires _ _ => true
  | _ => false
  end.

(** Reading back what [_esc] wrote: the three entities become their
    characters again. *)
Fixpoint unesc (s : string) : string :=
  match s with
  | EmptyString => EmptyString
  | String a r =>
      if Ascii.eqb a "&" then
        match r with
        | String b1 (String b2 (String b3 r3)) =>
            if Ascii.eqb b1 "l" && Ascii.eqb b2 "t" && Ascii.eqb b3 ";"
            then String "<" (unesc r3)
            else if Ascii.eqb b1 "g" && Ascii.eqb b2 "t" && Ascii.eqb b3 ";"
            then String ">" (unesc r3)
            else
              match r3 with
              | String b4 r4 =>
                  if Ascii.eqb b1 "a" && Ascii.eqb b2 "m" && Ascii.eqb b3 "p"
                     && Ascii.eqb b4 ";"
                  then String "&" (unesc r4)
                  else String a (unesc r)
              | EmptyString => String a (unesc r)
              end
        | _ => String a (unesc r)
        end
      else String a (unesc r)
  end.

(** A name under [db_name], if any, is not empty and has no white
    space around it. *)
Definition name_ok (saved : option string) : Prop :=
  forall n, saved = Some n -> n <> "" /\ trim n = n.

(** What [_esc] writes for one character. *)
Definition esc_char (a : ascii) : string :=
  if Ascii.eqb a "&" then "&amp;"
  else if Ascii.eqb a "<" then "&lt;"
  else if Ascii.eqb a ">" then "&gt;"
  else String a EmptyString.

(** The characters of a string. *)
Fixpoint chars (s : string) : list ascii :=
  match s with
  | EmptyString => []
  | String a r => a :: chars r
  end.

End GameMoreTerms.

(** * Properties of the leaderboard *)
Module LeaderboardProps.
Import Leaderboard Backends LeaderboardTerms.

(** ** withRanks *)

Lemma withRanks_go_entries {A} (score_of : A -> Z) (a rest : list A) :
  forall r i, map entry (withRanks_go score_of a r i rest) = rest.
Proof.
  induction rest as [|e rest IH]; intros r i; simpl; [reflexivity|].
  f_equal. apply IH.
Qed.

(** One step of the loop, read off at any index [k] of the part still
    to visit: the rank there is the position when the score changed,
    and otherwise the rank of the element before (the incoming rank for
    the first one). *)
Lemma withRanks_go_lookup {A} (score_of : A -> Z) (a : list A) :
  forall (rest : list A) (r i k : nat) (e : A),
    rest !! k = Some e ->
    rank_at (withRanks_go score_of a r i rest) k =
      if (0 <? i + k)%nat && differs_from_previous score_of a e (i + k)
      then Some (i + k + 1)%nat
      else match k with
           | O => Some r
           | S k' => rank_at (withRanks_go score_of a r i rest) k'
           end.
Proof.
  unfold rank_at.
  induction rest as [|e0 rest IH]; intros r i k e Hk; [discriminate|].
  destruct k as [|k]; simpl in *.
  - injection Hk as ->. rewrite Nat.add_0_r.
    destruct (_ && _); reflexivity.
  - rewrite (IH _ (S i) k e Hk).
    replace (S i + k)%nat with (i + S k)%nat by lia.
    destruct k as [|k]; simpl; reflexivity.
Qed.

(** In an ascending list whose first [i] entries, and no others, lie
    strictly below [t], [i] entries lie strictly below [t]. *)
Lemma count_below_prefix {A} (score_of : A -> Z) (t : Z) :
  forall (l : list A) (i : nat),
    (forall j x, l !! j = Some x -> (j < i)%nat <-> score_of x < t) ->
    (i <= length l)%nat ->
    length (filter (fun d => score_of d < t) l) = i.
Proof.
  induction l as [|a l IH]; intros i Hsplit Hi; simpl in Hi.
  - simpl. lia.
  - destruct (Hsplit 0%nat a eq_refl) as [Hlt Hgt].
    destruct i as [|i].
    + rewrite filter_cons_False by (intros Ha; apply Hgt in Ha; lia).
      apply IH; [|lia].
      intros j x Hx. destruct (Hsplit (S j) x Hx) as [_ H2].
      split; [lia | intros Hxt; apply H2 in Hxt; lia].
    + rewrite filter_cons_True by (apply Hlt; lia).
      simpl. f_equal. apply IH; [|lia].
      intros j x Hx. destruct (Hsplit (S j) x Hx) as [H1 H2].
      split; [intros Hj; apply H1; lia | intros Hxt; apply H2 in Hxt; lia].
Qed.

(** C1. For a non-empty sequence of entries ascending by score,
    [withRanks] keeps the entries in place, gives the first one rank 1,
    and gives every later one its 1-based position when its score
    differs from the score just before it and the rank of the entry
    just before it otherwise; the scores 10, 10, 20, 30 get the ranks
    1, 1, 3, 4. The order being ascending, the rank of an entry is then
    1 + the number of entries with a strictly smaller score. *)
Theorem withRanks_spec {A} (score_of : A -> Z) (docs : list A)
    (Hne : docs <> []) (Hasc : ascending score_of docs) :
  map entry (withRanks score_of docs) = docs /\
  rank_at (withRanks score_of docs) 0 = Some 1%nat /\
  (forall (i : nat) (e p : A),
      (0 < i)%nat -> docs !! i = Some e -> docs !! (i - 1)%nat = Some p ->
      rank_at (withRanks score_of docs) i =
        if decide (score_of e <> score_of p) then Some (i + 1)%nat
        else rank_at (withRanks score_of docs) (i - 1)) /\
  ranks_of [10; 10; 20; 30] = [1; 1; 3; 4]%nat /\
  (forall (i : nat) (e : A),
      docs !! i = Some e ->
      rank_at (withRanks score_of docs) i =
        Some (1 + length (filter (fun d => (score_of d < score_of e)%Z) docs))%nat).
Proof.
  assert (Hfirst : rank_at (withRanks score_of docs) 0 = Some 1%nat).
  { unfold withRanks. destruct docs as [|e docs]; [contradiction|].
    rewrite (withRanks_go_lookup score_of _ _ 1%nat 0%nat 0%nat e); reflexivity. }
  assert (Hnext : forall (i : nat) (e p : A),
      (0 < i)%nat -> docs !! i = Some e -> docs !! (i - 1)%nat = Some p ->
      rank_at (withRanks score_of docs) i =
        if decide (score_of e <> score_of p) then Some (i + 1)%nat
        else rank_at (withRanks score_of docs) (i - 1)).
  { unfold withRanks. intros i e p Hi He Hp.
    rewrite (withRanks_go_lookup score_of _ _ 1%nat 0%nat i e He).
    simpl. unfold differs_from_previous. rewrite Hp.
    destruct i as [|i]; [lia|]. simpl. rewrite Nat.sub_0_r.
    destruct (Z.eqb_spec (score_of e) (score_of p)) as [Heq|Hneq];
      destruct (decide (score_of e <> score_of p)); simpl;
      try reflexivity; contradiction. }
  split; [apply withRanks_go_entries|].
  split; [exact Hfirst|]. split; [exact Hnext|]. split; [reflexivity|].
  induction i as [|i IH]; intros e He.
  - rewrite Hfirst. f_equal.
    rewrite (count_below_prefix score_of (score_of e) docs 0%nat); [reflexivity| |lia].
    intros j x Hx. pose proof (Hasc 0%nat j e x ltac:(lia) He Hx). lia.
  - destruct (docs !! i) as [p|] eqn:Hp.
    2:{ apply lookup_ge_None in Hp. apply lookup_lt_Some in He. lia. }
    rewrite (Hnext (S i) e p ltac:(lia) He); [|simpl; rewrite Nat.sub_0_r; exact Hp].
    pose proof (Hasc i (S i) p e ltac:(lia) Hp He) as Hpe.
    destruct (decide (score_of e <> score_of p)) as [Hneq|Heq].
    + f_equal.
      rewrite (count_below_prefix score_of (score_of e) docs (S i)); [lia| |].
      * intros j x Hx. split.
        -- intros Hj. pose proof (Hasc j i x p ltac:(lia) Hx Hp). lia.
        -- intros Hxe. destruct (Nat.lt_ge_cases j (S i)) as [Hj|Hj]; [exact Hj|].
           pose proof (Hasc (S i) j e x Hj He Hx). lia.
      * apply lookup_lt_Some in He. lia.
    + simpl. rewrite Nat.sub_0_r. rewrite (IH p eq_refl).
      replace (score_of e) with (score_of p) by lia. reflexivity.
Qed.

Lemma withRanks_spec_witness :
  let docs := map entry_of_score [10; 10; 20; 30] in
  docs <> [] /\ ascending e_score docs /\
  map entry (withRanks e_score docs) = docs /\
  rank_at (withRanks e_score docs) 0 = Some 1%nat.
Proof.
  intros docs.
  assert (Hne : docs <> []) by discriminate.
  assert (Hasc : ascending e_score docs).
  { intros i j x y Hij Hi Hj.
    destruct i as [|[|[|[|i]]]]; destruct j as [|[|[|[|j]]]];
      simpl in Hi, Hj; try discriminate; try lia;
      injection Hi as <-; injection Hj as <-; simpl; lia. }
  destruct (withRanks_spec e_score docs Hne Hasc) as [H1 [H2 _]].
  exact (conj Hne (conj Hasc (conj H1 H2))).
Defined.

(** ** Counting and searching, as the code writes them and as sets *)
Section Counting.
Context {A : Type} (f : A -> Z).

Lemma count_below (sc : Z) (l : list A) :
  length (List.filter (fun d => f d <? sc) l) =
  length (filter (fun d => f d < sc) l).
Proof.
  induction l as [|x l IH]; [reflexivity|].
  rewrite filter_cons. simpl.
  destruct (Z.ltb_spec (f x) sc); destruct (decide (f x < sc)); simpl;
    try lia; rewrite IH; reflexivity.
Qed.

Lemma count_equal (sc : Z) (l : list A) :
  length (List.filter (fun d => f d =? sc) l) =
  length (filter (fun d => f d = sc) l).
Proof.
  induction l as [|x l IH]; [reflexivity|].
  rewrite filter_cons. simpl.
  destruct (Z.eqb_spec (f x) sc); destruct (decide (f x = sc)); simpl;
    try contradiction; rewrite IH; reflexivity.
Qed.

Lemma some_equal (sc : Z) (l : list A) :
  existsb (fun d => f d =? sc) l = true <-> exists d, d ∈ l /\ f d = sc.
Proof.
  rewrite existsb_exists. split; intros [d [Hin Hd]]; exists d.
  - split; [apply list_elem_of_In; exact Hin | apply Z.eqb_eq; exact Hd].
  - split; [apply list_elem_of_In; exact Hin | apply Z.eqb_eq; exact Hd].
Qed.
End Counting.

Lemma some_id (i : DocId) (l : list Entry) :
  existsb (fun d => String.eqb (ts d) i) l = true <-> i ∈ map ts l.
Proof.
  rewrite existsb_exists, list_elem_of_In, in_map_iff.
  split; intros [d [H1 H2]]; exists d.
  - apply String.eqb_eq in H2. split; [exact H2 | exact H1].
  - split; [exact H2 | apply String.eqb_eq; exact H1].
Qed.

(** Unfolding one run of a computation, leaving arithmetic alone. *)
Ltac run_simpl :=
  cbn [run bindc catchc bind try_catch await ret throw get_col set_col col
       res world_after col_after trace is_resolved].
Ltac run_simpl_in H :=
  cbn [run bindc catchc bind try_catch await ret throw get_col set_col col
       res world_after col_after trace is_resolved] in H.

(** ** peek *)

(** C2. Against the window the query hands back (at most [SIZE]
    entries): when the window is full and the score is strictly
    greater than the score of its last entry, [peek] returns [null];
    otherwise it returns rank 1 + the number of window entries with a
    strictly smaller score, tied exactly when some window entry has
    the same score. On an empty window every score is rank 1, not tied. *)
Theorem peek_spec (B : backend) (w w' : World B) (s : ModState) (sc : Z)
    (c : CollectionRef) (snap : list QueryDocumentSnapshot)
    (Hcol : res (run B (col s) w) = Returned c)
    (Hget : respond B (ReqGet c "score" SIZE) (world_after (run B (col s) w))
            = (Resolved snap, w'))
    (Hlimit : (length snap <= SIZE)%nat) :
  let window := map data snap in
  let answer := res (run B (peek sc s) w) in
  let outside :=
    length window = SIZE /\ exists worst, last window = Some worst /\ score worst < sc in
  (outside -> answer = Returned None) /\
  (~ outside ->
     exists r, answer = Returned (Some r) /\
       r_rank r = (1 + length (filter (fun d => (score d < sc)%Z) window))%nat /\
       (isTied r = true <-> exists d, d ∈ window /\ score d = sc) /\
       r_ts r = None) /\
  (window = [] ->
     answer = Returned (Some {| r_rank := 1; isTied := false; r_ts := None |})).
Proof.
  intros window answer outside.
  assert (Hrun : answer =
    if (SIZE <=? length window)%nat
    then match last window with
         | Some worst =>
             if sc >? score worst then Returned None
             else Returned (Some
               {| r_rank := (length (List.filter (fun d => (score d <? sc)%Z) window) + 1)%nat;
                  isTied := existsb (fun d => score d =? sc) window; r_ts := None |})
         | None => Returned None
         end
    else Returned (Some
           {| r_rank := (length (List.filter (fun d => (score d <? sc)%Z) window) + 1)%nat;
              isTied := existsb (fun d => score d =? sc) window; r_ts := None |})).
  { subst answer window. unfold peek, last_score.
    assert (Hpred : (length (map data snap) - 1)%nat = Nat.pred (length (map data snap)))
      by lia.
    destruct s as [c0|]; run_simpl_in Hcol; run_simpl_in Hget; run_simpl;
      [|destruct (respond B (ReqCollection "scores") w) as [[c1|e] w1];
        run_simpl_in Hcol; run_simpl_in Hget; run_simpl; [|discriminate]];
      injection Hcol as ->; rewrite Hget; run_simpl;
      rewrite last_lookup, Hpred;
      (destruct (SIZE <=? length (map data snap))%nat; run_simpl; [|reflexivity]);
      (destruct (map data snap !! Nat.pred (length (map data snap))); run_simpl;
        [|reflexivity]);
      destruct (sc >? score d); reflexivity. }
  assert (Hlen : (length window <= SIZE)%nat) by (subst window; rewrite length_map; exact Hlimit).
  split; [|split].
  - intros [Hfull [worst [Hlast Hworse]]].
    rewrite Hrun, Hlast, Hfull, Nat.leb_refl.
    destruct (Z.gtb_spec sc (score worst)); [reflexivity|lia].
  - intros Hin. eexists. split; [|split; [|split]].
    + rewrite Hrun.
      destruct (Nat.leb_spec SIZE (length window)) as [Hfull|Hroom]; [|reflexivity].
      destruct (last window) as [worst|] eqn:Hlast.
      * destruct (Z.gtb_spec sc (score worst)); [|reflexivity].
        exfalso. apply Hin. split; [lia|]. exists worst. split; [reflexivity|lia].
      * apply last_None in Hlast. rewrite Hlast in Hfull. simpl in Hfull.
        unfold SIZE in Hfull. lia.
    + simpl. rewrite count_below. lia.
    + simpl. apply some_equal.
    + reflexivity.
  - intros Hempty. rewrite Hrun, Hempty. reflexivity.
Qed.

Lemma peek_spec_witness :
  exists r,
    res (run MemStore (peek 120 None) (mem_of_scores [100; 100; 150]))
      = Returned (Some r) /\ r_rank r = 3%nat.
Proof.
  pose (w := mem_of_scores [100; 100; 150]).
  destruct (peek_spec MemStore w w None 120 "scores" (take SIZE (stored w)))
    as [_ [H _]]; [reflexivity | reflexivity | vm_compute; lia |].
  destruct H as [r [Hr [Hrank _]]].
  - intros [Hfull _]. vm_compute in Hfull. discriminate Hfull.
  - exists r. split; [exact Hr | rewrite Hrank; reflexivity].
Defined.

(** The preview on an empty board, and on the board 100, 100, 150. *)
Example peek_empty_board :
  res (run MemStore (peek 250 None) mem_empty)
  = Returned (Some {| r_rank := 1; isTied := false; r_ts := None |}).
Proof. reflexivity. Qed.

Example peek_tied_first :
  res (run MemStore (peek 100 None) (mem_of_scores [100; 100; 150]))
  = Returned (Some {| r_rank := 1; isTied := true; r_ts := None |}).
Proof. reflexivity. Qed.

Example peek_between :
  res (run MemStore (peek 120 None) (mem_of_scores [100; 100; 150]))
  = Returned (Some {| r_rank := 3; isTied := false; r_ts := None |}).
Proof. reflexivity. Qed.

(** On a full board (a hundred entries of 300 ms), a score worse than
    the last one has no rank; the last score itself is ranked, tied. *)
Example peek_full_board_outside :
  res (run MemStore (peek 301 None) (mem_of_scores (repeat 300 100))) = Returned None.
Proof. vm_compute. reflexivity. Qed.

Example peek_full_board_last :
  res (run MemStore (peek 300 None) (mem_of_scores (repeat 300 100)))
  = Returned (Some {| r_rank := 1; isTied := true; r_ts := None |}).
Proof. vm_compute. reflexivity. Qed.

(** ** submit *)

Lemma col_after_ok (B : backend) (w : World B) (s : ModState) (c : CollectionRef) :
  res (run B (col s) w) = Returned c -> col_after (run B (col s) w) = Some c.
Proof.
  destruct s as [c0|]; run_simpl.
  - intros [= ->]. reflexivity.
  - destruct (respond B (ReqCollection "scores") w) as [[c1|e] w1]; run_simpl;
      [intros [= ->]; reflexivity | discriminate].
Qed.

(** C3. [submit] first adds the entry, then queries the top [SIZE]
    again. When both succeed: if the id of the new document is not
    among the ids of the window, the result is [null]; otherwise the
    rank is 1 + the number of window entries with a strictly smaller
    score, tied exactly when more than one window entry has the
    submitted score, and the result carries the new id. *)
Theorem submit_spec (B : backend) (w w1 w2 : World B) (s : ModState)
    (nm : string) (sc : Z) (c : CollectionRef) (ref : DocumentReference)
    (snap : list QueryDocumentSnapshot)
    (Hcol : res (run B (col s) w) = Returned c)
    (Hadd : respond B (ReqAdd c {| new_name := nm; new_score := sc |})
              (world_after (run B (col s) w)) = (Resolved ref, w1))
    (Hget : respond B (ReqGet c "score" SIZE) w1 = (Resolved snap, w2)) :
  let window := map with_ts snap in
  let out := run B (submit nm sc s) w in
  trace out = trace (run B (col s) w)
              ++ [(ReqAdd c {| new_name := nm; new_score := sc |}, true);
                  (ReqGet c "score" SIZE, true)] /\
  (ref_id ref ∉ map ts window -> res out = Returned None) /\
  (ref_id ref ∈ map ts window ->
     exists r, res out = Returned (Some r) /\
       r_rank r = (1 + length (filter (fun d => (e_score d < sc)%Z) window))%nat /\
       (isTied r = true <->
          (1 < length (filter (fun d => e_score d = sc) window))%nat) /\
       r_ts r = Some (ref_id ref)).
Proof.
  intros window out.
  assert (Hrun : trace out = trace (run B (col s) w)
              ++ [(ReqAdd c {| new_name := nm; new_score := sc |}, true);
                  (ReqGet c "score" SIZE, true)] /\
    res out =
      if negb (existsb (fun d => String.eqb (ts d) (ref_id ref)) window)
      then Returned None
      else Returned (Some
        {| r_rank := (length (List.filter (fun d => (e_score d <? sc)%Z) window) + 1)%nat;
           isTied := Nat.ltb 1 (length (List.filter (fun d => e_score d =? sc) window));
           r_ts := Some (ref_id ref) |})).
  { subst out window. unfold submit.
    destruct s as [c0|]; run_simpl_in Hcol; run_simpl_in Hadd; run_simpl;
      [|destruct (respond B (ReqCollection "scores") w) as [[c1|e] w0];
        run_simpl_in Hcol; run_simpl_in Hadd; run_simpl; [|discriminate]];
      injection Hcol as ->; rewrite Hadd; run_simpl; rewrite Hget; run_simpl;
      destruct (negb _); run_simpl; split; reflexivity. }
  destruct Hrun as [Htrace Hres].
  split; [exact Htrace|]. split.
  - intros Hout. rewrite Hres.
    destruct (existsb _ window) eqn:Hex; [|reflexivity].
    apply some_id in Hex. contradiction.
  - intros Hin. eexists. split; [|split; [|split]].
    + rewrite Hres. apply some_id in Hin. rewrite Hin. reflexivity.
    + simpl. rewrite count_below. lia.
    + simpl. rewrite count_equal. apply Nat.ltb_lt.
    + reflexivity.
Qed.

Lemma submit_spec_witness :
  exists r,
    res (run MemStore (submit "ann" 100 None) (mem_of_scores [100; 150]))
      = Returned (Some r) /\ r_rank r = 1%nat /\ r_ts r = Some "doc2".
Proof.
  pose (w := mem_of_scores [100; 150]).
  pose (a := mem_respond (ReqAdd "scores" {| new_name := "ann"; new_score := 100 |}) w).
  destruct (submit_spec MemStore w (snd a) (snd a) None "ann" 100 "scores"
              {| ref_id := "doc2" |} (take SIZE (stored (snd a))))
    as [_ [_ H]]; [reflexivity | reflexivity | reflexivity |].
  destruct H as [r [Hr [Hrank [_ Hts]]]].
  - vm_compute. repeat constructor.
  - exists r. split; [exact Hr|]. split; [rewrite Hrank; reflexivity | exact Hts].
Defined.

(** On the same full board, a score that does not make the cut is
    stored and not ranked; a better one is ranked. *)
Example submit_outside_window :
  let out := run MemStore (submit "zoe" 400 None) (mem_of_scores (repeat 300 100)) in
  res out = Returned None /\
  length (stored (world_after out)) = 101%nat.
Proof. vm_compute. split; reflexivity. Qed.

Example submit_into_full_board :
  res (run MemStore (submit "ann" 250 None) (mem_of_scores (repeat 300 100)))
  = Returned (Some {| r_rank := 1; isTied := false; r_ts := Some "doc100" |}).
Proof. vm_compute. reflexivity. Qed.

(** The top three of the board 10, 10, 20, 30. *)
Example getTop_three :
  match res (run MemStore (getTop 3 None) (mem_of_scores [10; 10; 20; 30])) with
  | Returned top => map (fun r => (e_score (entry r), rank r)) top
  | Thrown _ => []
  end = [(10, 1%nat); (10, 1%nat); (20, 3%nat)].
Proof. reflexivity. Qed.

(** ** Failures of the backend *)

(** Closes [absorbed] once the run has been unfolded to a value and a
    list of requests. *)
Ltac close_absorbed :=
  split;
  [ eexists; reflexivity
  | let pre := fresh "pre" in
    let Htr := fresh "Htr" in
    intros pre ? ? Htr;
    destruct pre as [|? [|? [|? [|? pre]]]];
    cbn [app] in Htr; simplify_eq; split; reflexivity ].

Ltac call_cases B r :=
  match goal with
  | |- context [respond B r ?w] =>
      let o := fresh "o" in
      let e := fresh "e" in
      let w' := fresh "w" in
      destruct (respond B r w) as [[o|e] w']; run_simpl
  end.

Lemma peek_absorbed (B : backend) (w : World B) (s : ModState) (sc : Z) :
  absorbed None (run B (peek sc s) w).
Proof.
  unfold absorbed, peek, last_score.
  destruct s as [c|]; run_simpl;
    [|call_cases B (ReqCollection "scores"); [|close_absorbed]];
    (call_cases B (ReqGet o "score" SIZE) || call_cases B (ReqGet c "score" SIZE));
    try close_absorbed;
    (destruct (SIZE <=? _)%nat; run_simpl; [|close_absorbed]);
    (destruct (_ !! _); run_simpl; [|close_absorbed]);
    destruct (sc >? _); run_simpl; close_absorbed.
Qed.

Lemma submit_absorbed (B : backend) (w : World B) (s : ModState)
    (nm : string) (sc : Z) :
  absorbed None (run B (submit nm sc s) w).
Proof.
  unfold absorbed, submit.
  destruct s as [c|]; run_simpl;
    [|call_cases B (ReqCollection "scores"); [|close_absorbed]];
    (call_cases B (ReqAdd o {| new_name := nm; new_score := sc |})
     || call_cases B (ReqAdd c {| new_name := nm; new_score := sc |}));
    try close_absorbed;
    (call_cases B (ReqGet o "score" SIZE) || call_cases B (ReqGet c "score" SIZE));
    try close_absorbed;
    destruct (negb _); run_simpl; close_absorbed.
Qed.

Lemma getTop_absorbed (B : backend) (w : World B) (s : ModState) (n : nat) :
  absorbed [] (run B (getTop n s) w).
Proof.
  unfold absorbed, getTop.
  destruct s as [c|]; run_simpl;
    [|call_cases B (ReqCollection "scores"); [|close_absorbed]];
    (call_cases B (ReqGet o "score" SIZE) || call_cases B (ReqGet c "score" SIZE));
    close_absorbed.
Qed.

(** C9. Whatever the backend answers, [peek], [submit] and [getTop]
    return rather than throw; a request that failed is the last one
    they issue (nothing is retried), and after one [peek] and [submit]
    return [null] and [getTop] returns the empty list. *)
Theorem store_failure_absorbed (B : backend) (w : World B) (s : ModState)
    (nm : string) (sc : Z) (n : nat) :
  absorbed None (run B (peek sc s) w) /\
  absorbed None (run B (submit nm sc s) w) /\
  absorbed [] (run B (getTop n s) w).
Proof.
  split; [apply peek_absorbed | split; [apply submit_absorbed | apply getTop_absorbed]].
Qed.

(** The same, offline and on a connection lost after the insert. *)
Lemma store_failure_absorbed_witness :
  res (run Offline (peek 250 None) tt) = Returned None /\
  res (run DropsAfter (submit "ann" 250 None) (2%nat, mem_empty)) = Returned None /\
  res (run Offline (getTop 10 None) tt) = Returned [].
Proof.
  destruct (store_failure_absorbed Offline tt None "ann" 250 10) as [[_ Hp] [_ [_ Hg]]].
  destruct (store_failure_absorbed DropsAfter (2%nat, mem_empty) None "ann" 250 10)
    as [_ [[_ Hs] _]].
  split; [|split].
  - exact (proj2 (Hp [] (ReqCollection "scores") [] eq_refl)).
  - refine (proj2 (Hs [_; _] (ReqGet "scores" "score" SIZE) [] eq_refl)).
  - exact (proj2 (Hg [] (ReqCollection "scores") [] eq_refl)).
Defined.

End LeaderboardProps.

(** * Properties of the numbers *)
Module NumberProps.
Import JS.

Lemma pow2_pos (e : Z) : (0 < pow2 e)%Q.
Proof. apply Qpower_0_lt. reflexivity. Qed.

Lemma pow2_plus (a b : Z) : (pow2 (a + b) == pow2 a * pow2 b)%Q.
Proof. apply Qpower_plus. discriminate. Qed.

Lemma pow2_nonneg (e : Z) : 0 <= e -> (pow2 e == inject_Z (2 ^ e))%Q.
Proof. intros He. unfold pow2. rewrite (Zpower_Qpower 2 e He). reflexivity. Qed.

Lemma pow2_le (a b : Z) : a <= b -> (pow2 a <= pow2 b)%Q.
Proof. intros H. apply Qpower_le_compat_l; [exact H | discriminate]. Qed.

Lemma rne_floor (y : Q) : Qfloor y <= rne y <= Qfloor y + 1.
Proof.
  unfold rne. cbv zeta.
  destruct (y - inject_Z (Qfloor y) ?= 1 # 2)%Q; [destruct (Z.even _)|..]; lia.
Qed.

Lemma rne_ge (k : Z) (y : Q) : (inject_Z k <= y)%Q -> k <= rne y.
Proof.
  intros H. apply Qfloor_resp_le in H. rewrite Qfloor_Z in H.
  pose proof (rne_floor y). lia.
Qed.

Lemma rne_le (k : Z) (y : Q) : (y <= inject_Z k)%Q -> rne y <= k.
Proof.
  intros H. pose proof (Qfloor_resp_le _ _ H) as Hf. rewrite Qfloor_Z in Hf.
  destruct (Z.eq_dec (Qfloor y) k) as [He|Hne].
  - unfold rne. cbv zeta. 
    assert (Hlt : (y - inject_Z (Qfloor y) < 1 # 2)%Q).
    { rewrite He. lra. }
    destruct (Qcompare_spec (y - inject_Z (Qfloor y)) (1 # 2)) as [Heq|_|Hgt];
      [rewrite Heq in Hlt; discriminate Hlt | lia | lra].
  - pose proof (rne_floor y). lia.
Qed.

Lemma ilog2_le (x : Q) : ~ (x == 0)%Q -> (pow2 (ilog2 x) <= Qabs x)%Q.
Proof.
  intros Hx. unfold ilog2. cbv zeta.
  set (a := Z.log2 (Z.abs (Qnum x))). set (b := Z.log2 (Z.pos (Qden x))).
  destruct (Qle_bool (pow2 (a - b)) (Qabs x)) eqn:Hle.
  - apply Qle_bool_iff. exact Hle.
  - clear Hle.
    assert (Hn : Qnum x <> 0).
    { intros Hn. apply Hx. destruct x as [n d]. simpl in Hn. subst n. reflexivity. }
    assert (Ha : 2 ^ a <= Z.abs (Qnum x)) by (apply Z.log2_spec; lia).
    assert (Hb : Z.pos (Qden x) < 2 ^ (b + 1)).
    { unfold b. replace (Z.log2 (Z.pos (Qden x)) + 1) with (Z.succ (Z.log2 (Z.pos (Qden x)))) by lia.
      apply Z.log2_spec. lia. }
    assert (Ha0 : 0 <= a) by apply Z.log2_nonneg.
    assert (Hb0 : 0 <= b) by apply Z.log2_nonneg.
    replace (a - b - 1) with (a - (b + 1)) by lia.
    unfold pow2 at 1. rewrite Qpower_minus by discriminate.
    fold (pow2 a). fold (pow2 (b + 1)).
    rewrite (pow2_nonneg a Ha0), (pow2_nonneg (b + 1)) by lia.
    destruct x as [n d]. simpl in *. unfold Qabs.
    apply Qle_shift_div_r.
    + change 0%Q with (inject_Z 0). rewrite <- Zlt_Qlt. lia.
    + unfold Qle, Qmult, inject_Z. simpl. nia.
Qed.

Lemma fl64_zero (x : Q) : (x == 0)%Q -> fl64 x = 0%Q.
Proof.
  intros Hx. unfold fl64. apply Qeq_bool_iff in Hx. rewrite Hx. reflexivity.
Qed.

Lemma fl64_value (x : Q) :
  ~ (x == 0)%Q ->
  let e := Z.max (-1074) (ilog2 x - 52) in
  (fl64 x == inject_Z (rne (x / pow2 e)) * pow2 e)%Q.
Proof.
  intros Hx e. unfold fl64.
  destruct (Qeq_bool x 0) eqn:Hb; [apply Qeq_bool_iff in Hb; contradiction|].
  apply Qred_correct.
Qed.

(** An integer is a multiple of every power of two with an exponent
    that is not positive. *)
Lemma int_multiple (a e : Z) :
  e <= 0 -> (inject_Z a == inject_Z (a * 2 ^ (- e)) * pow2 e)%Q.
Proof.
  intros He. rewrite inject_Z_mult, <- (pow2_nonneg (- e)) by lia.
  rewrite <- Qmult_assoc, <- pow2_plus.
  replace (- e + e) with 0 by lia. unfold pow2. rewrite Qpower_0_r. ring.
Qed.

(** Where the exponent is positive, [x] is at least [2^53] in size. *)
Lemma large_when_scaled (x : Q) :
  ~ (x == 0)%Q -> 0 < Z.max (-1074) (ilog2 x - 52) ->
  (pow2 52 * pow2 (Z.max (-1074) (ilog2 x - 52)) <= Qabs x)%Q /\
  (inject_Z (2 ^ 53) <= pow2 52 * pow2 (Z.max (-1074) (ilog2 x - 52)))%Q.
Proof.
  intros Hx He. set (e := Z.max (-1074) (ilog2 x - 52)) in *.
  assert (Hil : ilog2 x = 52 + e) by lia.
  split.
  - rewrite <- pow2_plus, <- Hil. apply ilog2_le, Hx.
  - rewrite <- pow2_plus, <- (pow2_nonneg 53) by lia. apply pow2_le. lia.
Qed.

Lemma fl64_ge_int (a : Z) (x : Q) :
  0 <= a < 2 ^ 53 -> (inject_Z a <= x)%Q -> (inject_Z a <= fl64 x)%Q.
Proof.
  intros Ha Hax.
  assert (Ha0 : (0 <= inject_Z a)%Q)
    by (change 0%Q with (inject_Z 0); rewrite <- Zle_Qle; lia).
  destruct (Qeq_dec x 0) as [Hx|Hx].
  - rewrite (fl64_zero x Hx). rewrite <- Hx. exact Hax.
  - rewrite (fl64_value x Hx). cbv zeta.
    set (e := Z.max (-1074) (ilog2 x - 52)).
    pose proof (pow2_pos e) as Hpe.
    destruct (Z_le_gt_dec e 0) as [He|He].
    + rewrite (int_multiple a e He).
      apply Qmult_le_compat_r; [|apply Qlt_le_weak, Hpe].
      rewrite <- Zle_Qle. apply rne_ge.
      apply Qle_shift_div_l; [exact Hpe|].
      rewrite <- (int_multiple a e He). exact Hax.
    + destruct (large_when_scaled x Hx ltac:(fold e; lia)) as [Hbig H53].
      fold e in Hbig, H53.
      assert (Hxpos : (0 <= x)%Q) by lra.
      rewrite (Qabs_pos x Hxpos) in Hbig.
      assert (Hm : 2 ^ 52 <= rne (x / pow2 e)).
      { apply rne_ge. apply Qle_shift_div_l; [exact Hpe|].
        rewrite <- (pow2_nonneg 52) by lia. exact Hbig. }
      rewrite Zle_Qle in Hm. rewrite (pow2_nonneg 52) in H53 by lia.
      assert (Hlt : (inject_Z a <= inject_Z (2 ^ 53))%Q) by (rewrite <- Zle_Qle; lia).
      apply Qle_trans with (inject_Z (2 ^ 53)); [exact Hlt|].
      apply Qle_trans with (inject_Z (2 ^ 52) * pow2 e)%Q; [exact H53|].
      apply Qmult_le_compat_r; [exact Hm | apply Qlt_le_weak, Hpe].
Qed.

Lemma fl64_le_int (a : Z) (x : Q) :
  0 <= a < 2 ^ 53 -> (x <= inject_Z a)%Q -> (fl64 x <= inject_Z a)%Q.
Proof.
  intros Ha Hxa.
  assert (Ha0 : (0 <= inject_Z a)%Q)
    by (change 0%Q with (inject_Z 0); rewrite <- Zle_Qle; lia).
  destruct (Qeq_dec x 0) as [Hx|Hx].
  - rewrite (fl64_zero x Hx). exact Ha0.
  - rewrite (fl64_value x Hx). cbv zeta.
    set (e := Z.max (-1074) (ilog2 x - 52)).
    pose proof (pow2_pos e) as Hpe.
    destruct (Z_le_gt_dec e 0) as [He|He].
    + rewrite (int_multiple a e He).
      apply Qmult_le_compat_r; [|apply Qlt_le_weak, Hpe].
      rewrite <- Zle_Qle. apply rne_le.
      apply Qle_shift_div_r; [exact Hpe|].
      rewrite <- (int_multiple a e He). exact Hxa.
    + destruct (Qlt_le_dec x 0) as [Hneg|Hpos].
      * assert (Hm : rne (x / pow2 e) <= 0).
        { apply rne_le. apply Qle_shift_div_r; [exact Hpe|].
          change (inject_Z 0) with 0%Q. lra. }
        rewrite Zle_Qle in Hm. change (inject_Z 0) with 0%Q in Hm.
        apply Qle_trans with 0%Q; [|exact Ha0].
        apply Qle_trans with (0 * pow2 e)%Q; [|rewrite Qmult_0_l; apply Qle_refl].
        apply Qmult_le_compat_r; [exact Hm | apply Qlt_le_weak, Hpe].
      * destruct (large_when_scaled x Hx ltac:(fold e; lia)) as [Hbig H53].
        fold e in Hbig, H53. rewrite (Qabs_pos x Hpos) in Hbig.
        assert (Hlt : (inject_Z a < inject_Z (2 ^ 53))%Q) by (rewrite <- Zlt_Qlt; lia).
        exfalso. apply (Qlt_irrefl (inject_Z a)).
        eapply Qlt_le_trans; [exact Hlt|].
        eapply Qle_trans; [exact H53|]. eapply Qle_trans; [exact Hbig | exact Hxa].
Qed.

(** An integer below [2^53] in size is a binary64 number. *)
Lemma fl64_int (a : Z) : 0 <= a < 2 ^ 53 -> (fl64 (inject_Z a) == inject_Z a)%Q.
Proof.
  intros Ha. apply Qle_antisym.
  - apply fl64_le_int; [exact Ha | apply Qle_refl].
  - apply fl64_ge_int; [exact Ha | apply Qle_refl].
Qed.



End NumberProps.

(** * Properties of the round machine *)
Module GameProps.
Import JS Game GameTerms NumberProps.

(** ** Unfolding the methods *)

(** Call-by-value unfolding of the methods down to one record per
    branch; the timer table, arithmetic and strings are left alone. *)
Ltac wsimpl :=
  cbv beta iota zeta delta
      [step run_callback _onGameClick _tooEarly _recordScore _startGame
       _beginRound _triggerFake _triggerChange _showResults _goToIntro
       _submitToLeaderboard _submitToLeaderboard_resume _clearAllTimers
       _setState _setBg _showScreen setTimeout clearTimeout elapsed
       pickColorPair
       state roundNum scores fromColor toColor changeAt _avg _submitted _myTs
       _myRankResult _waitTimer _fakeTimer _fakeRevert _pauseTimer timers
       nextTimer bg screen playerName saveBtnDisabled db_name inflight
       set_state set_roundNum set_scores set_fromColor set_toColor set_changeAt
       set_avg set_submitted set_myTs set_myRankResult set_waitTimer
       set_fakeTimer set_fakeRevert set_pauseTimer set_timers set_nextTimer
       set_bg set_screen set_playerName set_saveBtnDisabled set_db_name
       set_inflight fst snd].
Ltac wsimpl_in H :=
  cbv beta iota zeta delta
      [step run_callback _onGameClick _tooEarly _recordScore _startGame
       _beginRound _triggerFake _triggerChange _showResults _goToIntro
       _submitToLeaderboard _submitToLeaderboard_resume _clearAllTimers
       _setState _setBg _showScreen setTimeout clearTimeout elapsed
       pickColorPair
       state roundNum scores fromColor toColor changeAt _avg _submitted _myTs
       _myRankResult _waitTimer _fakeTimer _fakeRevert _pauseTimer timers
       nextTimer bg screen playerName saveBtnDisabled db_name inflight
       set_state set_roundNum set_scores set_fromColor set_toColor set_changeAt
       set_avg set_submitted set_myTs set_myRankResult set_waitTimer
       set_fakeTimer set_fakeRevert set_pauseTimer set_timers set_nextTimer
       set_bg set_screen set_playerName set_saveBtnDisabled set_db_name
       set_inflight fst snd] in H.

Lemma reachable_steps (es : list Event) :
  forall w, reachable w -> reachable (steps w es).
Proof.
  induction es as [|e es IH]; intros w Hw; [exact Hw|].
  apply (IH (step w e)). apply reach_step. exact Hw.
Qed.

(** ** Round numbers and recorded times in reachable worlds *)

Lemma cancel_lookup (o : option nat) (tm : gmap nat (Callback * Q)) (h : nat)
    (x : Callback * Q) :
  cancel o tm !! h = Some x -> tm !! h = Some x /\ o <> Some h.
Proof.
  destruct o as [i|]; simpl.
  - rewrite lookup_delete_Some. intros [Hne Hx]. split; [exact Hx|congruence].
  - intros Hx. split; [exact Hx|discriminate].
Qed.

Lemma cleared_lookup (w : World) (h : nat) (x : Callback * Q) :
  timers (_clearAllTimers w) !! h = Some x ->
  timers w !! h = Some x /\ _pauseTimer w <> Some h.
Proof.
  destruct w as [st rn sc fc tc ca av sb mt mr wt ft fr pt tm nt b scr pn sd dn fl].
  wsimpl. intros Hx.
  apply cancel_lookup in Hx as [Hx Hpt].
  apply cancel_lookup in Hx as [Hx _].
  apply cancel_lookup in Hx as [Hx _].
  apply cancel_lookup in Hx as [Hx _].
  split; assumption.
Qed.

Lemma pause_ok_tracked (w : World) : pause_ok w -> pause_tracked w.
Proof.
  intros Hp h cb d Hx. specialize (Hp h cb d Hx).
  destruct cb; first [exact I | exact (proj1 Hp)].
Qed.

Lemma cleared_no_pause (w : World) (h : nat) (cb : Callback) (d : Q) :
  pause_tracked w -> timers (_clearAllTimers w) !! h = Some (cb, d) ->
  round_callback cb = true.
Proof.
  intros Hp Hx. apply cleared_lookup in Hx as [Hx Hpt].
  specialize (Hp h cb d Hx).
  destruct cb; try reflexivity; contradiction.
Qed.

(** Only these five fields matter to [session_ok]. *)
Lemma session_ok_ext (w w' : World) :
  state w' = state w -> roundNum w' = roundNum w -> scores w' = scores w ->
  _pauseTimer w' = _pauseTimer w -> timers w' = timers w ->
  session_ok w -> session_ok w'.
Proof.
  unfold session_ok, round_ok, pause_ok.
  intros -> -> -> -> ->. exact (fun H => H).
Qed.

Lemma session_ok_fired (w : World) (h : nat) :
  session_ok w -> session_ok (set_timers (delete h (timers w)) w).
Proof.
  destruct w as [st rn sc fc tc ca av sb mt mr wt ft fr pt tm nt b scr pn sd dn fl].
  unfold session_ok, round_ok, pause_ok. wsimpl.
  intros [Hlen [Hround Hpause]]. split; [exact Hlen|]. split; [exact Hround|].
  intros h' cb d Hx. apply lookup_delete_Some in Hx as [_ Hx].
  exact (Hpause h' cb d Hx).
Qed.

Lemma beginRound_ok (o : Oracle) (w : World) :
  pause_tracked w ->
  roundNum w = Z.of_nat (length (scores w)) ->
  (length (scores w) < CFG.ROUNDS)%nat ->
  session_ok (_beginRound o w).
Proof.
  intros Hp Hrn Hlen.
  pose proof (cleared_no_pause w) as Hclr. specialize (fun h cb d => Hclr h cb d Hp).
  destruct w as [st rn sc fc tc ca av sb mt mr wt ft fr pt tm nt b scr pn sd dn fl].
  unfold session_ok, round_ok, pause_ok. wsimpl. wsimpl_in Hrn. wsimpl_in Hlen.
  wsimpl_in Hclr.
  destruct (Qltb _ _); wsimpl;
    (split; [lia|]); (split; [intros _; split; [lia|exact Hlen]|]);
    intros h cb d Hx; apply lookup_insert_Some in Hx as [[_ Hx]|[_ Hx]];
    [ injection Hx as <- _; exact I
    | specialize (Hclr h cb d Hx); destruct cb; first [exact I | discriminate Hclr]
    | injection Hx as <- _; exact I
    | specialize (Hclr h cb d Hx); destruct cb; first [exact I | discriminate Hclr] ].
Qed.

(** After [_clearAllTimers] and one [setTimeout] of a pause callback,
    that callback is the only pause callback pending. *)
Lemma pause_scheduled_ok (w : World) (h : nat) (cb cb' : Callback) (d d' : Q) :
  pause_tracked w ->
  <[nextTimer w := (cb', d')]> (timers (_clearAllTimers w)) !! h = Some (cb, d) ->
  (h = nextTimer w /\ cb = cb') \/ round_callback cb = true.
Proof.
  intros Hp Hx. apply lookup_insert_Some in Hx as [[<- Hx]|[_ Hx]].
  - left. split; [reflexivity | congruence].
  - right. exact (cleared_no_pause w h cb d Hp Hx).
Qed.

Lemma tooEarly_ok (w : World) :
  session_ok w -> state w = waiting -> session_ok (_tooEarly w).
Proof.
  intros [Hlen [Hround Hpause]] Hst.
  destruct (Hround (or_introl Hst)) as [Hrn Hlt].
  pose proof (pause_scheduled_ok w) as Hsch.
  specialize (fun h cb d => Hsch h cb RetryCb d CFG.TOO_EARLY_PAUSE (pause_ok_tracked w Hpause)).
  destruct w as [st rn sc fc tc ca av sb mt mr wt ft fr pt tm nt b scr pn sd dn fl].
  unfold session_ok, round_ok, pause_ok. wsimpl.
  wsimpl_in Hlen. wsimpl_in Hrn. wsimpl_in Hlt. wsimpl_in Hsch.
  split; [exact Hlen|]. split; [intros [H|H]; discriminate H|].
  intros h cb d Hx. destruct (Hsch h cb d Hx) as [[-> ->]|Hcb].
  - repeat split; assumption.
  - destruct cb; first [exact I | discriminate Hcb].
Qed.

Lemma recordScore_ok (ms : Z) (w : World) :
  session_ok w -> state w = ready -> session_ok (_recordScore ms w).
Proof.
  intros [Hlen [Hround Hpause]] Hst.
  destruct (Hround (or_intror Hst)) as [Hrn Hlt].
  pose proof (pause_scheduled_ok w) as Hsch.
  specialize (fun h cb d => Hsch h cb NextCb d CFG.RESULT_PAUSE (pause_ok_tracked w Hpause)).
  destruct w as [st rn sc fc tc ca av sb mt mr wt ft fr pt tm nt b scr pn sd dn fl].
  unfold session_ok, round_ok, pause_ok. wsimpl.
  wsimpl_in Hlen. wsimpl_in Hrn. wsimpl_in Hlt. wsimpl_in Hsch.
  rewrite length_app. simpl length.
  split; [lia|]. split; [intros [H|H]; discriminate H|].
  intros h cb d Hx. destruct (Hsch h cb d Hx) as [[-> ->]|Hcb].
  - repeat split; [lia].
  - destruct cb; first [exact I | discriminate Hcb].
Qed.

Lemma goToIntro_ok (w : World) : session_ok w -> session_ok (_goToIntro w).
Proof.
  intros [Hlen [Hround Hpause]].
  pose proof (cleared_no_pause w) as Hclr.
  specialize (fun h cb d => Hclr h cb d (pause_ok_tracked w Hpause)).
  destruct w as [st rn sc fc tc ca av sb mt mr wt ft fr pt tm nt b scr pn sd dn fl].
  unfold session_ok, round_ok, pause_ok. wsimpl. wsimpl_in Hlen. wsimpl_in Hclr.
  split; [exact Hlen|]. split; [intros [H|H]; discriminate H|].
  intros h cb d Hx. specialize (Hclr h cb d Hx).
  destruct cb; first [exact I | discriminate Hclr].
Qed.

Lemma run_callback_ok (w : World) (h : nat) (cb : Callback) (d : Q) (o : Oracle) :
  session_ok w -> timers w !! h = Some (cb, d) ->
  session_ok (run_callback cb o (set_timers (delete h (timers w)) w)).
Proof.
  intros Hok Hx.
  pose proof (session_ok_fired w h Hok) as Hok'.
  destruct Hok as [_ [_ Hpause]]. specialize (Hpause h cb d Hx).
  set (w' := set_timers (delete h (timers w)) w) in *.
  assert (Hst : state w' = state w) by (destruct w; reflexivity).
  assert (Hrn : roundNum w' = roundNum w) by (destruct w; reflexivity).
  assert (Hsc : scores w' = scores w) by (destruct w; reflexivity).
  clearbody w'. clear Hx.
  destruct Hok' as [Hlen [Hround Hpause']].
  destruct cb.
  - (* the flash *)
    destruct w' as [st rn sc fc tc ca av sb mt mr wt ft fr pt tm nt b scr pn sd dn fl].
    unfold session_ok, round_ok, pause_ok in *. wsimpl.
    wsimpl_in Hlen. wsimpl_in Hround. wsimpl_in Hpause'.
    destruct st; try (split; [exact Hlen|split; [exact Hround|exact Hpause']]).
    destruct fc as [c|]; try (split; [exact Hlen|split; [exact Hround|exact Hpause']]).
    wsimpl. split; [exact Hlen|]. split; [exact Hround|].
    intros h' cb d' Hx'.
    apply lookup_insert_Some in Hx' as [[_ Hx']|[_ Hx']];
      [injection Hx' as <- _; exact I|].
    apply lookup_insert_Some in Hx' as [[_ Hx']|[_ Hx']];
      [injection Hx' as <- _; exact I|].
    exact (Hpause' h' cb d' Hx').
  - (* the real change after a flash *)
    destruct w' as [st rn sc fc tc ca av sb mt mr wt ft fr pt tm nt b scr pn sd dn fl].
    unfold session_ok, round_ok, pause_ok in *. wsimpl.
    wsimpl_in Hlen. wsimpl_in Hround. wsimpl_in Hpause'.
    destruct st; try (split; [exact Hlen|split; [exact Hround|exact Hpause']]).
    wsimpl. split; [exact Hlen|]. split; [intros _; apply Hround; left; reflexivity|].
    intros h' cb d' Hx'. specialize (Hpause' h' cb d' Hx').
    destruct cb; first [exact I | destruct Hpause' as [_ [Hp _]]; discriminate Hp].
  - (* the real change *)
    destruct w' as [st rn sc fc tc ca av sb mt mr wt ft fr pt tm nt b scr pn sd dn fl].
    unfold session_ok, round_ok, pause_ok in *. wsimpl.
    wsimpl_in Hlen. wsimpl_in Hround. wsimpl_in Hpause'.
    destruct st; try (split; [exact Hlen|split; [exact Hround|exact Hpause']]).
    wsimpl. split; [exact Hlen|]. split; [intros _; apply Hround; left; reflexivity|].
    intros h' cb d' Hx'. specialize (Hpause' h' cb d' Hx').
    destruct cb; first [exact I | destruct Hpause' as [_ [Hp _]]; discriminate Hp].
  - (* the end of the flash *)
    apply (session_ok_ext w');
      try (destruct w' as [st ? ? ? ? ? ? ? ? ? ? ? ? ? ? ? ? ? ? ? ? ?];
           destruct st; reflexivity).
    split; [exact Hlen|split; [exact Hround|exact Hpause']].
  - (* the retry *)
    destruct Hpause as [_ [_ [Hrn' Hlt]]].
    unfold run_callback. apply beginRound_ok.
    + intros h' cb d' Hx'.
      assert (Hx2 : timers w' !! h' = Some (cb, d')) by (destruct w'; exact Hx').
      specialize (Hpause' h' cb d' Hx2).
      destruct cb; first [exact I | destruct w'; exact (proj1 Hpause')].
    + rewrite <- Hrn, <- Hsc in Hrn'. destruct w'. wsimpl. wsimpl_in Hrn'. lia.
    + rewrite <- Hsc in Hlt. destruct w'. exact Hlt.
  - (* the continuation *)
    destruct Hpause as [_ [_ Hrn']].
    unfold run_callback.
    destruct (Nat.leb_spec CFG.ROUNDS (length (scores w'))) as [Hdone|Hmore].
    + apply (session_ok_ext w');
        try (destruct w' as [? ? ? ? ? ? ? ? ? ? ? ? ? ? ? ? ? ? ? ? [x|] ?];
             wsimpl; try destruct (String.eqb x ""); reflexivity).
      split; [exact Hlen|split; [exact Hround|exact Hpause']].
    + apply beginRound_ok.
      * apply pause_ok_tracked. exact Hpause'.
      * rewrite Hrn, Hsc. exact Hrn'.
      * exact Hmore.
Qed.

Lemma session_ok_step (w : World) (e : Event) :
  session_ok w -> session_ok (step w e).
Proof.
  intros Hok. destruct e as [o|o|h o| | |s|k r].
  - (* start *)
    unfold step, _startGame. apply beginRound_ok.
    + destruct Hok as [_ [_ Hpause]]. apply pause_ok_tracked in Hpause.
      intros h cb d Hx.
      assert (Hx2 : timers w !! h = Some (cb, d)) by (destruct w; exact Hx).
      specialize (Hpause h cb d Hx2).
      destruct cb; first [exact I | destruct w; exact Hpause].
    + destruct w; reflexivity.
    + destruct w; wsimpl; unfold CFG.ROUNDS; simpl; lia.
  - (* click *)
    unfold step, _onGameClick.
    destruct (state w) eqn:Hst;
      [ exact Hok
      | apply tooEarly_ok; assumption
      | apply recordScore_ok; assumption
      | exact Hok ].
  - (* a timer fires *)
    unfold step.
    destruct (timers w !! h) as [[cb d]|] eqn:Hx; [|exact Hok].
    exact (run_callback_ok w h cb d o Hok Hx).
  - apply goToIntro_ok. exact Hok.
  - apply (session_ok_ext w); try exact Hok;
      destruct w as [? ? ? ? ? ? ? [|] ? ? ? ? ? ? ? ? ? ? ? ? ? ?]; wsimpl;
      try destruct (String.eqb _ _); reflexivity.
  - apply (session_ok_ext w); try exact Hok; destruct w; reflexivity.
  - apply (session_ok_ext w); try exact Hok;
      destruct w as [? ? ? ? ? ? ? ? ? ? ? ? ? ? ? ? ? ? ? ? ? fl]; wsimpl;
      destruct (fl !! k); try destruct r; reflexivity.
Qed.

Lemma session_ok_init (saved : option string) : session_ok (init saved).
Proof.
  unfold session_ok, round_ok, pause_ok. simpl.
  split; [unfold CFG.ROUNDS; lia|]. split; [intros [H|H]; discriminate H|].
  intros h cb d Hx. rewrite lookup_empty in Hx. discriminate Hx.
Qed.

Lemma reachable_session_ok (w : World) : reachable w -> session_ok w.
Proof.
  induction 1 as [saved|w e _ IH]; [apply session_ok_init | apply session_ok_step, IH].
Qed.

(** The recorded times never outnumber the rounds of a session. *)
Lemma times_bounded (w : World) :
  reachable w -> (length (scores w) <= CFG.ROUNDS)%nat.
Proof. intros Hreach. exact (proj1 (reachable_session_ok w Hreach)). Qed.

(** ** An early click *)

(** C4. In state [waiting] a click moves to [paused], leaves the
    recorded times and the round number as they are, and leaves one
    pending timer behind it, whose firing begins a round with the same
    round number and the same recorded times. *)
Theorem early_click_retries_same_round (w : World) (o o' : Oracle)
    (Hwaiting : state w = waiting) :
  let w1 := step w (GameClick o) in
  state w1 = paused /\ scores w1 = scores w /\ roundNum w1 = roundNum w /\
  exists h,
    _pauseTimer w1 = Some h /\
    timers w1 !! h = Some (RetryCb, CFG.TOO_EARLY_PAUSE) /\
    let w2 := step w1 (TimerFires h o') in
    state w2 = waiting /\ roundNum w2 = roundNum w /\ scores w2 = scores w.
Proof.
  destruct w as [st rn sc fc tc ca av sb mt mr wt ft fr pt tm nt b scr pn sd dn fl].
  wsimpl_in Hwaiting. subst st. wsimpl.
  split; [reflexivity|]. split; [reflexivity|]. split; [reflexivity|].
  exists nt.
  split; [reflexivity|]. split; [apply lookup_insert_eq|].
  rewrite lookup_insert_eq.
  destruct (Qltb _ _); (split; [reflexivity|]); (split; [lia | reflexivity]).
Qed.

Lemma early_click_retries_same_round_witness :
  let w := steps (init None) [StartClick (plain_at 0)] in
  let w1 := step w (GameClick (plain_at (500 # 1))) in
  state w = waiting /\ state w1 = paused /\ scores w1 = [] /\ roundNum w1 = 1.
Proof.
  intros w w1.
  assert (Hw : state w = waiting) by reflexivity.
  destruct (early_click_retries_same_round w (plain_at (500 # 1)) (plain_at (2000 # 1)) Hw)
    as [H1 [H2 [H3 _]]].
  exact (conj Hw (conj H1 (conj H2 H3))).
Defined.

(** ** A click after the change *)



(** The difference is rounded before [Math.round] sees it: with the
    change stamped at the number nearest to 2101.4 and the click at the
    number nearest to 6201.9, the difference of the two is just below
    4100.5, the binary64 difference is 4100.5, and 4101 is recorded. *)
Lemma click_on_a_half_millisecond :
  let t := fl64 (21014 # 10) in
  let o := plain_at (fl64 (62019 # 10)) in
  (now o - t < 41005 # 10)%Q /\
  (num_sub (now o) t == 41005 # 10)%Q /\
  Math_round (num_sub (now o) t) = 4101.
Proof. vm_compute. repeat split; reflexivity. Qed.

(** ** The session average *)

Lemma Math_round_quotient (s : Z) (n : positive) :
  Math_round (inject_Z s / inject_Z (Z.pos n)) = (2 * s + Z.pos n) / (2 * Z.pos n).
Proof.
  unfold Math_round, Qfloor, Qplus, Qdiv, Qmult, Qinv, inject_Z. simpl.
  f_equal; lia.
Qed.

(** C6. For a non-empty sequence of recorded times the average is the
    integer [a] nearest to their mean, halves rounded up: with [n]
    times of sum [s], [a - 1/2 <= s/n < a + 1/2]. The times 180, 150,
    220, 190, 160 average to 180, and the session that records them
    shows its results after the fifth round, not after the fourth. *)
Theorem average_spec (times : list Z) (Hne : times <> []) :
  (exists a, average times = Some a /\
     let n := Z.of_nat (length times) in
     n * (2 * a - 1) <= 2 * sum times < n * (2 * a + 1)) /\
  average [180; 150; 220; 190; 160] = Some 180 /\
  (let w4 := steps (init None) scenarioA_four_rounds in
   let w5 := steps w4 scenarioA_fifth_round in
   scores w4 = [180; 150; 220; 190] /\ screen w4 = game /\ state w4 = waiting /\
   scores w5 = [180; 150; 220; 190; 160] /\ screen w5 = results /\
   _avg w5 = Some 180).
Proof.
  split; [|split; [reflexivity | vm_compute; repeat split; reflexivity]].
  destruct times as [|x l]; [contradiction|].
  eexists. split; [reflexivity|].
  cbv zeta. set (s := sum (x :: l)).
  replace (Z.of_nat (length (x :: l))) with (Z.pos (Pos.of_succ_nat (length l)))
    by (simpl length; lia).
  rewrite Math_round_quotient.
  set (n := Z.pos (Pos.of_succ_nat (length l))).
  assert (Hn : 0 < 2 * n) by (subst n; lia).
  pose proof (Z.div_mod (2 * s + n) (2 * n) ltac:(lia)) as Hdm.
  pose proof (Z.mod_pos_bound (2 * s + n) (2 * n) Hn) as Hmod.
  nia.
Qed.

Lemma average_spec_witness :
  exists a, average [200; 201] = Some a /\ 2 * (2 * a - 1) <= 2 * 401 < 2 * (2 * a + 1).
Proof.
  assert (Hne : [200; 201] <> []) by discriminate.
  exact (proj1 (average_spec [200; 201] Hne)).
Defined.

(** ** The stamp of the real change *)

(** Case analysis on everything a step branches on: the state, the
    timer looked up, flags, optional values and boolean tests. *)
Ltac step_case :=
  match goal with
  | |- context [match ?x with _ => _ end] =>
      lazymatch x with
      | context [match _ with _ => _ end] => fail
      | _ => idtac
      end;
      lazymatch type of x with
      | State => destruct x
      | Callback => destruct x
      | bool => destruct x
      | option (Callback * Q) => destruct x as [[[] ?]|]
      | option _ => destruct x
      end
  end.

Ltac step_cases := wsimpl; repeat (step_case; wsimpl).

Lemma step_enters_ready (w : World) (e : Event) :
  state (step w e) = ready ->
  (state w = ready /\ changeAt (step w e) = changeAt w) \/
  is_Some (changeAt (step w e)).
Proof.
  destruct w as [st rn sc fc tc ca av sb mt mr wt ft fr pt tm nt b scr pn sd dn fl].
  destruct e as [o|o|h o| | |s|k r]; step_cases; intros H;
    first [ discriminate H
          | left; split; [first [exact H | reflexivity] | reflexivity]
          | right; eexists; reflexivity ].
Qed.

Lemma step_writes_changeAt (w : World) (e : Event) :
  changeAt (step w e) = changeAt w \/
  (state w = waiting /\ state (step w e) = ready /\
   exists h o, e = TimerFires h o /\ changeAt (step w e) = Some (now o)).
Proof.
  destruct w as [st rn sc fc tc ca av sb mt mr wt ft fr pt tm nt b scr pn sd dn fl].
  destruct e as [o|o|h o| | |s|k r]; step_cases;
    first [ left; reflexivity
          | right; split; [reflexivity|]; split; [reflexivity|];
            eexists; eexists; split; reflexivity ].
Qed.

Lemma step_keeps_changeAt (w : World) (e : Event) :
  is_Some (changeAt w) -> is_Some (changeAt (step w e)).
Proof.
  intros Hset.
  destruct (step_writes_changeAt w e) as [Hsame|[_ [_ [h [o [_ Hnew]]]]]].
  - rewrite Hsame. exact Hset.
  - rewrite Hnew. eexists. reflexivity.
Qed.

Lemma ready_has_changeAt (w : World) :
  reachable w -> state w = ready -> is_Some (changeAt w).
Proof.
  induction 1 as [saved|w e Hw IH]; intros Hready; [discriminate|].
  destruct (step_enters_ready w e Hready) as [[Hwas Hsame]|Hset]; [|exact Hset].
  rewrite Hsame. apply IH, Hwas.
Qed.

Lemma step_changeAt (w : World) (e : Event) :
  changeAt (step w e) =
    match real_change w e with Some t => Some t | None => changeAt w end.
Proof.
  unfold real_change.
  destruct w as [st rn sc fc tc ca av sb mt mr wt ft fr pt tm nt b scr pn sd dn fl].
  destruct e as [o|o|h o| | |s|k r]; step_cases; reflexivity.
Qed.

Lemma real_change_moves (w : World) (e : Event) :
  is_Some (real_change w e) -> state w = waiting /\ state (step w e) = ready.
Proof.
  unfold real_change.
  destruct w as [st rn sc fc tc ca av sb mt mr wt ft fr pt tm nt b scr pn sd dn fl].
  destruct e as [o|o|h o| | |s|k r]; step_cases; intros [t Ht];
    first [discriminate Ht | split; reflexivity].
Qed.

Lemma ready_after_change (w : World) (e : Event) :
  state (step w e) = ready -> state w = ready \/ is_Some (real_change w e).
Proof.
  unfold real_change.
  destruct w as [st rn sc fc tc ca av sb mt mr wt ft fr pt tm nt b scr pn sd dn fl].
  destruct e as [o|o|h o| | |s|k r]; step_cases; intros H;
    first [ discriminate H
          | left; first [exact H | reflexivity]
          | right; eexists; reflexivity ].
Qed.

Lemma steps_changeAt (es : list Event) :
  forall w, changeAt (steps w es) = last_change w es (changeAt w).
Proof.
  induction es as [|e es IH]; intros w; [reflexivity|].
  change (steps w (e :: es)) with (steps (step w e) es).
  rewrite IH, step_changeAt. reflexivity.
Qed.

(** C7, as the code has it. In every reachable state (the world after
    any events from page load) with [state == ready], [changeAt] is
    set. It is unset when the page loads; a step writes it exactly when
    a timer of the real change fires in [waiting], which is also the
    only way into [ready], and then it takes the clock reading of that
    very event; every other step leaves it as it is. So at all times
    [changeAt] holds the stamp of the latest real change of the run,
    in [ready] and in the paused, waiting and idle states after it. *)
Theorem changeAt_set_when_ready (saved : option string) (es : list Event)
    (e : Event) :
  let w := steps (init saved) es in
  (state w = ready -> is_Some (changeAt w)) /\
  changeAt (init saved) = None /\
  changeAt w = last_change (init saved) es None /\
  changeAt (step w e) =
    match real_change w e with Some t => Some t | None => changeAt w end /\
  (is_Some (real_change w e) -> state w = waiting /\ state (step w e) = ready) /\
  (state (step w e) = ready -> state w = ready \/ is_Some (real_change w e)).
Proof.
  intros w.
  split; [apply ready_has_changeAt, reachable_steps, reach_init|].
  split; [reflexivity|].
  split; [exact (steps_changeAt es (init saved))|].
  split; [apply step_changeAt|].
  split; [apply real_change_moves | apply ready_after_change].
Qed.

Lemma changeAt_set_when_ready_witness :
  let es := [ StartClick (plain_at 0); TimerFires 1 (plain_at (1000 # 1));
              GameClick (plain_at (1180 # 1)); TimerFires 2 (plain_at (2280 # 1));
              TimerFires 3 (plain_at (5280 # 1)) ] in
  let w := steps (init None) es in
  state w = ready /\ changeAt w = Some (5280 # 1).
Proof.
  intros es w.
  destruct (changeAt_set_when_ready None es PlayAgainClick) as [_ [_ [Hlast _]]].
  split; [vm_compute; reflexivity|].
  fold w in Hlast. rewrite Hlast. vm_compute. reflexivity.
Defined.

(** C7, as stated, fails: after a scored click the machine is
    [paused] and [changeAt] still holds the stamp of the change. *)
Lemma changeAt_set_while_paused :
  let w := steps (init None) one_scored_click in
  reachable w /\ state w = paused /\ changeAt w = Some (1000 # 1) /\
  ~ (is_Some (changeAt w) <-> state w = ready).
Proof.
  intros w.
  split; [apply reachable_steps, reach_init|].
  split; [reflexivity|]. split; [reflexivity|].
  intros [Hset _].
  assert (Hs : state w = ready) by (apply Hset; eexists; reflexivity).
  discriminate Hs.
Qed.

(** ** Timer callbacks *)

(** C8, as stated, fails: the callback [_recordScore] scheduled fires
    while the state is [paused], not [waiting], and begins the next
    round. *)
Lemma pause_callback_acts_when_paused :
  let w := steps (init None) one_scored_click in
  reachable w /\ state w = paused /\
  timers w !! 2%nat = Some (NextCb, CFG.RESULT_PAUSE) /\
  state (step w (TimerFires 2 (plain_at (2280 # 1)))) = waiting /\
  step w (TimerFires 2 (plain_at (2280 # 1))) <> w.
Proof.
  intros w.
  split; [apply reachable_steps, reach_init|].
  split; [reflexivity|]. split; [reflexivity|]. split; [reflexivity|].
  intros Heq. apply (f_equal state) in Heq. discriminate Heq.
Qed.

(** ** Submitting to the leaderboard *)

Lemma save_when_submitted (w : World) :
  _submitted w = true -> step w SaveName = w.
Proof.
  destruct w as [st rn sc fc tc ca av sb mt mr wt ft fr pt tm nt b scr pn sd dn fl].
  intros Hsb. wsimpl_in Hsb. subst sb. reflexivity.
Qed.

Lemma step_keeps_submitted (w : World) (e : Event) :
  finalizes w e = false -> _submitted w = true -> _submitted (step w e) = true.
Proof.
  destruct w as [st rn sc fc tc ca av sb mt mr wt ft fr pt tm nt b scr pn sd dn fl].
  unfold finalizes.
  destruct e as [o|o|h o| | |s|k r]; step_cases; intros Hfin Hsb;
    first [ exact Hsb | reflexivity | discriminate Hfin | discriminate Hsb ].
Qed.

Lemma steps_keep_submitted (es : list Event) :
  forall w, within_session w es -> _submitted w = true ->
            _submitted (steps w es) = true.
Proof.
  induction es as [|e es IH]; intros w Hin Hsb; [exact Hsb|].
  destruct Hin as [Hfin Hin].
  apply (IH (step w e) Hin). apply step_keeps_submitted; assumption.
Qed.

(** C10. The first call of the submission action with a non-empty
    (trimmed) name sets [_submitted], disables the save button and
    leaves the store call in flight, all before that call settles.
    From then on, through any events that do not bring up the results
    of a later session, the flag stays set and the action does nothing;
    so it is when the store call settles with no rank. *)
Theorem submit_once (w : World) (es : list Event)
    (Hfresh : _submitted w = false) (Hname : trim (playerName w) <> "") :
  let w1 := step w SaveName in
  _submitted w1 = true /\ saveBtnDisabled w1 = true /\
  inflight w1 = inflight w ++ [(trim (playerName w), _avg w)] /\
  (forall k, let w2 := step w1 (SubmitSettles k None) in
             _submitted w2 = true /\ step w2 SaveName = w2) /\
  (within_session w1 es ->
     _submitted (steps w1 es) = true /\
     step (steps w1 es) SaveName = steps w1 es).
Proof.
  intros w1.
  assert (H1 : _submitted w1 = true /\ saveBtnDisabled w1 = true /\
               inflight w1 = inflight w ++ [(trim (playerName w), _avg w)]).
  { subst w1.
    destruct w as [st rn sc fc tc ca av sb mt mr wt ft fr pt tm nt b scr pn sd dn fl].
    wsimpl_in Hfresh. wsimpl_in Hname. subst sb. wsimpl.
    apply String.eqb_neq in Hname. rewrite Hname.
    repeat split; reflexivity. }
  destruct H1 as [Hsb [Hdis Hfl]].
  split; [exact Hsb|]. split; [exact Hdis|]. split; [exact Hfl|]. split.
  - intros k w2.
    assert (Hsb2 : _submitted w2 = true)
      by (apply step_keeps_submitted; [reflexivity | exact Hsb]).
    split; [exact Hsb2 | apply save_when_submitted, Hsb2].
  - intros Hin.
    assert (Hsb2 : _submitted (steps w1 es) = true)
      by (apply steps_keep_submitted; assumption).
    split; [exact Hsb2 | apply save_when_submitted, Hsb2].
Qed.

(** After scenario A the player saves as "ann" while the store is out
    of reach: the call settles with no rank, and saving again, under
    that name or another, does nothing. *)
Lemma submit_once_witness :
  let w1 := step results_with_name SaveName in
  let es := [ SubmitSettles 0 (store_answer Backends.Offline tt "ann" 180);
              SaveName; TypeName "bob"; SaveName ] in
  inflight w1 = [("ann", Some 180)] /\
  inflight (steps w1 es) = [] /\ _myRankResult (steps w1 es) = None /\
  step (steps w1 es) SaveName = steps w1 es.
Proof.
  intros w1 es.
  assert (Hfresh : _submitted results_with_name = false) by reflexivity.
  assert (Hname : trim (playerName results_with_name) <> "") by discriminate.
  destruct (submit_once results_with_name es Hfresh Hname) as [_ [_ [Hfl [_ Hes]]]].
  assert (Hin : within_session w1 es) by (vm_compute; repeat split; reflexivity).
  exact (conj Hfl (conj eq_refl (conj eq_refl (proj2 (Hes Hin))))).
Defined.

End GameProps.

(** * Further properties of the leaderboard *)
Module LeaderboardMore.
Import Leaderboard Backends LeaderboardTerms LeaderboardMoreTerms LeaderboardProps.

(** ** Shape of the ranks *)

Lemma withRanks_go_length {A} (score_of : A -> Z) (a rest : list A) :
  forall r i, length (withRanks_go score_of a r i rest) = length rest.
Proof.
  induction rest as [|e rest IH]; intros r i; simpl; [reflexivity|].
  f_equal. apply IH.
Qed.

Lemma withRanks_go_bounds {A} (score_of : A -> Z) (a : list A) :
  forall (rest : list A) (r0 i k : nat) (r : Ranked A),
    (r0 <= i + 1)%nat ->
    withRanks_go score_of a r0 i rest !! k = Some r ->
    (r0 <= rank r <= i + k + 1)%nat.
Proof.
  induction rest as [|e rest IH]; intros r0 i k r Hr0 Hk; [discriminate|].
  destruct k as [|k]; simpl in Hk.
  - injection Hk as <-. simpl. destruct (_ && _); lia.
  - apply IH in Hk; [|destruct (_ && _); lia].
    destruct ((0 <? i)%nat && differs_from_previous score_of a e i); lia.
Qed.

Lemma withRanks_go_ascend {A} (score_of : A -> Z) (a : list A) :
  forall (rest : list A) (r0 i : nat),
    (r0 <= i + 1)%nat -> ranks_ascend (withRanks_go score_of a r0 i rest).
Proof.
  induction rest as [|e rest IH]; intros r0 i Hr0 k r r' Hk Hk'; [discriminate|].
  destruct k as [|k]; simpl in Hk, Hk'.
  - injection Hk as <-. simpl.
    apply withRanks_go_bounds in Hk'; [lia|].
    destruct (_ && _); lia.
  - refine (IH _ (S i) _ k r r' Hk Hk'). destruct (_ && _); lia.
Qed.

(** X1. Whatever the list, [withRanks] returns as many entries as it
    was given, every rank lies between 1 and the entry's 1-based
    position, and the ranks never go down along the list. *)
Theorem withRanks_shape {A} (score_of : A -> Z) (docs : list A) :
  length (withRanks score_of docs) = length docs /\
  ranks_in_place (withRanks score_of docs) /\
  ranks_ascend (withRanks score_of docs).
Proof.
  unfold withRanks. split; [apply withRanks_go_length|]. split.
  - intros i r Hi. apply withRanks_go_bounds in Hi; [simpl in Hi; lia | simpl; lia].
  - apply withRanks_go_ascend. simpl. lia.
Qed.

(** ** Ranking and cutting *)

Lemma withRanks_go_take {A} (score_of : A -> Z) :
  forall (rest a a' : list A) (r i n : nat),
    (forall j, (j + 1 < i + n)%nat -> a !! j = a' !! j) ->
    take n (withRanks_go score_of a r i rest)
    = withRanks_go score_of a' r i (take n rest).
Proof.
  induction rest as [|e rest IH]; intros a a' r i n Hsame.
  - destruct n; reflexivity.
  - destruct n as [|n]; [reflexivity|]. simpl.
    assert (Hd : (0 <? i)%nat && differs_from_previous score_of a e i
                 = (0 <? i)%nat && differs_from_previous score_of a' e i).
    { destruct i as [|i]; [reflexivity|]. simpl. unfold differs_from_previous.
      simpl. rewrite Nat.sub_0_r. rewrite (Hsame i) by lia. reflexivity. }
    rewrite Hd. f_equal. apply IH. intros j Hj. apply Hsame. lia.
Qed.

(** X2. Ranking and cutting commute: the first [n] entries of the
    ranked list are the ranked first [n] entries. What [getTop(n)] shows
    carries the ranks of the whole window. *)
Theorem withRanks_take {A} (score_of : A -> Z) (docs : list A) (n : nat) :
  take n (withRanks score_of docs) = withRanks score_of (take n docs).
Proof.
  unfold withRanks. apply withRanks_go_take.
  intros j Hj. symmetry. apply lookup_take_lt. lia.
Qed.

(** ** Ties *)

(** In an ascending list the rank is 1 + the number of strictly smaller
    scores. *)
Lemma rank_counts_smaller {A} (score_of : A -> Z) (docs : list A) :
  ascending score_of docs ->
  forall (i : nat) (e : A),
    docs !! i = Some e ->
    rank_at (withRanks score_of docs) i =
      Some (S (length (filter (fun d => score_of d < score_of e) docs))).
Proof.
  intros Hasc. unfold withRanks.
  induction i as [|i IH]; intros e He.
  - rewrite (withRanks_go_lookup score_of _ _ 1%nat 0%nat 0%nat e He). simpl.
    rewrite (count_below_prefix score_of (score_of e) docs 0%nat); [reflexivity| |lia].
    intros j x Hx. pose proof (Hasc 0%nat j e x ltac:(lia) He Hx). lia.
  - destruct (docs !! i) as [p|] eqn:Hp.
    2:{ apply lookup_ge_None in Hp. apply lookup_lt_Some in He. lia. }
    rewrite (withRanks_go_lookup score_of _ _ 1%nat 0%nat (S i) e He).
    simpl. unfold differs_from_previous. simpl. rewrite Nat.sub_0_r, Hp.
    pose proof (Hasc i (S i) p e ltac:(lia) Hp He) as Hpe.
    destruct (Z.eqb_spec (score_of e) (score_of p)) as [Heq|Hneq]; simpl.
    + rewrite (IH p eq_refl). rewrite Heq. reflexivity.
    + f_equal.
      rewrite (count_below_prefix score_of (score_of e) docs (S i)); [lia| |].
      * intros j x Hx. split.
        -- intros Hj. pose proof (Hasc j i x p ltac:(lia) Hx Hp). lia.
        -- intros Hxe. destruct (Nat.lt_ge_cases j (S i)) as [Hj|Hj]; [exact Hj|].
           pose proof (Hasc (S i) j e x Hj He Hx). lia.
      * apply lookup_lt_Some in He. lia.
Qed.

Lemma count_below_mono {A} (score_of : A -> Z) (t t' : Z) (l : list A) :
  t <= t' ->
  (length (filter (fun d => (score_of d < t)%Z) l)
   <= length (filter (fun d => (score_of d < t')%Z) l))%nat.
Proof.
  intros Htt. induction l as [|x l IH]; [reflexivity|].
  rewrite !filter_cons.
  destruct (decide (score_of x < t)); destruct (decide (score_of x < t'));
    simpl; lia.
Qed.

Lemma count_below_strict {A} (score_of : A -> Z) (t t' : Z) (l : list A) (x : A) :
  x ∈ l -> t <= score_of x < t' ->
  (length (filter (fun d => (score_of d < t)%Z) l)
   < length (filter (fun d => (score_of d < t')%Z) l))%nat.
Proof.
  intros Hin Hx. induction l as [|y l IH]; [inversion Hin|].
  rewrite !filter_cons.
  apply elem_of_cons in Hin as [<-|Hin].
  - pose proof (count_below_mono score_of t t' l ltac:(lia)).
    destruct (decide (score_of x < t)); destruct (decide (score_of x < t'));
      simpl; lia.
  - specialize (IH Hin).
    destruct (decide (score_of y < t)); destruct (decide (score_of y < t'));
      simpl; lia.
Qed.

(** X3. In a list ascending by score, two entries get the same rank
    exactly when they have the same score, and the entry with the
    smaller score gets the smaller rank. *)
Theorem same_rank_iff_same_score {A} (score_of : A -> Z) (docs : list A)
    (i j : nat) (e e' : A)
    (Hasc : ascending score_of docs)
    (Hi : docs !! i = Some e) (Hj : docs !! j = Some e') :
  exists r r',
    rank_at (withRanks score_of docs) i = Some r /\
    rank_at (withRanks score_of docs) j = Some r' /\
    (r = r' <-> score_of e = score_of e') /\
    ((r < r')%nat <-> score_of e < score_of e').
Proof.
  eexists. eexists.
  split; [exact (rank_counts_smaller score_of docs Hasc i e Hi)|].
  split; [exact (rank_counts_smaller score_of docs Hasc j e' Hj)|].
  assert (Hin : e ∈ docs) by (apply list_elem_of_lookup; eauto).
  assert (Hin' : e' ∈ docs) by (apply list_elem_of_lookup; eauto).
  destruct (Z.lt_trichotomy (score_of e) (score_of e')) as [Hlt|[Heq|Hgt]].
  - pose proof (count_below_strict score_of (score_of e) (score_of e') docs e Hin
                  ltac:(lia)). lia.
  - rewrite Heq. lia.
  - pose proof (count_below_strict score_of (score_of e') (score_of e) docs e' Hin'
                  ltac:(lia)). lia.
Qed.

Lemma same_rank_iff_same_score_witness :
  let docs := map entry_of_score [10; 10; 20; 30] in
  exists r r',
    rank_at (withRanks e_score docs) 1 = Some r /\
    rank_at (withRanks e_score docs) 2 = Some r' /\
    (r = r' <-> 10 = 20) /\ ((r < r')%nat <-> 10 < 20).
Proof.
  intros docs.
  assert (Hasc : ascending e_score docs).
  { intros i j x y Hij Hi Hj.
    destruct i as [|[|[|[|i]]]]; destruct j as [|[|[|[|j]]]];
      simpl in Hi, Hj; try discriminate; try lia;
      injection Hi as <-; injection Hj as <-; simpl; lia. }
  exact (same_rank_iff_same_score e_score docs 1 2
           (entry_of_score 10) (entry_of_score 20) Hasc eq_refl eq_refl).
Defined.

(** ** What [getTop] hands to the page *)

Ltac on_collection B :=
  match goal with
  | |- context [respond B (ReqCollection "scores") ?w0] =>
      destruct (respond B (ReqCollection "scores") w0) as [[c|e0] wc] eqn:Hcoll;
      run_simpl
  end.

Ltac on_get B :=
  match goal with
  | |- context [respond B (ReqGet ?c0 "score" SIZE) ?w0] =>
      destruct (respond B (ReqGet c0 "score" SIZE) w0) as [[snap|e1] wg] eqn:Hget;
      run_simpl
  end.

Ltac on_add B :=
  match goal with
  | |- context [respond B (ReqAdd ?c0 ?d0) ?w0] =>
      destruct (respond B (ReqAdd c0 d0) w0) as [[ref|e2] wa] eqn:Hadd;
      run_simpl
  end.

Lemma ranks_in_place_take {A} (l : list (Ranked A)) (n : nat) :
  ranks_in_place l -> ranks_in_place (take n l).
Proof.
  intros Hl i r Hi. apply lookup_take_Some in Hi as [Hi _]. exact (Hl i r Hi).
Qed.

Lemma ranks_ascend_take {A} (l : list (Ranked A)) (n : nat) :
  ranks_ascend l -> ranks_ascend (take n l).
Proof.
  intros Hl i r r' Hi Hi'.
  apply lookup_take_Some in Hi as [Hi _]. apply lookup_take_Some in Hi' as [Hi' _].
  exact (Hl i r r' Hi Hi').
Qed.

(** X4. Whatever the backend does, [getTop(n)] returns a list of at
    most [n] rows in which every rank lies between 1 and the row's
    1-based position and the ranks never go down. *)
Theorem getTop_shape (B : backend) (w : World B) (s : ModState) (n : nat) :
  exists top,
    res (run B (getTop n s) w) = Returned top /\
    (length top <= n)%nat /\ ranks_in_place top /\ ranks_ascend top.
Proof.
  assert (Hempty : forall A, @ranks_in_place A [] /\ @ranks_ascend A []).
  { intros A. split; [intros i r Hi | intros i r r' Hi]; discriminate Hi. }
  assert (Hfull : forall snap,
    (length (take n (withRanks e_score (map with_ts snap))) <= n)%nat /\
    ranks_in_place (take n (withRanks e_score (map with_ts snap))) /\
    ranks_ascend (take n (withRanks e_score (map with_ts snap)))).
  { intros snap. destruct (withRanks_shape e_score (map with_ts snap)) as [_ [H1 H2]].
    split; [rewrite length_take; lia|].
    split; [apply ranks_in_place_take, H1 | apply ranks_ascend_take, H2]. }
  unfold getTop.
  destruct s as [c|]; run_simpl; [|on_collection B]; try on_get B;
    eexists; (split; [reflexivity|]);
    first [ apply Hfull | split; [simpl; lia | apply Hempty] ].
Qed.

(** ** Ranks stay on the board *)

Lemma count_le_length {A} (f : A -> bool) (l : list A) :
  (length (List.filter f l) <= length l)%nat.
Proof.
  induction l as [|x l IH]; simpl; [lia|]. destruct (f x); simpl; lia.
Qed.

Lemma count_lt_length {A} (f : A -> bool) (l : list A) (k : nat) (x : A) :
  l !! k = Some x -> f x = false -> (length (List.filter f l) < length l)%nat.
Proof.
  revert k. induction l as [|y l IH]; intros k Hk Hx; [discriminate|].
  destruct k as [|k]; simpl in Hk |- *.
  - injection Hk as ->. rewrite Hx. pose proof (count_le_length f l). lia.
  - specialize (IH k Hk Hx). destruct (f y); simpl; lia.
Qed.

Lemma MemStore_keeps_limit : keeps_limit MemStore.
Proof.
  intros c f n w. simpl. rewrite length_take. lia.
Qed.

(** X5. On a backend that honours [limit], a rank [peek] returns lies
    between 1 and [SIZE]: the preview never places a score below the
    last place of a full board. *)
Theorem peek_rank_on_board (B : backend) (w : World B) (s : ModState) (sc : Z)
    (Hlimit : keeps_limit B) :
  match res (run B (peek sc s) w) with
  | Returned (Some r) => (1 <= r_rank r <= SIZE)%nat
  | Returned None => True
  | Thrown _ => False
  end.
Proof.
  unfold peek, last_score.
  destruct s as [c|]; run_simpl; [|on_collection B; [|exact I]];
    match goal with
    | |- context [respond B (ReqGet ?c0 _ _) ?w0] =>
        pose proof (Hlimit c0 "score"%string SIZE w0) as Hl
    end;
    (on_get B; [|exact I]); simpl in Hl;
    rewrite <- (length_map data) in Hl;
    (destruct (Nat.leb_spec SIZE (length (map data snap))) as [Hfull|Hroom]; run_simpl;
     [ destruct (map data snap !! (length (map data snap) - 1)%nat) as [d|] eqn:Hlast;
       run_simpl; [|exact I];
       destruct (Z.gtb_spec sc (score d)) as [Hworse|Hin]; run_simpl; [exact I|];
       pose proof (count_lt_length (fun d => score d <? sc) (map data snap) _ d Hlast
                     ltac:(apply Z.ltb_ge; lia))
     | pose proof (count_le_length (fun d => score d <? sc) (map data snap)) ]);
    cbn [r_rank]; lia.
Qed.

Lemma peek_rank_on_board_witness :
  match res (run MemStore (peek 300 None) (mem_of_scores (repeat 300 100))) with
  | Returned (Some r) => (1 <= r_rank r <= SIZE)%nat
  | Returned None => True
  | Thrown _ => False
  end.
Proof.
  exact (peek_rank_on_board MemStore (mem_of_scores (repeat 300 100)) None 300
           MemStore_keeps_limit).
Defined.

(** X6. When the add and the second query succeed, the query honours
    [limit], and the document it returns under the new id carries the
    submitted score: a rank [submit] returns lies between 1 and the
    number of entries in the window, hence within [SIZE], and comes with
    the new id; and [submit] returns [null] only if the new id is not in
    the window. *)
Theorem submit_rank_on_board (B : backend) (w w1 w2 : World B) (s : ModState)
    (nm : string) (sc : Z) (c : CollectionRef) (ref : DocumentReference)
    (snap : list QueryDocumentSnapshot)
    (Hcol : res (run B (col s) w) = Returned c)
    (Hadd : respond B (ReqAdd c {| new_name := nm; new_score := sc |})
              (world_after (run B (col s) w)) = (Resolved ref, w1))
    (Hget : respond B (ReqGet c "score" SIZE) w1 = (Resolved snap, w2))
    (Hlimit : (length snap <= SIZE)%nat)
    (Hstored : forall q, q ∈ snap -> id q = ref_id ref -> score (data q) = sc) :
  match res (run B (submit nm sc s) w) with
  | Returned (Some r) =>
      (1 <= r_rank r <= length snap)%nat /\ (r_rank r <= SIZE)%nat /\
      r_ts r = Some (ref_id ref)
  | Returned None => ref_id ref ∉ map id snap
  | Thrown _ => False
  end.
Proof.
  assert (Hids : map ts (map with_ts snap) = map id snap).
  { rewrite map_map. reflexivity. }
  unfold submit.
  destruct s as [c0|]; run_simpl_in Hcol; run_simpl_in Hadd; run_simpl;
    [|destruct (respond B (ReqCollection "scores") w) as [[c1|e] w0];
      run_simpl_in Hcol; run_simpl_in Hadd; run_simpl; [|discriminate]];
    injection Hcol as ->; rewrite Hadd; run_simpl; rewrite Hget; run_simpl;
    (destruct (existsb _ (map with_ts snap)) eqn:Hex; cbn [negb]; run_simpl;
     [ apply some_id in Hex; rewrite Hids in Hex;
       apply list_elem_of_fmap in Hex as [q [Hq Hin]];
       assert (Hnot : (e_score (with_ts q) <? sc) = false)
         by (apply Z.ltb_ge; simpl; rewrite (Hstored q Hin (eq_sym Hq)); lia);
       assert (Hin' : with_ts q ∈ map with_ts snap)
         by (apply list_elem_of_fmap; exists q; split; [reflexivity|exact Hin]);
       apply list_elem_of_lookup in Hin' as [k Hk];
       pose proof (count_lt_length (fun d => e_score d <? sc) (map with_ts snap)
                     k (with_ts q) Hk Hnot) as Hcount;
       rewrite length_map in Hcount; cbn [r_rank r_ts];
       repeat split; lia
     | intros Hin; rewrite <- Hids in Hin; apply some_id in Hin;
       rewrite Hin in Hex; discriminate Hex ]).
Qed.

Lemma submit_rank_on_board_witness :
  match res (run MemStore (submit "ann" 100 None) (mem_of_scores [100; 150])) with
  | Returned (Some r) =>
      (1 <= r_rank r <= 3)%nat /\ (r_rank r <= SIZE)%nat /\ r_ts r = Some "doc2"
  | Returned None => "doc2" ∉ ["doc0"; "doc2"; "doc1"]
  | Thrown _ => False
  end.
Proof.
  pose (w := mem_of_scores [100; 150]).
  pose (a := mem_respond (ReqAdd "scores" {| new_name := "ann"; new_score := 100 |}) w).
  refine (submit_rank_on_board MemStore w (snd a) (snd a) None "ann" 100 "scores"
            {| ref_id := "doc2" |} (take SIZE (stored (snd a)))
            eq_refl eq_refl eq_refl _ _).
  - vm_compute. lia.
  - intros q Hq Hid. vm_compute in Hq.
    apply elem_of_cons in Hq as [->|Hq]; [discriminate Hid|].
    apply elem_of_cons in Hq as [->|Hq]; [reflexivity|].
    apply elem_of_cons in Hq as [->|Hq]; [discriminate Hid|].
    inversion Hq.
Defined.

(** ** The requests a run issues *)

(** Every way a run of one of the three operations can go. *)
Ltac run_cases B s :=
  unfold peek, submit, getTop, last_score, handle_after, plan_collection;
  destruct s as [c|]; run_simpl;
  try on_collection B; try on_add B; try on_get B;
  repeat match goal with
    | |- context [if (SIZE <=? ?n)%nat then _ else _] =>
        destruct (SIZE <=? n)%nat; run_simpl
    | |- context [match ?l !! ?k with _ => _ end] =>
        destruct (l !! k); run_simpl
    | |- context [if ?a >? ?b then _ else _] => destruct (a >? b); run_simpl
    | |- context [if negb ?x then _ else _] => destruct (negb x); run_simpl
    end.

Ltac prefix_with h :=
  exists h; cbn [map fst app]; eexists; cbn [app]; reflexivity.

Ltac prefix_here :=
  first [ match goal with h : resp (ReqCollection _) |- _ => prefix_with h end
        | match goal with h : CollectionRef |- _ => prefix_with h end
        | prefix_with "scores"%string ].

Lemma peek_requests (B : backend) (w : World B) (s : ModState) (sc : Z) :
  exists c, map fst (trace (run B (peek sc s) w))
              `prefix_of` plan_collection s ++ [ReqGet c "score" SIZE].
Proof. run_cases B s; prefix_here. Qed.

Lemma submit_requests (B : backend) (w : World B) (s : ModState)
    (nm : string) (sc : Z) :
  exists c, map fst (trace (run B (submit nm sc s) w))
              `prefix_of` plan_collection s
                 ++ [ReqAdd c {| new_name := nm; new_score := sc |};
                     ReqGet c "score" SIZE].
Proof. run_cases B s; prefix_here. Qed.

Lemma getTop_requests (B : backend) (w : World B) (s : ModState) (n : nat) :
  exists c, map fst (trace (run B (getTop n s) w))
              `prefix_of` plan_collection s ++ [ReqGet c "score" SIZE].
Proof. run_cases B s; prefix_here. Qed.

(** X7. The requests of a run, in the order issued, are an initial part
    of: the request for the collection handle (only when none is
    cached), then for [submit] one add of exactly the submitted name and
    score, then one query for the first [SIZE] documents by score, on
    the same handle. So [peek] and [getTop] never write, [submit] writes
    at most once, and it never reads before it has written. *)
Theorem request_order (B : backend) (w : World B) (s : ModState)
    (nm : string) (sc : Z) (n : nat) :
  (exists c, map fst (trace (run B (peek sc s) w))
               `prefix_of` plan_collection s ++ [ReqGet c "score" SIZE]) /\
  (exists c, map fst (trace (run B (submit nm sc s) w))
               `prefix_of` plan_collection s
                  ++ [ReqAdd c {| new_name := nm; new_score := sc |};
                      ReqGet c "score" SIZE]) /\
  (exists c, map fst (trace (run B (getTop n s) w))
               `prefix_of` plan_collection s ++ [ReqGet c "score" SIZE]).
Proof.
  split; [apply peek_requests | split; [apply submit_requests | apply getTop_requests]].
Qed.

Lemma peek_handle (B : backend) (w : World B) (s : ModState) (sc : Z) :
  col_after (run B (peek sc s) w) = handle_after B s w /\
  issued is_collection (trace (run B (peek sc s) w)) = length (plan_collection s).
Proof. run_cases B s; split; reflexivity. Qed.

Lemma submit_handle (B : backend) (w : World B) (s : ModState)
    (nm : string) (sc : Z) :
  col_after (run B (submit nm sc s) w) = handle_after B s w /\
  issued is_collection (trace (run B (submit nm sc s) w)) = length (plan_collection s).
Proof. run_cases B s; split; reflexivity. Qed.

Lemma getTop_handle (B : backend) (w : World B) (s : ModState) (n : nat) :
  col_after (run B (getTop n s) w) = handle_after B s w /\
  issued is_collection (trace (run B (getTop n s) w)) = length (plan_collection s).
Proof. run_cases B s; split; reflexivity. Qed.

(** X8. The collection handle is created lazily and kept: a run asks
    for it exactly once when none is cached and not at all otherwise;
    it leaves cached the handle it found or was given, and leaves none
    cached only when the request for it failed, whatever else failed.
    So of two operations in a row the second asks for no handle when the
    first obtained one. *)
Theorem handle_created_once (B : backend) (w w' : World B) (s : ModState)
    (nm : string) (sc sc' : Z) (n : nat) :
  (col_after (run B (peek sc s) w) = handle_after B s w /\
   issued is_collection (trace (run B (peek sc s) w)) = length (plan_collection s)) /\
  (col_after (run B (submit nm sc s) w) = handle_after B s w /\
   issued is_collection (trace (run B (submit nm sc s) w)) = length (plan_collection s)) /\
  (col_after (run B (getTop n s) w) = handle_after B s w /\
   issued is_collection (trace (run B (getTop n s) w)) = length (plan_collection s)) /\
  (is_Some (handle_after B s w) ->
   issued is_collection
     (trace (run B (peek sc' (col_after (run B (submit nm sc s) w))) w')) = 0%nat).
Proof.
  split; [apply peek_handle|]. split; [apply submit_handle|].
  split; [apply getTop_handle|].
  intros [c Hc].
  rewrite (proj2 (peek_handle B w' _ sc')), (proj1 (submit_handle B w s nm sc)), Hc.
  reflexivity.
Qed.

Lemma handle_created_once_witness :
  let first := run DropsAfter (submit "ann" 250 None) (2%nat, mem_empty) in
  res first = Returned None /\ col_after first = Some "scores" /\
  issued is_collection (trace (run DropsAfter (peek 250 (col_after first)) (5%nat, mem_empty)))
  = 0%nat.
Proof.
  intros first.
  destruct (handle_created_once DropsAfter (2%nat, mem_empty) (5%nat, mem_empty) None
              "ann" 250 250 0) as [_ [[Hafter _] [_ Hnext]]].
  split; [reflexivity|]. split; [exact Hafter|].
  apply Hnext. eexists. reflexivity.
Defined.

End LeaderboardMore.

(** * Further properties of the round machine *)
Module GameMore.
Import JS Game GameText GameTerms GameMoreTerms NumberProps GameProps.
Import Stdlib.Strings.Ascii.

(** ** Clicks *)

(** X9. A click right after a click does nothing: whatever the state,
    the second of two clicks in a row leaves the world as the first left
    it, so no round is scored or rejected twice. *)
Theorem second_click_ignored (w : World) (o1 o2 : Oracle) :
  step (step w (GameClick o1)) (GameClick o2) = step w (GameClick o1).
Proof.
  destruct w as [st rn sc fc tc ca av sb mt mr wt ft fr pt tm nt b scr pn sd dn fl].
  destruct st; wsimpl; reflexivity.
Qed.

(** X10. In a reachable world in state [ready], no timer that fires
    changes the state, the recorded times, the round number or the stamp
    of the change: once the colour has changed, the round waits for the
    click. *)
Theorem ready_waits_for_click (w : World) (h : nat) (o : Oracle)
    (Hreach : reachable w) (Hready : state w = ready) :
  let w' := step w (TimerFires h o) in
  state w' = ready /\ scores w' = scores w /\ roundNum w' = roundNum w /\
  changeAt w' = changeAt w /\ bg w' = bg w.
Proof.
  destruct (reachable_session_ok w Hreach) as [_ [_ Hpause]].
  destruct w as [st rn sc fc tc ca av sb mt mr wt ft fr pt tm nt b scr pn sd dn fl].
  wsimpl_in Hready. subst st. unfold pause_ok in Hpause. wsimpl_in Hpause. wsimpl.
  destruct (tm !! h) as [[cb d]|] eqn:Hh; [|repeat split; reflexivity].
  specialize (Hpause h cb d Hh).
  destruct cb; try (repeat split; reflexivity);
    destruct Hpause as [_ [Hst _]]; discriminate Hst.
Qed.

Lemma ready_waits_for_click_witness :
  let w := steps (init None) [StartClick (plain_at 0); TimerFires 1 (plain_at (1000 # 1))] in
  state w = ready /\ state (step w (TimerFires 1 (plain_at (1500 # 1)))) = ready.
Proof.
  intros w.
  assert (Hreach : reachable w) by (apply reachable_steps, reach_init).
  assert (Hready : state w = ready) by reflexivity.
  exact (conj Hready
           (proj1 (ready_waits_for_click w 1 (plain_at (1500 # 1)) Hreach Hready))).
Defined.

(** ** Delays *)

(** Between integer bounds (below [2^53]) that are numbers themselves,
    [rand] stays within them, both ends included: each of its three
    operations is rounded, and rounding does not cross a number. *)
Lemma rand_in_range (u lo hi : Q) (a b : Z) :
  0 <= a <= b -> b < 2 ^ 53 ->
  (lo == inject_Z a)%Q -> (hi == inject_Z b)%Q ->
  (0 <= u)%Q -> (u <= 1)%Q ->
  (inject_Z a <= rand u lo hi)%Q /\ (rand u lo hi <= inject_Z b)%Q.
Proof.
  intros Hab Hb Hlo Hhi H0 H1. unfold rand, num_add, num_mul, num_sub.
  assert (Hd : (hi - lo == inject_Z (b - a))%Q).
  { rewrite Hlo, Hhi. unfold Zminus. rewrite inject_Z_plus, inject_Z_opp. ring. }
  assert (Hd0 : (0 <= inject_Z (b - a))%Q)
    by (change 0%Q with (inject_Z 0); rewrite <- Zle_Qle; lia).
  assert (Hdl : (inject_Z (b - a) <= fl64 (hi - lo))%Q)
    by (apply fl64_ge_int; [lia | rewrite Hd; apply Qle_refl]).
  assert (Hdh : (fl64 (hi - lo) <= inject_Z (b - a))%Q)
    by (apply fl64_le_int; [lia | rewrite Hd; apply Qle_refl]).
  set (D := fl64 (hi - lo)) in *.
  assert (Hpl : (inject_Z 0 <= fl64 (u * D))%Q).
  { apply fl64_ge_int; [lia|]. change (inject_Z 0) with 0%Q. nra. }
  assert (Hph : (fl64 (u * D) <= inject_Z (b - a))%Q).
  { apply fl64_le_int; [lia|]. nra. }
  set (P := fl64 (u * D)) in *. change (inject_Z 0) with 0%Q in Hpl.
  assert (Hba : (inject_Z (b - a) == inject_Z b - inject_Z a)%Q).
  { unfold Zminus. rewrite inject_Z_plus, inject_Z_opp. ring. }
  split.
  - apply fl64_ge_int; [lia|]. rewrite Hlo. lra.
  - apply fl64_le_int; [lia|]. rewrite Hlo. lra.
Qed.

(** X11. With [Math.random()] in [0, 1), [_beginRound] leaves exactly
    one of the two round timers named: either the real change, after a
    delay from [MIN_DELAY] to [MAX_DELAY], or the flash, after a delay
    from [FAKE_MIN_DELAY] to [FAKE_MAX_DELAY]. The upper end is
    included: [rand] rounds, and for the largest [Math.random()] below
    1 the delay of the real change is [MAX_DELAY] itself. *)
Theorem round_start_delay (o : Oracle) (w : World) (Ho : unit_oracle o) :
  let w1 := _beginRound o w in
  ((exists h d,
      _waitTimer w1 = Some h /\ _fakeTimer w1 = None /\
      timers w1 !! h = Some (WaitTimerCb, d) /\
      (CFG.MIN_DELAY <= d)%Q /\ (d <= CFG.MAX_DELAY)%Q) \/
   (exists h d,
      _fakeTimer w1 = Some h /\ _waitTimer w1 = None /\
      timers w1 !! h = Some (FakeTimerCb, d) /\
      (CFG.FAKE_MIN_DELAY <= d)%Q /\ (d <= CFG.FAKE_MAX_DELAY)%Q)) /\
  (rand (1 - (1 # 2 ^ 53)) CFG.MIN_DELAY CFG.MAX_DELAY == CFG.MAX_DELAY)%Q.
Proof.
  split; [|vm_compute; reflexivity].
  destruct (Ho 1%nat) as [H0 H1]. apply Qlt_le_weak in H1.
  destruct w as [st rn sc fc tc ca av sb mt mr wt ft fr pt tm nt b scr pn sd dn fl].
  wsimpl. destruct (Qltb _ _); wsimpl; [right|left]; exists nt; eexists;
    (split; [reflexivity|]); (split; [reflexivity|]);
    (split; [apply lookup_insert_eq|]).
  - apply (rand_in_range _ _ _ 1200 3500); first [lia | reflexivity | assumption].
  - apply (rand_in_range _ _ _ 2000 6000); first [lia | reflexivity | assumption].
Qed.

Lemma round_start_delay_witness :
  let w1 := _beginRound (plain_at 0) (init None) in
  exists h d,
    _waitTimer w1 = Some h /\ timers w1 !! h = Some (WaitTimerCb, d) /\
    (CFG.MIN_DELAY <= d)%Q /\ (d <= CFG.MAX_DELAY)%Q.
Proof.
  intros w1.
  assert (Ho : unit_oracle (plain_at 0)) by (intros k; split; reflexivity || discriminate).
  destruct (proj1 (round_start_delay (plain_at 0) (init None) Ho))
    as [[h [d [Hw [_ [Ht Hd]]]]]|[h [d [Hf _]]]].
  - exists h, d. exact (conj Hw (conj Ht Hd)).
  - vm_compute in Hf. discriminate Hf.
Defined.

(** ** Colours *)

Lemma COLORS_NoDup : NoDup COLORS.
Proof. apply (bool_decide_unpack _). vm_compute. exact I. Qed.

(** X12. When the sorted copy of the palette holds the palette's
    colours, [_beginRound] sets [fromColor] and [toColor] to two
    different colours of the palette and shows the first. *)
Theorem round_colours_differ (o : Oracle) (w : World) (Hperm : shuffles_palette o) :
  let w1 := _beginRound o w in
  exists c1 c2,
    fromColor w1 = Some c1 /\ toColor w1 = Some c2 /\ bg w1 = Some c1 /\
    c1 <> c2 /\ c1 ∈ COLORS /\ c2 ∈ COLORS.
Proof.
  unfold shuffles_palette in Hperm.
  pose proof COLORS_NoDup as Hnd. rewrite <- Hperm in Hnd.
  assert (Hin : forall c, c ∈ shuffled o -> c ∈ COLORS)
    by (intros c Hc; rewrite <- Hperm; exact Hc).
  pose proof (Permutation_length Hperm) as Hlen.
  destruct (shuffled o) as [|c1 [|c2 rest]] eqn:Hsh; try discriminate Hlen.
  apply NoDup_cons in Hnd as [Hnot _].
  destruct w as [st rn sc fc tc ca av sb mt mr wt ft fr pt tm nt b scr pn sd dn fl].
  exists c1, c2. wsimpl. rewrite Hsh. simpl.
  assert (Hrest : c1 <> c2 /\ c1 ∈ COLORS /\ c2 ∈ COLORS).
  { split; [intros ->; apply Hnot; left|].
    split; apply Hin; [left | right; left]. }
  destruct (Qltb _ _); wsimpl; repeat split; try reflexivity; apply Hrest.
Qed.

Lemma round_colours_differ_witness :
  let w1 := _beginRound (plain_at 0) (init None) in
  exists c1 c2, fromColor w1 = Some c1 /\ toColor w1 = Some c2 /\ c1 <> c2.
Proof.
  intros w1.
  assert (Hperm : shuffles_palette (plain_at 0))
    by (unfold shuffles_palette; simpl; reflexivity).
  destruct (round_colours_differ (plain_at 0) (init None) Hperm)
    as [c1 [c2 [H1 [H2 [_ [Hne _]]]]]].
  exists c1, c2. exact (conj H1 (conj H2 Hne)).
Defined.

(** The value of three channels below 256 put together. *)
Lemma channels_join (r g b : Z) :
  0 <= r -> 0 <= g < 256 -> 0 <= b < 256 ->
  Z.lor (Z.lor (Z.shiftl r 16) (Z.shiftl g 8)) b = r * 65536 + g * 256 + b.
Proof.
  intros Hr Hg Hb.
  rewrite !Z.shiftl_mul_pow2 by lia.
  change (2 ^ 16) with 65536. change (2 ^ 8) with 256.
  assert (H1 : Z.lor (r * 65536) (g * 256) = r * 65536 + g * 256).
  { symmetry. apply Z.add_nocarry_lor. apply Z.bits_inj'. intros n Hn.
    rewrite Z.land_spec, Z.bits_0.
    destruct (Z.lt_ge_cases n 16) as [Hlo|Hhi].
    - change 65536 with (2 ^ 16). rewrite Z.mul_pow2_bits_low by lia. reflexivity.
    - rewrite (Z.bits_above_log2 (g * 256)); [apply andb_false_r| lia |].
      destruct (Z.eq_dec g 0) as [->|Hg0]; [simpl; lia|].
      apply Z.log2_lt_pow2; [lia|].
      apply Z.lt_le_trans with (2 ^ 16); [lia | apply Z.pow_le_mono_r; lia]. }
  rewrite H1. symmetry. apply Z.add_nocarry_lor. apply Z.bits_inj'. intros n Hn.
  rewrite Z.land_spec, Z.bits_0.
  destruct (Z.lt_ge_cases n 8) as [Hlo|Hhi].
  - replace (r * 65536 + g * 256) with ((r * 256 + g) * 2 ^ 8) by lia.
    rewrite Z.mul_pow2_bits_low by lia. reflexivity.
  - rewrite (Z.bits_above_log2 b); [apply andb_false_r| lia |].
    destruct (Z.eq_dec b 0) as [->|Hb0]; [simpl; lia|].
    apply Z.log2_lt_pow2; [lia|].
    apply Z.lt_le_trans with (2 ^ 8); [lia | apply Z.pow_le_mono_r; lia].
Qed.

(** X13. For a colour of 24 bits and an amount from 0 to 255,
    [lightenHex] adds the amount to each channel and stops at 255: the
    red, green and blue of the result are the minimum of 255 and the
    channel plus the amount, and the result is again a colour of 24
    bits, no channel darker than before. *)
Theorem lightenHex_channels (hex amt : Z)
    (Hhex : 0 <= hex < 2 ^ 24) (Hamt : 0 <= amt <= 255) :
  let out := lightenHex hex amt in
  red out = Z.min 255 (red hex + amt) /\
  green out = Z.min 255 (green hex + amt) /\
  blue out = Z.min 255 (blue hex + amt) /\
  0 <= out < 2 ^ 24 /\
  red hex <= red out /\ green hex <= green out /\ blue hex <= blue out.
Proof.
  unfold lightenHex, red, green, blue. cbv zeta.
  change 0xff with (Z.ones 8).
  rewrite !Z.land_ones by lia. rewrite !Z.shiftr_div_pow2 by lia.
  change (Z.ones 8) with 255.
  change (2 ^ 16) with 65536. change (2 ^ 8) with 256. change (2 ^ 24) with 16777216 in *.
  set (r := hex / 65536). set (g := (hex / 256) mod 256). set (b := hex mod 256).
  assert (Hr : 0 <= r < 256) by (subst r; Z.div_mod_to_equations; lia).
  assert (Hg : 0 <= g < 256) by (subst g; Z.div_mod_to_equations; lia).
  assert (Hb : 0 <= b < 256) by (subst b; Z.div_mod_to_equations; lia).
  rewrite channels_join by lia.
  set (r' := Z.min 255 (r + amt)). set (g' := Z.min 255 (g + amt)).
  set (b' := Z.min 255 (b + amt)).
  assert (Hr' : 0 <= r' < 256 /\ r <= r') by (subst r'; lia).
  assert (Hg' : 0 <= g' < 256 /\ g <= g') by (subst g'; lia).
  assert (Hb' : 0 <= b' < 256 /\ b <= b') by (subst b'; lia).
  clearbody r' g' b'.
  assert (H1 : (r' * 65536 + g' * 256 + b') / 65536 = r')
    by (Z.div_mod_to_equations; lia).
  assert (H2 : ((r' * 65536 + g' * 256 + b') / 256) mod 256 = g')
    by (Z.div_mod_to_equations; lia).
  assert (H3 : (r' * 65536 + g' * 256 + b') mod 256 = b')
    by (Z.div_mod_to_equations; lia).
  rewrite H1, H2, H3. repeat split; lia.
Qed.

Lemma lightenHex_channels_witness :
  red (lightenHex 0xc1121f 65) = 255 /\ green (lightenHex 0xc1121f 65) = 0x53 /\
  blue (lightenHex 0xc1121f 65) = 0x60.
Proof.
  destruct (lightenHex_channels 0xc1121f 65 ltac:(lia) ltac:(lia)) as [H1 [H2 [H3 _]]].
  exact (conj H1 (conj H2 H3)).
Defined.

(** X14. No colour of the palette, lightened by the 65 of the flash, is
    a colour of the palette: whatever pair a round draws, the flash
    shows neither the round's own colour nor the colour of the real
    change. *)
Theorem flash_is_no_palette_colour (c : Color) (Hc : c ∈ COLORS) :
  (lightenHex c 65 ∉ COLORS) /\ lightenHex c 65 <> c.
Proof.
  assert (Hall : Forall (fun c => lightenHex c 65 ∉ COLORS) COLORS).
  { apply (bool_decide_unpack _). vm_compute. exact I. }
  rewrite Forall_forall in Hall.
  split; [exact (Hall c Hc)|].
  intros Heq. apply (Hall c Hc). rewrite Heq. exact Hc.
Qed.

Lemma flash_is_no_palette_colour_witness :
  (lightenHex 0x1a1a2e 65 ∉ COLORS) /\ lightenHex 0x1a1a2e 65 <> 0x1a1a2e.
Proof.
  apply (flash_is_no_palette_colour 0x1a1a2e). left.
Defined.

(** ** The flash *)







(** ** The timer table in reachable worlds *)

Lemma cancel_all_empty (tm : gmap nat (Callback * Q)) (wt ft fr pt : option nat) :
  (forall h x, tm !! h = Some x ->
     wt = Some h \/ ft = Some h \/ fr = Some h \/ pt = Some h) ->
  cancel pt (cancel fr (cancel ft (cancel wt tm))) = ∅.
Proof.
  intros Hall. apply map_empty. intros h.
  destruct (cancel pt (cancel fr (cancel ft (cancel wt tm))) !! h) as [x|] eqn:Hx;
    [|reflexivity].
  apply cancel_lookup in Hx as [Hx Hpt].
  apply cancel_lookup in Hx as [Hx Hfr].
  apply cancel_lookup in Hx as [Hx Hft].
  apply cancel_lookup in Hx as [Hx Hwt].
  destruct (Hall h x Hx) as [H|[H|[H|H]]]; contradiction.
Qed.

Lemma cleared_empty (w : World) :
  all_tracked w -> timers (_clearAllTimers w) = ∅.
Proof.
  intros Htr.
  destruct w as [st rn sc fc tc ca av sb mt mr wt ft fr pt tm nt b scr pn sd dn fl].
  unfold all_tracked, field_of in Htr. wsimpl_in Htr. wsimpl.
  apply cancel_all_empty. intros h [cb d] Hx. specialize (Htr h cb d Hx).
  destruct cb; auto.
Qed.

Lemma table_ok_single (w : World) (h : nat) (cb : Callback) (d : Q) :
  timers w = {[ h := (cb, d) ]} -> field_of cb w = Some h -> table_ok w.
Proof.
  intros Htm Hf. split.
  - intros h' cb' d' Hx. rewrite Htm in Hx.
    apply lookup_singleton_Some in Hx as [<- [= <- <-]]. exact Hf.
  - intros h' cb' d' Hx _. rewrite Htm in Hx |- *.
    apply lookup_singleton_Some in Hx as [<- [= <- <-]]. reflexivity.
Qed.

Lemma table_ok_empty (w : World) : timers w = ∅ -> table_ok w.
Proof.
  intros Htm. split.
  - intros h cb d Hx. rewrite Htm, lookup_empty in Hx. discriminate Hx.
  - intros h cb d Hx. rewrite Htm, lookup_empty in Hx. discriminate Hx.
Qed.

(** What [_beginRound] leaves in the table: its one timer. *)
Lemma beginRound_timers (o : Oracle) (w : World) :
  all_tracked w ->
  exists cb d,
    timers (_beginRound o w) = {[ nextTimer w := (cb, d) ]} /\
    field_of cb (_beginRound o w) = Some (nextTimer w) /\
    (cb = FakeTimerCb \/ cb = WaitTimerCb).
Proof.
  intros Htr. pose proof (cleared_empty w Htr) as Hclr.
  destruct w as [st rn sc fc tc ca av sb mt mr wt ft fr pt tm nt b scr pn sd dn fl].
  unfold field_of. wsimpl_in Hclr. wsimpl.
  destruct (Qltb _ _); wsimpl; eexists; eexists; rewrite Hclr, insert_empty;
    (split; [reflexivity|]); (split; [reflexivity|]); [left|right]; reflexivity.
Qed.

Lemma tooEarly_timers (w : World) :
  all_tracked w ->
  timers (_tooEarly w) = {[ nextTimer w := (RetryCb, CFG.TOO_EARLY_PAUSE) ]} /\
  _pauseTimer (_tooEarly w) = Some (nextTimer w).
Proof.
  intros Htr. pose proof (cleared_empty w Htr) as Hclr.
  destruct w as [st rn sc fc tc ca av sb mt mr wt ft fr pt tm nt b scr pn sd dn fl].
  wsimpl_in Hclr. wsimpl. rewrite Hclr, insert_empty. split; reflexivity.
Qed.

Lemma recordScore_timers (ms : Z) (w : World) :
  all_tracked w ->
  timers (_recordScore ms w) = {[ nextTimer w := (NextCb, CFG.RESULT_PAUSE) ]} /\
  _pauseTimer (_recordScore ms w) = Some (nextTimer w).
Proof.
  intros Htr. pose proof (cleared_empty w Htr) as Hclr.
  destruct w as [st rn sc fc tc ca av sb mt mr wt ft fr pt tm nt b scr pn sd dn fl].
  wsimpl_in Hclr. wsimpl. rewrite Hclr, insert_empty. split; reflexivity.
Qed.

Lemma beginRound_table (o : Oracle) (w : World) :
  all_tracked w -> table_ok (_beginRound o w).
Proof.
  intros Htr. destruct (beginRound_timers o w Htr) as [cb [d [Htm [Hf _]]]].
  exact (table_ok_single _ _ cb d Htm Hf).
Qed.

(** Only the table and the four handles matter to [table_ok]. *)
Lemma table_ok_ext (w w' : World) :
  timers w' = timers w -> _waitTimer w' = _waitTimer w ->
  _fakeTimer w' = _fakeTimer w -> _fakeRevert w' = _fakeRevert w ->
  _pauseTimer w' = _pauseTimer w -> table_ok w -> table_ok w'.
Proof.
  intros Htm Hwt Hft Hfr Hpt [Htr Hsolo]. split.
  - intros h cb d Hx. rewrite Htm in Hx. specialize (Htr h cb d Hx).
    destruct cb; unfold field_of in *; congruence.
  - intros h cb d Hx Hal. rewrite Htm in Hx |- *. exact (Hsolo h cb d Hx Hal).
Qed.

Lemma table_ok_fired (w : World) (h : nat) :
  table_ok w -> table_ok (set_timers (delete h (timers w)) w).
Proof.
  intros [Htr Hsolo].
  destruct w as [st rn sc fc tc ca av sb mt mr wt ft fr pt tm nt b scr pn sd dn fl].
  unfold all_tracked, solo, field_of in *. wsimpl_in Htr. wsimpl_in Hsolo.
  split; unfold all_tracked, solo, field_of; wsimpl.
  - intros h' cb d Hx. apply lookup_delete_Some in Hx as [_ Hx].
    exact (Htr h' cb d Hx).
  - intros h' cb d Hx Hal. apply lookup_delete_Some in Hx as [Hne Hx].
    rewrite (Hsolo h' cb d Hx Hal). apply delete_singleton_ne. exact Hne.
Qed.

Lemma results_ok_off (w : World) : screen w <> results -> results_ok w.
Proof. intros Hscr Hres. contradiction. Qed.

Lemma callback_timers_ok (w : World) (h : nat) (cb : Callback) (d : Q) (o : Oracle) :
  timers_ok w -> session_ok w -> timers w !! h = Some (cb, d) ->
  timers_ok (run_callback cb o (set_timers (delete h (timers w)) w)).
Proof.
  intros [Htab Hres] [Hlen [_ Hpause]] Hx.
  assert (Hscr : screen w <> results).
  { intros Hscr. destruct (Hres Hscr) as [_ [_ [_ Htm]]].
    rewrite Htm, lookup_empty in Hx. discriminate Hx. }
  pose proof (table_ok_fired w h Htab) as Htab'.
  specialize (Hpause h cb d Hx).
  pose proof (proj2 Htab h cb d Hx) as Hsolo.
  set (w' := set_timers (delete h (timers w)) w) in *.
  assert (Hscr' : screen w' = screen w) by (destruct w; reflexivity).
  assert (Hst' : state w' = state w) by (destruct w; reflexivity).
  assert (Hsc' : scores w' = scores w) by (destruct w; reflexivity).
  assert (Htm' : timers w' = delete h (timers w)) by (destruct w; reflexivity).
  clearbody w'. rewrite <- Hscr' in Hscr. clear Hscr'.
  destruct cb.
  - (* the flash *)
    specialize (Hsolo eq_refl). rewrite Hsolo, delete_singleton_eq in Htm'.
    destruct w' as [st rn sc fc tc ca av sb mt mr wt ft fr pt tm nt b scr pn sd dn fl].
    wsimpl_in Htm'. wsimpl_in Hscr. subst tm.
    destruct st; try (split; [exact Htab'|apply results_ok_off; exact Hscr]).
    destruct fc as [c|];
      try (split; [exact Htab'|apply results_ok_off; exact Hscr]).
    split; [|apply results_ok_off; exact Hscr].
    split; unfold all_tracked, solo, field_of; wsimpl.
    + intros h' cb d' Hl.
      apply lookup_insert_Some in Hl as [[<- [= <- <-]]|[_ Hl]]; [reflexivity|].
      apply lookup_insert_Some in Hl as [[<- [= <- <-]]|[_ Hl]]; [reflexivity|].
      rewrite lookup_empty in Hl. discriminate Hl.
    + intros h' cb d' Hl Hal.
      apply lookup_insert_Some in Hl as [[<- [= <- <-]]|[_ Hl]]; [discriminate Hal|].
      apply lookup_insert_Some in Hl as [[<- [= <- <-]]|[_ Hl]]; [discriminate Hal|].
      rewrite lookup_empty in Hl. discriminate Hl.
  - (* the real change after a flash *)
    split.
    + apply (table_ok_ext w'); try exact Htab';
        destruct w' as [st ? ? ? ? ? ? ? ? ? ? ? ? ? ? ? ? ? ? ? ? ?];
        destruct st; reflexivity.
    + apply results_ok_off.
      destruct w' as [st ? ? ? ? ? ? ? ? ? ? ? ? ? ? ? ? ? ? ? ? ?];
        destruct st; exact Hscr.
  - (* the real change *)
    split.
    + apply (table_ok_ext w'); try exact Htab';
        destruct w' as [st ? ? ? ? ? ? ? ? ? ? ? ? ? ? ? ? ? ? ? ? ?];
        destruct st; reflexivity.
    + apply results_ok_off.
      destruct w' as [st ? ? ? ? ? ? ? ? ? ? ? ? ? ? ? ? ? ? ? ? ?];
        destruct st; exact Hscr.
  - (* the end of the flash *)
    split.
    + apply (table_ok_ext w'); try exact Htab';
        destruct w' as [st ? ? ? ? ? ? ? ? ? ? ? ? ? ? ? ? ? ? ? ? ?];
        destruct st; reflexivity.
    + apply results_ok_off.
      destruct w' as [st ? ? ? ? ? ? ? ? ? ? ? ? ? ? ? ? ? ? ? ? ?];
        destruct st; exact Hscr.
  - (* the retry *)
    unfold run_callback. split.
    + apply beginRound_table.
      intros h' cb d' Hl.
      assert (Hl2 : timers w' !! h' = Some (cb, d')) by (destruct w'; exact Hl).
      pose proof (proj1 Htab' h' cb d' Hl2) as Hf.
      destruct cb; destruct w'; exact Hf.
    + apply results_ok_off.
      destruct w' as [st rn sc fc tc ca av sb mt mr wt ft fr pt tm nt b scr pn sd dn fl].
      wsimpl. wsimpl_in Hscr. destruct (Qltb _ _); exact Hscr.
  - (* the continuation *)
    specialize (Hsolo eq_refl). rewrite Hsolo, delete_singleton_eq in Htm'.
    destruct Hpause as [_ [Hpaused _]].
    unfold run_callback.
    destruct (Nat.leb_spec CFG.ROUNDS (length (scores w'))) as [Hdone|Hmore].
    + rewrite Hsc' in Hdone. rewrite <- Hst' in Hpaused.
      assert (Hshow : timers (_showResults w') = timers w' /\
                      state (_showResults w') = state w' /\
                      scores (_showResults w') = scores w' /\
                      _avg (_showResults w') = average (scores w')).
      { destruct w' as [? ? ? ? ? ? ? ? ? ? ? ? ? ? ? ? ? ? ? ? [x|] ?]; wsimpl;
          try destruct (String.eqb x ""); repeat split; reflexivity. }
      destruct Hshow as [E1 [E2 [E3 E4]]].
      split; [apply table_ok_empty; rewrite E1; exact Htm'|].
      intros _. rewrite E1, E2, E3, E4, Hsc'.
      repeat split; try assumption; try reflexivity. lia.
    + split.
      * apply beginRound_table. exact (proj1 Htab').
      * apply results_ok_off.
        destruct w' as [st rn sc fc tc ca av sb mt mr wt ft fr pt tm nt b scr pn sd dn fl].
        wsimpl. wsimpl_in Hscr. destruct (Qltb _ _); exact Hscr.
Qed.

Lemma results_ok_ext (w w' : World) :
  screen w' = screen w -> state w' = state w -> scores w' = scores w ->
  _avg w' = _avg w -> timers w' = timers w -> results_ok w -> results_ok w'.
Proof. unfold results_ok. intros -> -> -> -> ->. exact (fun H => H). Qed.

Lemma goToIntro_fields (w : World) :
  timers (_goToIntro w) = timers (_clearAllTimers w) /\
  screen (_goToIntro w) = intro /\ state (_goToIntro w) = idle.
Proof.
  destruct w as [st rn sc fc tc ca av sb mt mr wt ft fr pt tm nt b scr pn sd dn fl].
  wsimpl. repeat split; reflexivity.
Qed.

Lemma timers_ok_step (w : World) (e : Event) :
  session_ok w -> timers_ok w -> timers_ok (step w e).
Proof.
  intros Hsess [Htab Hres]. destruct e as [o|o|h o| | |s|k r].
  - (* start *)
    unfold step, _startGame. split.
    + apply beginRound_table. intros h cb d Hl.
      assert (Hl2 : timers w !! h = Some (cb, d)) by (destruct w; exact Hl).
      pose proof (proj1 Htab h cb d Hl2) as Hf.
      destruct cb; destruct w; exact Hf.
    + apply results_ok_off.
      destruct w as [st rn sc fc tc ca av sb mt mr wt ft fr pt tm nt b scr pn sd dn fl].
      wsimpl. destruct (Qltb _ _); discriminate.
  - (* click *)
    unfold step, _onGameClick.
    destruct (state w) eqn:Hst; [split; assumption| | |split; assumption].
    + destruct (tooEarly_timers w (proj1 Htab)) as [Htm Hpt]. split.
      * exact (table_ok_single _ _ _ _ Htm Hpt).
      * apply results_ok_off. intros Hscr.
        assert (Hscr' : screen w = results) by (destruct w; exact Hscr).
        destruct (Hres Hscr') as [Hp _]. congruence.
    + destruct (recordScore_timers (Math_round (elapsed o w)) w (proj1 Htab))
        as [Htm Hpt]. split.
      * exact (table_ok_single _ _ _ _ Htm Hpt).
      * apply results_ok_off. intros Hscr.
        assert (Hscr' : screen w = results) by (destruct w; exact Hscr).
        destruct (Hres Hscr') as [Hp _]. congruence.
  - (* a timer fires *)
    unfold step.
    destruct (timers w !! h) as [[cb d]|] eqn:Hx; [|split; assumption].
    apply (callback_timers_ok w h cb d o); [split; assumption|assumption|exact Hx].
  - (* play again *)
    destruct (goToIntro_fields w) as [Htm [Hscr Hst]].
    unfold step. split.
    + apply table_ok_empty. rewrite Htm. apply cleared_empty, Htab.
    + apply results_ok_off. rewrite Hscr. discriminate.
  - (* save *)
    split.
    + apply (table_ok_ext w); try exact Htab;
        destruct w as [? ? ? ? ? ? ? [|] ? ? ? ? ? ? ? ? ? ? ? ? ? ?]; wsimpl;
        try destruct (String.eqb _ _); reflexivity.
    + apply (results_ok_ext w); try exact Hres;
        destruct w as [? ? ? ? ? ? ? [|] ? ? ? ? ? ? ? ? ? ? ? ? ? ?]; wsimpl;
        try destruct (String.eqb _ _); reflexivity.
  - (* typing *)
    split.
    + apply (table_ok_ext w); try exact Htab; destruct w; reflexivity.
    + apply (results_ok_ext w); try exact Hres; destruct w; reflexivity.
  - (* the store call settles *)
    split.
    + apply (table_ok_ext w); try exact Htab;
        destruct w as [? ? ? ? ? ? ? ? ? ? ? ? ? ? ? ? ? ? ? ? ? fl]; wsimpl;
        destruct (fl !! k); try destruct r; reflexivity.
    + apply (results_ok_ext w); try exact Hres;
        destruct w as [? ? ? ? ? ? ? ? ? ? ? ? ? ? ? ? ? ? ? ? ? fl]; wsimpl;
        destruct (fl !! k); try destruct r; reflexivity.
Qed.

Lemma timers_ok_init (saved : option string) : timers_ok (init saved).
Proof.
  split; [apply table_ok_empty; reflexivity|].
  apply results_ok_off. discriminate.
Qed.

Lemma reachable_timers_ok (w : World) : reachable w -> timers_ok w.
Proof.
  induction 1 as [saved|w e Hw IH]; [apply timers_ok_init|].
  apply timers_ok_step; [apply reachable_session_ok; exact Hw | exact IH].
Qed.

(** X16. In every reachable world each pending timer of the round
    machine is the one the field for its callback names ([_fakeTimer],
    [_waitTimer], [_fakeRevert], [_pauseTimer]); so [_clearAllTimers]
    leaves none of them pending, and a timer scheduled right after it
    (the flash, the plain real change, either pause) is the only one
    pending while it is. *)
Theorem timers_are_tracked (w : World) (Hreach : reachable w) :
  all_tracked w /\ timers (_clearAllTimers w) = ∅ /\ solo w.
Proof.
  destruct (reachable_timers_ok w Hreach) as [[Htr Hsolo] _].
  split; [exact Htr|]. split; [apply cleared_empty; exact Htr | exact Hsolo].
Qed.

Lemma timers_are_tracked_witness :
  let w := steps (init None) one_scored_click in
  timers (_clearAllTimers w) = ∅ /\ timers w = {[ 2%nat := (NextCb, CFG.RESULT_PAUSE) ]}.
Proof.
  intros w.
  assert (Hreach : reachable w) by (apply reachable_steps, reach_init).
  destruct (timers_are_tracked w Hreach) as [_ [Hclr Hsolo]].
  split; [exact Hclr|].
  exact (Hsolo 2%nat NextCb CFG.RESULT_PAUSE eq_refl eq_refl).
Defined.

(** ** What a click and a reset leave pending *)

Lemma startGame_timers (o : Oracle) (w : World) :
  all_tracked w ->
  exists cb d,
    timers (_startGame o w) = {[ nextTimer w := (cb, d) ]} /\
    (cb = FakeTimerCb \/ cb = WaitTimerCb).
Proof.
  intros Htr. unfold _startGame.
  set (w' := _showScreen game (set_scores [] (set_roundNum 0 w))).
  assert (Htr' : all_tracked w').
  { intros h cb d Hl.
    assert (Hl2 : timers w !! h = Some (cb, d)) by (destruct w; exact Hl).
    pose proof (Htr h cb d Hl2) as Hf.
    destruct cb; destruct w; exact Hf. }
  assert (Hnt : nextTimer w' = nextTimer w) by (destruct w; reflexivity).
  clearbody w'.
  destruct (beginRound_timers o w' Htr') as [cb [d [Htm [_ Hcb]]]].
  exists cb, d. rewrite <- Hnt. split; assumption.
Qed.

(** ** Stale callbacks *)

Lemma round_callback_stale (w : World) (cb : Callback) (o : Oracle) :
  round_callback cb = true -> state w <> waiting ->
  run_callback cb o w = w /\
  (forall h d, timers w !! h = Some (cb, d) ->
     step w (TimerFires h o) = set_timers (delete h (timers w)) w).
Proof.
  intros Hround Hstale.
  destruct w as [st rn sc fc tc ca av sb mt mr wt ft fr pt tm nt b scr pn sd dn fl].
  wsimpl_in Hstale. split.
  - destruct cb; try discriminate Hround; destruct st; try reflexivity; contradiction.
  - intros h d Hh. wsimpl. wsimpl_in Hh. rewrite Hh.
    destruct cb; try discriminate Hround; destruct st; try reflexivity; contradiction.
Qed.

(** The round a pause callback begins starts with one timer, its own. *)
Lemma pause_callback_begins (w : World) (h : nat) (cb : Callback) (d : Q)
    (o : Oracle) :
  table_ok w -> state w = paused ->
  timers w !! h = Some (cb, d) -> round_callback cb = false ->
  state (step w (TimerFires h o)) = waiting ->
  exists cb' d',
    timers (step w (TimerFires h o)) = {[ nextTimer w := (cb', d') ]} /\
    (cb' = FakeTimerCb \/ cb' = WaitTimerCb).
Proof.
  intros Htab Hpaused Hx Hcb. unfold step. rewrite Hx.
  pose proof (table_ok_fired w h Htab) as Htab'.
  set (w' := set_timers (delete h (timers w)) w) in *.
  assert (Hst' : state w' = paused) by (rewrite <- Hpaused; destruct w; reflexivity).
  assert (Hnt' : nextTimer w' = nextTimer w) by (destruct w; reflexivity).
  clearbody w'. rewrite <- Hnt'. clear Hnt' Hx Htab Hpaused.
  destruct cb; try discriminate Hcb; unfold run_callback.
  - (* the retry *)
    intros _.
    set (w2 := set_roundNum (roundNum w' - 1) w').
    assert (Htab2 : table_ok w2)
      by (apply (table_ok_ext w'); try exact Htab'; destruct w'; reflexivity).
    assert (Hnt2 : nextTimer w2 = nextTimer w') by (destruct w'; reflexivity).
    clearbody w2. rewrite <- Hnt2.
    destruct (beginRound_timers o w2 (proj1 Htab2)) as [cb' [d' [Htm [_ Hcb']]]].
    exists cb', d'. split; assumption.
  - (* the continuation *)
    destruct (CFG.ROUNDS <=? length (scores w'))%nat.
    + intros Hw.
      assert (Hshow : state (_showResults w') = state w').
      { destruct w' as [st rn sc fc tc ca av sb mt mr wt ft fr pt tm nt b scr pn sd dn fl].
        wsimpl. destruct dn as [n|]; [destruct (String.eqb n "")|]; reflexivity. }
      rewrite Hshow, Hst' in Hw. discriminate Hw.
    + intros _.
      destruct (beginRound_timers o w' (proj1 Htab')) as [cb' [d' [Htm [_ Hcb']]]].
      exists cb', d'. split; assumption.
Qed.

(** C8, as the code has it. The callbacks scheduled by [_beginRound]
    and [_triggerFake] (the flash, the real change in both kinds of
    round, the end of the flash) do nothing unless the state is
    [waiting]: fired in any other state, all that happens is that the
    timer leaves the table. The two pause callbacks carry no such test.
    What keeps any callback from acting late is [_clearAllTimers]: in
    every reachable world a pending timer is the one its field names
    and a pending pause callback comes with state [paused]; what ends a
    round (an early click, a scored click, play again, a new start)
    leaves none of the round's callbacks pending, only the pause
    callback, nothing, or the first timer of the new round; and the
    round a pause callback begins starts with its own first timer
    alone. So a callback of a round that has ended never produces a
    trigger. *)
Theorem round_callbacks_guarded (w : World) (o : Oracle) (Hreach : reachable w) :
  (forall cb, round_callback cb = true -> state w <> waiting ->
     run_callback cb o w = w /\
     forall h d, timers w !! h = Some (cb, d) ->
       step w (TimerFires h o) = set_timers (delete h (timers w)) w) /\
  (forall h cb d, timers w !! h = Some (cb, d) ->
     field_of cb w = Some h /\
     (round_callback cb = false -> state w = paused /\ _pauseTimer w = Some h)) /\
  (state w = waiting \/ state w = ready ->
     forall h cb d, timers (step w (GameClick o)) !! h = Some (cb, d) ->
       round_callback cb = false /\ h = nextTimer w) /\
  timers (step w PlayAgainClick) = ∅ /\
  (exists cb d,
     timers (step w (StartClick o)) = {[ nextTimer w := (cb, d) ]} /\
     (cb = FakeTimerCb \/ cb = WaitTimerCb)) /\
  (forall h cb d, timers w !! h = Some (cb, d) -> round_callback cb = false ->
     state (step w (TimerFires h o)) = waiting ->
     exists cb' d',
       timers (step w (TimerFires h o)) = {[ nextTimer w := (cb', d') ]} /\
       (cb' = FakeTimerCb \/ cb' = WaitTimerCb)).
Proof.
  destruct (reachable_timers_ok w Hreach) as [Htab _].
  destruct (reachable_session_ok w Hreach) as [_ [_ Hpause]].
  assert (Hpending : forall h cb d, timers w !! h = Some (cb, d) ->
            round_callback cb = false -> state w = paused /\ _pauseTimer w = Some h).
  { intros h cb d Hx Hcb. specialize (Hpause h cb d Hx).
    destruct cb; try discriminate Hcb; destruct Hpause as [Hpt [Hst _]];
      split; assumption. }
  split; [intros cb; apply round_callback_stale|].
  split; [intros h cb d Hx; split; [exact (proj1 Htab h cb d Hx) | exact (Hpending h cb d Hx)]|].
  split; [|split; [|split]].
  - intros Hst h cb d. unfold step, _onGameClick.
    destruct Hst as [Hst|Hst]; rewrite Hst.
    + rewrite (proj1 (tooEarly_timers w (proj1 Htab))). intros Hx.
      apply lookup_singleton_Some in Hx as [<- [= <- <-]]. split; reflexivity.
    + rewrite (proj1 (recordScore_timers _ w (proj1 Htab))). intros Hx.
      apply lookup_singleton_Some in Hx as [<- [= <- <-]]. split; reflexivity.
  - destruct (goToIntro_fields w) as [Htm _]. unfold step. rewrite Htm.
    exact (cleared_empty w (proj1 Htab)).
  - exact (startGame_timers o w (proj1 Htab)).
  - intros h cb d Hx Hcb.
    exact (pause_callback_begins w h cb d o Htab (proj1 (Hpending h cb d Hx Hcb)) Hx Hcb).
Qed.

Lemma round_callbacks_guarded_witness :
  let w := steps (init None) one_scored_click in
  state w = paused /\ run_callback WaitTimerCb (plain_at (1200 # 1)) w = w /\
  timers (step w PlayAgainClick) = ∅.
Proof.
  intros w.
  assert (Hreach : reachable w) by (apply reachable_steps, reach_init).
  assert (Hst : state w = paused) by (vm_compute; reflexivity).
  assert (Hstale : state w <> waiting) by (rewrite Hst; discriminate).
  destruct (round_callbacks_guarded w (plain_at (1200 # 1)) Hreach)
    as [Hguard [_ [_ [Hagain _]]]].
  exact (conj Hst (conj (proj1 (Hguard WaitTimerCb eq_refl Hstale)) Hagain)).
Defined.

(** X17. In a reachable world a click that counts cancels whatever the
    round had pending: after an early click the only pending timer is
    the retry pause, after a scored click the only one is the result
    pause; and after a click on the start button the only one is the
    first timer of round one (the flash or the real change). *)
Theorem click_leaves_one_timer (w : World) (o : Oracle) (Hreach : reachable w) :
  (state w = waiting ->
     timers (step w (GameClick o)) =
       {[ nextTimer w := (RetryCb, CFG.TOO_EARLY_PAUSE) ]}) /\
  (state w = ready ->
     timers (step w (GameClick o)) =
       {[ nextTimer w := (NextCb, CFG.RESULT_PAUSE) ]}) /\
  (exists cb d,
     timers (step w (StartClick o)) = {[ nextTimer w := (cb, d) ]} /\
     (cb = FakeTimerCb \/ cb = WaitTimerCb)).
Proof.
  destruct (reachable_timers_ok w Hreach) as [[Htr _] _].
  split; [|split].
  - intros Hst. unfold step, _onGameClick. rewrite Hst.
    exact (proj1 (tooEarly_timers w Htr)).
  - intros Hst. unfold step, _onGameClick. rewrite Hst.
    exact (proj1 (recordScore_timers _ w Htr)).
  - exact (startGame_timers o w Htr).
Qed.

Lemma click_leaves_one_timer_witness :
  let w := steps (init None) [ StartClick (plain_at 0) ] in
  timers (step w (GameClick (plain_at (500 # 1)))) =
    {[ nextTimer w := (RetryCb, CFG.TOO_EARLY_PAUSE) ]}.
Proof.
  intros w.
  assert (Hreach : reachable w) by (apply reachable_steps, reach_init).
  exact (proj1 (click_leaves_one_timer w (plain_at (500 # 1)) Hreach) eq_refl).
Defined.

Lemma step_inert (w : World) (e : Event) :
  state w = idle \/ state w = paused -> timers w = ∅ -> on_surface e = true ->
  step w e = w.
Proof.
  intros Hst Htm He. destruct e; try discriminate He; unfold step.
  - unfold _onGameClick. destruct Hst as [-> | ->]; reflexivity.
  - rewrite Htm, lookup_empty. reflexivity.
Qed.

Lemma steps_inert (w : World) (es : list Event) :
  state w = idle \/ state w = paused -> timers w = ∅ ->
  forallb on_surface es = true -> steps w es = w.
Proof.
  intros Hst Htm. induction es as [|e es IH]; intros Hes; [reflexivity|].
  simpl in Hes. apply andb_true_iff in Hes as [He Hes].
  unfold steps in *. simpl. rewrite (step_inert w e Hst Htm He). exact (IH Hes).
Qed.

(** X18. Play again from any reachable world, mid-round or not, puts the
    machine to rest: state [idle], the intro overlay up, no timer of the
    round machine pending; and from there clicks on the game surface
    and timer expiries change nothing, until the start button is
    clicked. *)
Theorem play_again_rests (w : World) (Hreach : reachable w) :
  let w0 := step w PlayAgainClick in
  state w0 = idle /\ screen w0 = intro /\ timers w0 = ∅ /\
  forall es, forallb on_surface es = true -> steps w0 es = w0.
Proof.
  intros w0.
  destruct (reachable_timers_ok w Hreach) as [[Htr _] _].
  destruct (goToIntro_fields w) as [Htm [Hscr Hst]].
  assert (Hempty : timers w0 = ∅).
  { unfold w0, step. rewrite Htm. exact (cleared_empty w Htr). }
  split; [exact Hst|]. split; [exact Hscr|]. split; [exact Hempty|].
  intros es Hes. apply steps_inert; [left; exact Hst | exact Hempty | exact Hes].
Qed.

Lemma play_again_rests_witness :
  let w0 := step (steps (init None) one_scored_click) PlayAgainClick in
  timers w0 = ∅ /\
  steps w0 [ TimerFires 2 (plain_at (3180 # 1)); GameClick (plain_at (3200 # 1)) ] = w0.
Proof.
  intros w0.
  assert (Hreach : reachable (steps (init None) one_scored_click))
    by (apply reachable_steps, reach_init).
  destruct (play_again_rests _ Hreach) as [_ [_ [Htm Hrest]]].
  split; [exact Htm|].
  exact (Hrest [ TimerFires 2 (plain_at (3180 # 1)); GameClick (plain_at (3200 # 1)) ]
           eq_refl).
Defined.

(** ** The results screen *)

(** X19. Whenever the results are up in a reachable world, the session
    behind them is complete: the machine is [paused], exactly [ROUNDS]
    times are recorded, [_avg] is their rounded mean, and no timer of
    the round machine is pending; so clicks on the game surface and
    timer expiries change nothing. *)
Theorem results_screen_rests (w : World) (Hreach : reachable w)
    (Hscr : screen w = results) :
  state w = paused /\ length (scores w) = CFG.ROUNDS /\
  _avg w = average (scores w) /\ timers w = ∅ /\
  forall es, forallb on_surface es = true -> steps w es = w.
Proof.
  destruct (reachable_timers_ok w Hreach) as [_ Hres].
  destruct (Hres Hscr) as [Hst [Hlen [Havg Htm]]].
  repeat (split; [assumption|]).
  intros es Hes. apply steps_inert; [right; exact Hst | exact Htm | exact Hes].
Qed.

Lemma results_screen_rests_witness :
  length (scores results_with_name) = CFG.ROUNDS /\
  _avg results_with_name = average (scores results_with_name).
Proof.
  assert (Hreach : reachable results_with_name)
    by (apply reachable_steps, reach_init).
  assert (Hscr : screen results_with_name = results) by (vm_compute; reflexivity).
  destruct (results_screen_rests _ Hreach Hscr) as [_ [Hlen [Havg _]]].
  split; assumption.
Defined.

(** X20. What the save button sends from the results screen of a
    reachable world: with a name that is not blank and nothing
    submitted yet, the one call it puts in flight carries the trimmed
    name and the rounded mean of the [ROUNDS] recorded times, which is a
    number. *)
Theorem saved_score_is_session_average (w : World) (Hreach : reachable w)
    (Hscr : screen w = results) (Hsub : _submitted w = false)
    (Hname : trim (playerName w) <> "") :
  exists m : Z,
    average (scores w) = Some m /\ length (scores w) = CFG.ROUNDS /\
    inflight (step w SaveName) = inflight w ++ [(trim (playerName w), Some m)].
Proof.
  destruct (reachable_timers_ok w Hreach) as [_ Hres].
  destruct (Hres Hscr) as [_ [Hlen [Havg _]]].
  assert (Hm : exists m, average (scores w) = Some m).
  { destruct (scores w) as [|x l]; [discriminate Hlen|]. eexists. reflexivity. }
  destruct Hm as [m Hm]. exists m. split; [exact Hm|]. split; [exact Hlen|].
  rewrite Hm in Havg. clear Hres Hlen Hm Hscr Hreach.
  apply String.eqb_neq in Hname.
  unfold step, _submitToLeaderboard. rewrite Hsub, Hname.
  destruct w as [st rn sc fc tc ca av sb mt mr wt ft fr pt tm nt b scr pn sd dn fl].
  wsimpl. wsimpl_in Havg. rewrite Havg. reflexivity.
Qed.

Lemma saved_score_is_session_average_witness :
  inflight (step results_with_name SaveName) = [("ann", Some 180)].
Proof.
  assert (Hreach : reachable results_with_name)
    by (apply reachable_steps, reach_init).
  assert (Hscr : screen results_with_name = results) by (vm_compute; reflexivity).
  assert (Hsub : _submitted results_with_name = false) by (vm_compute; reflexivity).
  assert (Hname : trim (playerName results_with_name) <> "")
    by (vm_compute; discriminate).
  destruct (saved_score_is_session_average _ Hreach Hscr Hsub Hname)
    as [m [Hm [_ Hfl]]].
  rewrite Hfl. vm_compute in Hm. injection Hm as <-. vm_compute. reflexivity.
Defined.

(** ** The round counter and the score row *)

(** X21. In every reachable world at most [ROUNDS] times are recorded,
    and while a round is on (state [waiting] or [ready]) the round
    number shown is the number of recorded times plus one and lies
    between 1 and [ROUNDS]. *)
Theorem round_counter_in_range (w : World) (Hreach : reachable w) :
  (length (scores w) <= CFG.ROUNDS)%nat /\
  (state w = waiting \/ state w = ready ->
     roundNum w = Z.of_nat (length (scores w)) + 1 /\
     1 <= roundNum w <= Z.of_nat CFG.ROUNDS).
Proof.
  destruct (reachable_session_ok w Hreach) as [Hlen [Hround _]].
  split; [exact Hlen|]. intros Hst. destruct (Hround Hst) as [Hrn Hlt].
  split; [exact Hrn|]. rewrite Hrn. lia.
Qed.

Lemma round_counter_in_range_witness :
  roundNum (steps (init None) scenarioA_four_rounds) = 5.
Proof.
  assert (Hreach : reachable (steps (init None) scenarioA_four_rounds))
    by (apply reachable_steps, reach_init).
  destruct (round_counter_in_range _ Hreach) as [_ Hround].
  assert (Hst : state (steps (init None) scenarioA_four_rounds) = waiting)
    by (vm_compute; reflexivity).
  destruct (Hround (or_introl Hst)) as [Hrn _].
  rewrite Hrn. vm_compute. reflexivity.
Defined.

Lemma updateDots_some (l : list Z) :
  (length l <= CFG.ROUNDS)%nat ->
  _updateDots l =
    Some (imap (fun i s => dot_filled s (Z.of_nat i =? Z.of_nat (length l) - 1)) l
            ++ replicate (CFG.ROUNDS - length l) dot_empty).
Proof.
  intros Hlen. unfold _updateDots. cbv zeta.
  destruct (Z.ltb_spec (Z.of_nat CFG.ROUNDS - Z.of_nat (length l)) 0) as [Hneg|_];
    [lia|].
  do 3 f_equal. lia.
Qed.

(** X22. In every reachable world [_updateDots] does not throw, and the
    row it writes has exactly [ROUNDS] dots: one per recorded time, in
    order and showing that time, only the last of them marked new, then
    empty dots. With more than [ROUNDS] times it would throw. *)
Theorem score_row_has_all_dots (w : World) (Hreach : reachable w) :
  (exists row,
     _updateDots (scores w) = Some row /\ length row = CFG.ROUNDS /\
     (forall i ms, scores w !! i = Some ms ->
        row !! i = Some (dot_filled ms (bool_decide (S i = length (scores w))))) /\
     (forall i, (length (scores w) <= i < CFG.ROUNDS)%nat ->
        row !! i = Some dot_empty)) /\
  (forall l, (CFG.ROUNDS < length l)%nat -> _updateDots l = None).
Proof.
  split.
  - pose proof (times_bounded w Hreach) as Hlen.
    eexists. split; [exact (updateDots_some _ Hlen)|].
    split; [|split].
    + rewrite length_app, length_imap, length_replicate. lia.
    + intros i ms Hi.
      rewrite lookup_app_l by (rewrite length_imap; eapply lookup_lt_Some; exact Hi).
      rewrite list_lookup_imap, Hi. simpl. do 2 f_equal.
      apply lookup_lt_Some in Hi.
      destruct (Z.eqb_spec (Z.of_nat i) (Z.of_nat (length (scores w)) - 1)) as [He|Hne];
        [rewrite bool_decide_eq_true_2 by lia | rewrite bool_decide_eq_false_2 by lia];
        reflexivity.
    + intros i [Hlo Hhi].
      rewrite lookup_app_r by (rewrite length_imap; exact Hlo).
      rewrite length_imap. apply lookup_replicate_2. lia.
  - intros l Hl. unfold _updateDots. cbv zeta.
    destruct (Z.ltb_spec (Z.of_nat CFG.ROUNDS - Z.of_nat (length l)) 0) as [_|Hge];
      [reflexivity | lia].
Qed.

Lemma score_row_has_all_dots_witness :
  _updateDots (scores (steps (init None) one_scored_click)) =
    Some [ dot_filled 180 true; dot_empty; dot_empty; dot_empty; dot_empty ].
Proof.
  assert (Hreach : reachable (steps (init None) one_scored_click))
    by (apply reachable_steps, reach_init).
  destruct (score_row_has_all_dots _ Hreach) as [[row [Hrow _]] _].
  rewrite Hrow. vm_compute in Hrow. symmetry. exact Hrow.
Defined.

(** ** Escaping text for the page *)

Lemma append_assoc_s (x y z : string) : (x +:+ y) +:+ z = x +:+ (y +:+ z).
Proof.
  induction x as [|a x IH]; [reflexivity|].
  change (String a ((x +:+ y) +:+ z) = String a (x +:+ (y +:+ z))).
  rewrite IH. reflexivity.
Qed.

Lemma replace_all_app (c : ascii) (by_ x y : string) :
  replace_all c by_ (x +:+ y) = replace_all c by_ x +:+ replace_all c by_ y.
Proof.
  induction x as [|a x IH]; [reflexivity|].
  change (String a x +:+ y) with (String a (x +:+ y)). cbn [replace_all].
  destruct (Ascii.eqb a c); rewrite IH; [|reflexivity].
  symmetry. apply append_assoc_s.
Qed.

(** The three passes of [_esc] amount to one pass that rewrites each
    character on its own. *)
Lemma esc_cons (a : ascii) (r : string) :
  _esc (String a r) = esc_char a +:+ _esc r.
Proof.
  unfold _esc, esc_char. cbn [replace_all].
  destruct (Ascii.eqb_spec a "&") as [->|Hamp].
  - rewrite !replace_all_app. reflexivity.
  - cbn [replace_all].
    destruct (Ascii.eqb_spec a "<") as [->|Hlt].
    + rewrite !replace_all_app. reflexivity.
    + cbn [replace_all].
      destruct (Ascii.eqb_spec a ">") as [->|Hgt]; reflexivity.
Qed.

Lemma chars_app (x y : string) : chars (x +:+ y) = chars x ++ chars y.
Proof.
  induction x as [|a x IH]; [reflexivity|].
  change (chars (String a (x +:+ y)) = a :: (chars x ++ chars y)).
  cbn [chars]. rewrite IH. reflexivity.
Qed.

Lemma unesc_entities (t : string) :
  unesc ("&amp;" +:+ t) = String "&" (unesc t) /\
  unesc ("&lt;" +:+ t) = String "<" (unesc t) /\
  unesc ("&gt;" +:+ t) = String ">" (unesc t).
Proof. repeat split; reflexivity. Qed.

Lemma esc_char_safe (a : ascii) :
  In "<"%char (chars (esc_char a)) \/ In ">"%char (chars (esc_char a)) -> False.
Proof.
  unfold esc_char.
  destruct (Ascii.eqb_spec a "&") as [->|Hamp];
    [simpl; intros [H|H]; repeat (destruct H as [H|H]; [discriminate H|]); exact H|].
  destruct (Ascii.eqb_spec a "<") as [->|Hlt];
    [simpl; intros [H|H]; repeat (destruct H as [H|H]; [discriminate H|]); exact H|].
  destruct (Ascii.eqb_spec a ">") as [->|Hgt];
    [simpl; intros [H|H]; repeat (destruct H as [H|H]; [discriminate H|]); exact H|].
  simpl. intros [[H|[]]|[H|[]]]; congruence.
Qed.

(** X23. The text [_esc] returns holds no [<] and no [>]; and a string
    without [&], [<] and [>] is returned as it is. *)
Theorem esc_leaves_no_markup (s : string) :
  ~ In "<"%char (chars (_esc s)) /\ ~ In ">"%char (chars (_esc s)) /\
  ((forall a, In a (chars s) -> a <> "&"%char /\ a <> "<"%char /\ a <> ">"%char) ->
   _esc s = s).
Proof.
  induction s as [|a r [IHlt [IHgt IHid]]].
  - split; [|split]; [intros [] | intros [] | reflexivity].
  - rewrite esc_cons, chars_app.
    pose proof (esc_char_safe a) as Hsafe.
    split; [|split].
    + intros H. apply in_app_or in H as [H|H]; [apply Hsafe; left; exact H | exact (IHlt H)].
    + intros H. apply in_app_or in H as [H|H]; [apply Hsafe; right; exact H | exact (IHgt H)].
    + intros Hclean.
      destruct (Hclean a (or_introl eq_refl)) as [Hamp [Hlt Hgt]].
      rewrite IHid by (intros b Hb; apply Hclean; right; exact Hb).
      unfold esc_char.
      apply Ascii.eqb_neq in Hamp, Hlt, Hgt. rewrite Hamp, Hlt, Hgt. reflexivity.
Qed.

(** X24. [_esc] loses nothing: reading the three entities back gives
    the text it was applied to, so two different texts are never
    escaped to the same one. *)
Theorem esc_can_be_read_back (s t : string) :
  unesc (_esc s) = s /\ (_esc s = _esc t -> s = t).
Proof.
  assert (Hback : forall u, unesc (_esc u) = u).
  { induction u as [|a r IH]; [reflexivity|].
    rewrite esc_cons. unfold esc_char.
    destruct (unesc_entities (_esc r)) as [Eamp [Elt Egt]].
    destruct (Ascii.eqb_spec a "&") as [->|Hamp]; [rewrite Eamp, IH; reflexivity|].
    destruct (Ascii.eqb_spec a "<") as [->|Hlt]; [rewrite Elt, IH; reflexivity|].
    destruct (Ascii.eqb_spec a ">") as [->|Hgt]; [rewrite Egt, IH; reflexivity|].
    change (String a "" +:+ _esc r) with (String a (_esc r)).
    cbn [unesc]. apply Ascii.eqb_neq in Hamp. rewrite Hamp, IH. reflexivity. }
  split; [apply Hback|].
  intros Heq. rewrite <- (Hback s), <- (Hback t), Heq. reflexivity.
Qed.

(** ** White space *)

Lemma strip_prefix_app (p l r : list ascii) :
  strip_prefix p l = Some r -> l = p ++ r.
Proof.
  revert l. induction p as [|a p IH]; intros l H; [injection H as <-; reflexivity|].
  destruct l as [|b l]; [discriminate H|]. cbn [strip_prefix] in H.
  destruct (Ascii.eqb_spec a b) as [->|_]; [|discriminate H].
  cbn [app]. f_equal. apply IH, H.
Qed.

Lemma strip_prefix_of_app (p r : list ascii) : strip_prefix p (p ++ r) = Some r.
Proof.
  induction p as [|a p IH]; [reflexivity|].
  cbn [app strip_prefix]. rewrite Ascii.eqb_refl. exact IH.
Qed.

Lemma strip_one_app (pats : list (list ascii)) (l r : list ascii) :
  strip_one pats l = Some r -> exists p, In p pats /\ l = p ++ r.
Proof.
  induction pats as [|p ps IH]; intros H; [discriminate H|].
  cbn [strip_one] in H. destruct (strip_prefix p l) as [r'|] eqn:Hp.
  - injection H as ->. exists p. split; [left; reflexivity | apply strip_prefix_app, Hp].
  - destruct (IH H) as [q [Hq Hl]]. exists q. split; [right; exact Hq | exact Hl].
Qed.

(** When nothing is stripped, no pattern begins the list. *)
Lemma strip_one_none (pats : list (list ascii)) (p x : list ascii) :
  In p pats -> strip_one pats (p ++ x) <> None.
Proof.
  induction pats as [|q qs IH]; intros Hin; [destruct Hin|].
  cbn [strip_one]. destruct (strip_prefix q (p ++ x)) eqn:Hq; [discriminate|].
  destruct Hin as [->|Hin]; [|exact (IH Hin)].
  rewrite strip_prefix_of_app in Hq. discriminate Hq.
Qed.

(** Nor does one begin any of its initial parts. *)
Lemma strip_one_none_prefix (pats : list (list ascii)) (l k : list ascii) :
  strip_one pats (l ++ k) = None -> strip_one pats l = None.
Proof.
  intros H. destruct (strip_one pats l) as [r|] eqn:Hl; [|reflexivity].
  destruct (strip_one_app pats l r Hl) as [p [Hp ->]].
  rewrite <- app_assoc in H. destruct (strip_one_none pats p (r ++ k) Hp H).
Qed.

Lemma strip_all_fixed (fuel : nat) (pats : list (list ascii)) (l : list ascii) :
  strip_one pats l = None -> strip_all fuel pats l = l.
Proof. intros H. destruct fuel; [reflexivity|]. cbn [strip_all]. rewrite H. reflexivity. Qed.

Lemma strip_all_suffix (pats : list (list ascii)) (fuel : nat) :
  forall l, exists pre, l = pre ++ strip_all fuel pats l.
Proof.
  induction fuel as [|fuel IH]; intros l; [exists []; reflexivity|].
  cbn [strip_all]. destruct (strip_one pats l) as [r|] eqn:Hl; [|exists []; reflexivity].
  destruct (strip_one_app pats l r Hl) as [p [_ ->]].
  destruct (IH r) as [pre Hpre]. exists (p ++ pre).
  rewrite <- app_assoc. f_equal. exact Hpre.
Qed.

(** With fuel for the whole list, what is left begins with no pattern. *)
Lemma strip_all_done (pats : list (list ascii)) (fuel : nat) :
  (forall p, In p pats -> p <> []) ->
  forall l, (length l <= fuel)%nat -> strip_one pats (strip_all fuel pats l) = None.
Proof.
  intros Hne. induction fuel as [|fuel IH]; intros l Hlen.
  - destruct l; [|simpl in Hlen; lia]. cbn [strip_all].
    destruct (strip_one pats []) as [r|] eqn:Hl; [|reflexivity].
    destruct (strip_one_app pats [] r Hl) as [p [Hp Heq]].
    symmetry in Heq. apply app_eq_nil in Heq as [Hnil _].
    destruct (Hne p Hp Hnil).
  - cbn [strip_all]. destruct (strip_one pats l) as [r|] eqn:Hl; [|exact Hl].
    apply IH. destruct (strip_one_app pats l r Hl) as [p [Hp ->]].
    rewrite length_app in Hlen.
    assert (Hpl : (0 < length p)%nat).
    { destruct p; [destruct (Hne [] Hp eq_refl) | simpl; lia]. }
    lia.
Qed.

Lemma WHITE_SPACE_nonempty (p : list ascii) : In p WHITE_SPACE -> p <> [].
Proof.
  intros Hin ->. unfold WHITE_SPACE in Hin. cbn [In] in Hin.
  repeat (destruct Hin as [Hin|Hin]; [discriminate Hin|]). exact Hin.
Qed.

Lemma reversed_nonempty (pats : list (list ascii)) :
  (forall p, In p pats -> p <> []) ->
  forall p, In p (map (@rev ascii) pats) -> p <> [].
Proof.
  intros Hne p Hin ->. apply in_map_iff in Hin as [q [Hq Hin]].
  apply (Hne q Hin). destruct q as [|a q]; [reflexivity|].
  cbn [rev] in Hq. destruct (rev q); discriminate Hq.
Qed.

Lemma strip_leading_done (pats : list (list ascii)) (l : list ascii) :
  (forall p, In p pats -> p <> []) ->
  strip_one pats (strip_leading pats l) = None.
Proof. intros Hne. apply strip_all_done; [exact Hne | apply Nat.le_refl]. Qed.

Lemma strip_leading_fixed (pats : list (list ascii)) (l : list ascii) :
  strip_one pats l = None -> strip_leading pats l = l.
Proof. apply strip_all_fixed. Qed.

(** A string that begins with no white space is its own [trimStart]. *)
Lemma trim_start_fixed (s : string) :
  strip_one WHITE_SPACE (String.list_ascii_of_string s) = None -> trim_start s = s.
Proof.
  intros H. unfold trim_start. rewrite (strip_leading_fixed _ _ H).
  apply String.string_of_list_ascii_of_string.
Qed.

(** What [trim] returns begins and ends with no white space, and [trim]
    leaves it as it is. *)
Lemma trim_idem (s : string) : trim (trim s) = trim s.
Proof.
  unfold trim, trim_end, trim_start.
  rewrite !String.list_ascii_of_string_of_list_ascii.
  set (t := strip_leading WHITE_SPACE (String.list_ascii_of_string s)).
  set (v := strip_leading (map (@rev ascii) WHITE_SPACE) (rev t)).
  assert (Ht : strip_one WHITE_SPACE t = None)
    by (apply strip_leading_done, WHITE_SPACE_nonempty).
  assert (Hv : strip_one (map (@rev ascii) WHITE_SPACE) v = None)
    by (apply strip_leading_done, reversed_nonempty, WHITE_SPACE_nonempty).
  destruct (strip_all_suffix (map (@rev ascii) WHITE_SPACE) (length (rev t)) (rev t))
    as [pre Hpre].
  fold (strip_leading (map (@rev ascii) WHITE_SPACE) (rev t)) in Hpre. fold v in Hpre.
  assert (Htv : t = rev v ++ rev pre).
  { rewrite <- rev_app_distr, <- Hpre, rev_involutive. reflexivity. }
  assert (Hrv : strip_one WHITE_SPACE (rev v) = None).
  { apply (strip_one_none_prefix _ _ (rev pre)). rewrite <- Htv. exact Ht. }
  rewrite (strip_leading_fixed _ _ Hrv), rev_involutive.
  rewrite (strip_leading_fixed _ _ Hv). reflexivity.
Qed.

(** White space beyond ASCII goes too: a no-break space in front of
    a name and an ideographic space behind it are trimmed, a name of
    one no-break space is blank, and [parseInt] skips a no-break
    space. *)
Lemma trim_unicode_space :
  trim (String.string_of_list_ascii
          (utf8 [194%nat; 160%nat; 97%nat; 110%nat; 110%nat;
                 227%nat; 128%nat; 128%nat])) = "ann" /\
  trim (String.string_of_list_ascii (utf8 [194%nat; 160%nat])) = "" /\
  parseInt10 (String.string_of_list_ascii
                (utf8 [194%nat; 160%nat; 50%nat; 48%nat; 48%nat])) = Some 200.
Proof. vm_compute. repeat split; reflexivity. Qed.

(** ** The stored best *)

Ltac read_digit :=
  cbn [NilEmpty.string_of_uint digits_value];
  match goal with
  | |- context [digit_of ?a] =>
      let v := eval vm_compute in (digit_of a) in change (digit_of a) with v
  end;
  cbv beta iota.

Lemma digits_value_acc (d : Decimal.uint) :
  forall acc : positive,
    digits_value (NilEmpty.string_of_uint d) (Z.pos acc) true =
      Some (Z.pos (Pos.of_uint_acc d acc)).
Proof.
  induction d as [|d IH|d IH|d IH|d IH|d IH|d IH|d IH|d IH|d IH|d IH];
    intros acc; [reflexivity|..]; read_digit; cbn [Pos.of_uint_acc];
    rewrite <- IH; f_equal; lia.
Qed.

Lemma digits_value_uint (d : Decimal.uint) :
  forall seen : bool, d <> Decimal.Nil \/ seen = true ->
    digits_value (NilEmpty.string_of_uint d) 0 seen = Some (Z.of_N (Pos.of_uint d)).
Proof.
  induction d as [|d IH|d IH|d IH|d IH|d IH|d IH|d IH|d IH|d IH|d IH];
    intros seen Hseen.
  - destruct Hseen as [H| ->]; [contradiction | reflexivity].
  - read_digit. cbn [Pos.of_uint]. apply IH. right. reflexivity.
  - read_digit. cbn [Pos.of_uint]. exact (digits_value_acc d 1).
  - read_digit. cbn [Pos.of_uint]. exact (digits_value_acc d 2).
  - read_digit. cbn [Pos.of_uint]. exact (digits_value_acc d 3).
  - read_digit. cbn [Pos.of_uint]. exact (digits_value_acc d 4).
  - read_digit. cbn [Pos.of_uint]. exact (digits_value_acc d 5).
  - read_digit. cbn [Pos.of_uint]. exact (digits_value_acc d 6).
  - read_digit. cbn [Pos.of_uint]. exact (digits_value_acc d 7).
  - read_digit. cbn [Pos.of_uint]. exact (digits_value_acc d 8).
  - read_digit. cbn [Pos.of_uint]. exact (digits_value_acc d 9).
Qed.

Lemma parseInt10_digits (d : Decimal.uint) :
  d <> Decimal.Nil ->
  parseInt10 (NilEmpty.string_of_uint d) =
    digits_value (NilEmpty.string_of_uint d) 0 false /\
  parseInt10 (String "-" (NilEmpty.string_of_uint d)) =
    Z.opp <$> digits_value (NilEmpty.string_of_uint d) 0 false /\
  NilZero.string_of_uint d = NilEmpty.string_of_uint d.
Proof.
  intros Hd. destruct d; [contradiction|..]; (split; [|split]);
    first [ reflexivity
          | unfold parseInt10; rewrite trim_start_fixed by reflexivity; reflexivity ].
Qed.

Lemma parseInt10_toString (n : Z) : parseInt10 (Number_toString n) = Some n.
Proof.
  destruct n as [|p|p]; [reflexivity|..]; unfold Number_toString, Z.to_int;
    cbn [NilZero.string_of_int];
    destruct (parseInt10_digits (Pos.to_uint p) (Unsigned.to_uint_nonnil p))
      as [Hpos [Hneg Hnil]];
    rewrite Hnil;
    pose proof (digits_value_uint (Pos.to_uint p) false
                  (or_introl (Unsigned.to_uint_nonnil p))) as Hval;
    rewrite Unsigned.of_to in Hval.
  - rewrite Hpos, Hval. reflexivity.
  - rewrite Hneg, Hval. reflexivity.
Qed.

Lemma Number_toString_nonempty (n : Z) : String.eqb (Number_toString n) "" = false.
Proof.
  apply String.eqb_neq. intros He. pose proof (parseInt10_toString n) as H.
  rewrite He in H. discriminate H.
Qed.

Lemma persist_best_stored (n a : Z) :
  persist_best (Some (Number_toString n)) (Some a) =
    Some (Number_toString (Z.min a n)).
Proof.
  unfold persist_best. cbv zeta.
  rewrite Number_toString_nonempty, parseInt10_toString. cbn [js_lt].
  destruct (Z.ltb_spec a n) as [Hlt|Hge].
  - rewrite Z.min_l by lia. reflexivity.
  - rewrite Z.min_r by lia. reflexivity.
Qed.

Lemma persist_best_fresh (a : Z) :
  persist_best None (Some a) =
    if a <? 999999 then Some (Number_toString a) else None.
Proof. reflexivity. Qed.

(** X25. What [_showResults] writes under [db_best] it reads back as
    the same number: [parseInt(String(n), 10)] is [n] for every integer
    [n]. So with [n] stored, a session that averages [a] leaves the
    smaller of [a] and [n] stored. *)
Theorem best_reads_back (n a : Z) :
  parseInt10 (Number_toString n) = Some n /\
  persist_best (Some (Number_toString n)) (Some a) =
    Some (Number_toString (Z.min a n)).
Proof. split; [apply parseInt10_toString | apply persist_best_stored]. Qed.

(** X26. Starting with nothing stored under [db_best], after any run of
    sessions the stored best is the least of their averages, provided
    it is below 999999; when no average is below 999999 nothing is
    stored. *)
Theorem best_is_least_average (avgs : list Z) :
  match fold_left (fun stored a => persist_best stored (Some a)) avgs None with
  | None => Forall (fun a => 999999 <= a) avgs
  | Some t =>
      exists m, t = Number_toString m /\ In m avgs /\ m < 999999 /\
                Forall (fun a => m <= a) avgs
  end.
Proof.
  set (inv := fun (stored : option string) (seen : list Z) =>
    match stored with
    | None => Forall (fun a => 999999 <= a) seen
    | Some t =>
        exists m, t = Number_toString m /\ In m seen /\ m < 999999 /\
                  Forall (fun a => m <= a) seen
    end).
  assert (Hgen : forall rest stored seen, inv stored seen ->
            inv (fold_left (fun stored a => persist_best stored (Some a)) rest stored)
                (seen ++ rest)).
  { induction rest as [|a rest IH]; intros stored seen Hinv.
    - rewrite app_nil_r. exact Hinv.
    - cbn [fold_left].
      replace (seen ++ a :: rest) with ((seen ++ [a]) ++ rest)
        by (rewrite <- app_assoc; reflexivity).
      apply IH. destruct stored as [t|]; unfold inv in Hinv |- *.
      + destruct Hinv as [m [-> [Hin [Hlt Hall]]]].
        rewrite persist_best_stored. exists (Z.min a m).
        split; [reflexivity|]. split; [|split; [lia|]].
        * apply in_or_app. destruct (Z.min_spec a m) as [[_ ->]|[_ ->]];
            [right; left; reflexivity | left; exact Hin].
        * apply Forall_app. split.
          -- eapply Forall_impl; [exact Hall|]. intros x Hx. simpl in Hx. lia.
          -- constructor; [lia | constructor].
      + rewrite persist_best_fresh. destruct (Z.ltb_spec a 999999) as [Hlt|Hge].
        * exists a. split; [reflexivity|]. split; [|split; [exact Hlt|]].
          -- apply in_or_app. right. left. reflexivity.
          -- apply Forall_app. split.
             ++ eapply Forall_impl; [exact Hinv|]. intros x Hx. simpl in Hx. lia.
             ++ constructor; [lia | constructor].
        * apply Forall_app. split; [exact Hinv|]. constructor; [exact Hge | constructor]. }
  exact (Hgen avgs None [] (List.Forall_nil _)).
Qed.

(** X27. A value under [db_best] that [parseInt] cannot read (it makes
    [best] NaN) is never replaced, whatever the sessions that follow
    average; and an average that is NaN replaces nothing. *)
Theorem unreadable_best_stays (t : string) (avgs : list (option Z))
    (Hsome : t <> "") (Hnan : parseInt10 t = None) :
  fold_left persist_best avgs (Some t) = Some t /\
  forall stored, persist_best stored None = stored.
Proof.
  split.
  - induction avgs as [|a avgs IH]; [reflexivity|].
    cbn [fold_left]. replace (persist_best (Some t) a) with (Some t); [exact IH|].
    unfold persist_best. cbv zeta. apply String.eqb_neq in Hsome.
    rewrite Hsome, Hnan. destruct a; reflexivity.
  - intros stored. unfold persist_best. cbv zeta. cbn [js_lt]. reflexivity.
Qed.

Lemma unreadable_best_stays_witness :
  fold_left persist_best [Some 180; Some 150] (Some "fast") = Some "fast".
Proof.
  exact (proj1 (unreadable_best_stays "fast" [Some 180; Some 150]
                  ltac:(discriminate) eq_refl)).
Defined.

(** ** The saved name *)

(** With a blank name the save action does nothing: the flag stays as
    it is and nothing is sent. *)
Lemma blank_name_refused (w : World) :
  trim (playerName w) = "" -> step w SaveName = w.
Proof.
  intros Hblank. unfold step, _submitToLeaderboard.
  destruct (_submitted w); [reflexivity|]. rewrite Hblank. reflexivity.
Qed.

Lemma step_db_name (w : World) (e : Event) :
  db_name (step w e) = db_name w \/
  (db_name (step w e) = Some (trim (playerName w)) /\ trim (playerName w) <> "").
Proof.
  destruct w as [st rn sc fc tc ca av sb mt mr wt ft fr pt tm nt b scr pn sd dn fl].
  destruct e as [o|o|h o| | |s|k r];
    try (step_cases; left; reflexivity).
  wsimpl. destruct sb; [left; reflexivity|].
  destruct (String.eqb_spec (trim pn) "") as [He|Hne]; [left; reflexivity|].
  right. split; [reflexivity | exact Hne].
Qed.

Lemma steps_name_ok (es : list Event) :
  forall w, name_ok (db_name w) -> name_ok (db_name (steps w es)).
Proof.
  induction es as [|e es IH]; intros w Hok; [exact Hok|].
  apply (IH (step w e)).
  destruct (step_db_name w e) as [->|[-> Hne]]; [exact Hok|].
  intros n [= <-]. split; [exact Hne | apply trim_idem].
Qed.

(** X28. The name kept under [db_name] is only ever written trimmed and
    not empty: if what the page found there at load is such a name (or
    nothing), so is what is there after any events. *)
Theorem saved_name_stays_trimmed (saved : option string) (es : list Event)
    (Hsaved : name_ok saved) :
  name_ok (db_name (steps (init saved) es)).
Proof. apply steps_name_ok. exact Hsaved. Qed.

Lemma saved_name_stays_trimmed_witness :
  name_ok (db_name (steps (init None)
                      (scenarioA_four_rounds ++ scenarioA_fifth_round
                         ++ [TypeName " ann "; SaveName]))).
Proof.
  assert (Hnone : name_ok None) by (intros n Hn; discriminate Hn).
  exact (saved_name_stays_trimmed None
           (scenarioA_four_rounds ++ scenarioA_fifth_round
              ++ [TypeName " ann "; SaveName]) Hnone).
Defined.

(** X29. A saved name is offered again and saved again as it is: with
    such a name under [db_name], [_showResults] puts it in the name
    field and clears [_submitted], and the save button then sends that
    very name with the session's average and stores it again. *)
Theorem saved_name_offered_again (w : World) (n : string)
    (Hn : db_name w = Some n) (Hok : name_ok (db_name w)) :
  let w1 := _showResults w in
  playerName w1 = n /\ _submitted w1 = false /\
  inflight (step w1 SaveName) = inflight w ++ [(n, average (scores w))] /\
  db_name (step w1 SaveName) = Some n.
Proof.
  destruct (Hok n Hn) as [Hne Htrim]. apply String.eqb_neq in Hne.
  destruct w as [st rn sc fc tc ca av sb mt mr wt ft fr pt tm nt b scr pn sd dn fl].
  wsimpl_in Hn. subst dn. clear Hok. wsimpl. rewrite Hne. wsimpl.
  rewrite Htrim, Hne. wsimpl. repeat split; reflexivity.
Qed.

Lemma saved_name_offered_again_witness :
  let w := steps results_with_name [SaveName; StartClick (plain_at 0)] in
  playerName (_showResults w) = "ann".
Proof.
  intros w.
  assert (Hn : db_name w = Some "ann") by (vm_compute; reflexivity).
  assert (Hok : name_ok (db_name w)).
  { rewrite Hn. intros n [= <-]. split; [discriminate | vm_compute; reflexivity]. }
  exact (proj1 (saved_name_offered_again w "ann" Hn Hok)).
Defined.

End GameMore.
